(** * Resource Schema and Data Engine: a shallow embedding

    The two services of [backend/src/services/resourceService.ts]
    ([ResourceService] and [DynamicDataService]) are embedded as functions over
    an explicit world: the catalog that Prisma keeps, and the PostgreSQL server
    reached through the [pg] pool.  SQL statements are the very texts the
    services build; the server that runs them is an interface.  The request
    schemas of [middleware/validation.ts] and the routes of [routes/] come
    after the services. *)

From Stdlib Require Import ZArith QArith List String Ascii Bool Lia Permutation.
From Stdlib Require Import DecimalString Sorted.
Import ListNotations.
Close Scope Q_scope.
Local Open Scope list_scope.
Local Open Scope string_scope.

Set Implicit Arguments.

(* ------------------------------------------------------------------ *)
(** ** Text helpers: the JavaScript string operations the services use *)

Module Text.

(** The double quote that surrounds every interpolated identifier. *)
Definition dq : string := String (ascii_of_nat 34) EmptyString.

(** The line break inside the multi-line template literals. *)
Definition nl : string := String (ascii_of_nat 10) EmptyString.

(** [Array.prototype.join]. *)
Definition join (sep : string) (parts : list string) : string :=
  String.concat sep parts.

(** Decimal rendering of an integer, as a template literal renders it. *)
Definition Z_to_string (z : Z) : string :=
  NilEmpty.string_of_int (Z.to_int z).

Definition nat_to_string (n : nat) : string :=
  NilEmpty.string_of_uint (Nat.to_uint n).

Definition lower_ascii (c : ascii) : ascii :=
  let n := nat_of_ascii c in
  if andb (Nat.leb 65 n) (Nat.leb n 90) then ascii_of_nat (n + 32) else c.

(** [String.prototype.toLowerCase] on the ASCII range. *)
Fixpoint toLowerCase (s : string) : string :=
  match s with
  | EmptyString => EmptyString
  | String c rest => String (lower_ascii c) (toLowerCase rest)
  end.

(** [s.replace(/'/g, "''")]: every single quote is written twice. *)
Fixpoint double_single_quotes (s : string) : string :=
  match s with
  | EmptyString => EmptyString
  | String c rest =>
      if Ascii.eqb c "'"%char
      then String "'"%char (String "'"%char (double_single_quotes rest))
      else String c (double_single_quotes rest)
  end.

(** Does the character [c] occur in [s]? *)
Fixpoint occurs (c : ascii) (s : string) : bool :=
  match s with
  | EmptyString => false
  | String d rest => Ascii.eqb c d || occurs c rest
  end.

(** The body of a single-quoted SQL literal is well formed when each single
    quote in it is immediately followed by its double. *)
Fixpoint quotes_paired (s : string) : bool :=
  match s with
  | EmptyString => true
  | String c rest =>
      if Ascii.eqb c "'"%char then
        match rest with
        | String d rest' => Ascii.eqb d "'"%char && quotes_paired rest'
        | EmptyString => false
        end
      else quotes_paired rest
  end.

(** A whole literal: an opening quote, a paired body, a closing quote. *)
Definition sql_literal_ok (lit : string) : Prop :=
  exists body, lit = "'" ++ body ++ "'" /\ quotes_paired body = true.

End Text.

(* ------------------------------------------------------------------ *)
(** ** Regular expressions: the fragment that [validation.pattern] holds *)

Module RegExp.

Local Open Scope list_scope.

Inductive Regex : Type :=
| Never
| Eps
| Chr (c : ascii)
| AnyChar
| Seq (r1 r2 : Regex)
| Alt (r1 r2 : Regex)
| Star (r : Regex).

(** The language of a regular expression. *)
Inductive matches : Regex -> list ascii -> Prop :=
| m_eps : matches Eps []
| m_chr c : matches (Chr c) [c]
| m_any c : matches AnyChar [c]
| m_seq r1 r2 s1 s2 :
    matches r1 s1 -> matches r2 s2 -> matches (Seq r1 r2) (s1 ++ s2)
| m_alt_l r1 r2 s : matches r1 s -> matches (Alt r1 r2) s
| m_alt_r r1 r2 s : matches r2 s -> matches (Alt r1 r2) s
| m_star_nil r : matches (Star r) []
| m_star_cons r s1 s2 :
    matches r s1 -> matches (Star r) s2 -> matches (Star r) (s1 ++ s2).

Fixpoint nullable (r : Regex) : bool :=
  match r with
  | Never => false
  | Eps => true
  | Chr _ => false
  | AnyChar => false
  | Seq r1 r2 => nullable r1 && nullable r2
  | Alt r1 r2 => nullable r1 || nullable r2
  | Star _ => true
  end.

Fixpoint deriv (c : ascii) (r : Regex) : Regex :=
  match r with
  | Never => Never
  | Eps => Never
  | Chr d => if Ascii.eqb c d then Eps else Never
  | AnyChar => Eps
  | Seq r1 r2 =>
      if nullable r1
      then Alt (Seq (deriv c r1) r2) (deriv c r2)
      else Seq (deriv c r1) r2
  | Alt r1 r2 => Alt (deriv c r1) (deriv c r2)
  | Star r1 => Seq (deriv c r1) (Star r1)
  end.

(** Whole-input match, by derivatives. *)
Fixpoint full_match (r : Regex) (s : list ascii) : bool :=
  match s with
  | [] => nullable r
  | c :: rest => full_match (deriv c r) rest
  end.

(** A pattern as [new RegExp(source)] builds it: the body, and whether the
    source opens with [^] and closes with [$]. *)
Record Pattern : Type := mkPattern {
  anchoredStart : bool;
  body : Regex;
  anchoredEnd : bool
}.

Definition unanchored (r : Regex) : Pattern := mkPattern false r false.

Definition padding (anchored : bool) : Regex :=
  if anchored then Eps else Star AnyChar.

(** [RegExp.prototype.test]: a search for a match anywhere in the input,
    pinned to an end only where the pattern carries the anchor. *)
Definition test (p : Pattern) (s : string) : bool :=
  full_match
    (Seq (padding (anchoredStart p)) (Seq (body p) (padding (anchoredEnd p))))
    (list_ascii_of_string s).

(** Literal text as a pattern body. *)
Fixpoint literal (s : string) : Regex :=
  match s with
  | EmptyString => Eps
  | String c rest => Seq (Chr c) (literal rest)
  end.

End RegExp.

(* ------------------------------------------------------------------ *)
(** ** JavaScript values and the built-ins the services call *)

Module Js.

(** A value as the services meet it: a JSON value, numbers being exact
    rationals, or a built-in function, which is what reading a property of
    a plain object gives for a name that only its prototype has. *)
#[warnings="-register-all"]
Inductive Json : Type :=
| JNull
| JBool (b : bool)
| JNum (q : Q)
| JStr (s : string)
| JArr (items : list Json)
| JObj (members : list (string * Json))
| JNative (name : string) (arity : nat).

(** A plain object, as the list of its own properties in enumeration
    order. *)
Definition JsObject : Type := list (string * Json).

Definition Object_keys (o : JsObject) : list string := map fst o.
Definition Object_values (o : JsObject) : list Json := map snd o.

(** The own property of that name; [None] when the object has none. *)
Fixpoint get (o : JsObject) (key : string) : option Json :=
  match o with
  | [] => None
  | (k, v) :: rest => if String.eqb k key then Some v else get rest key
  end.

(** The properties of [Object.prototype], which every plain object
    inherits: eleven built-in functions, each with the number of its formal
    parameters, and the accessor [__proto__], which answers with the
    prototype itself, an object without enumerable properties. *)
Definition Object_prototype (key : string) : option Json :=
  if String.eqb key "constructor" then Some (JNative "Object" 1)
  else if String.eqb key "hasOwnProperty" then Some (JNative "hasOwnProperty" 1)
  else if String.eqb key "isPrototypeOf" then Some (JNative "isPrototypeOf" 1)
  else if String.eqb key "propertyIsEnumerable" then Some (JNative "propertyIsEnumerable" 1)
  else if String.eqb key "toLocaleString" then Some (JNative "toLocaleString" 0)
  else if String.eqb key "toString" then Some (JNative "toString" 0)
  else if String.eqb key "valueOf" then Some (JNative "valueOf" 0)
  else if String.eqb key "__defineGetter__" then Some (JNative "__defineGetter__" 2)
  else if String.eqb key "__defineSetter__" then Some (JNative "__defineSetter__" 2)
  else if String.eqb key "__lookupGetter__" then Some (JNative "__lookupGetter__" 1)
  else if String.eqb key "__lookupSetter__" then Some (JNative "__lookupSetter__" 1)
  else if String.eqb key "__proto__" then Some (JObj [])
  else None.

(** [o[key]] on a plain object: the own property, or else the inherited
    one; [None] is [undefined]. *)
Definition read (o : JsObject) (key : string) : option Json :=
  match get o key with
  | Some v => Some v
  | None => Object_prototype key
  end.

(** [value === undefined || value === null]. *)
Definition nullish (v : option Json) : bool :=
  match v with
  | None => true
  | Some JNull => true
  | Some _ => false
  end.

Definition JInt (z : Z) : Json := JNum (inject_Z z).

Definition Q_is_zero (q : Q) : bool := Z.eqb (Qnum q) 0.

(** Truthiness of a value that is not [undefined]. *)
Definition truthy (v : Json) : bool :=
  match v with
  | JNull => false
  | JBool b => b
  | JNum q => negb (Q_is_zero q)
  | JStr s => negb (String.eqb s EmptyString)
  | JArr _ => true
  | JObj _ => true
  | JNative _ _ => true
  end.

(** [Number.isInteger]. *)
Definition Number_isInteger (v : Json) : bool :=
  match v with
  | JNum q => Pos.eqb (Qden (Qred q)) 1
  | _ => false
  end.

Definition is_string (v : Json) : bool :=
  match v with JStr _ => true | _ => false end.
Definition is_number (v : Json) : bool :=
  match v with JNum _ => true | _ => false end.
Definition is_boolean (v : Json) : bool :=
  match v with JBool _ => true | _ => false end.

(** What a thrown value is to a [catch] block. *)
Inductive Thrown : Type :=
| JsError (message : string)
| NonError.

(** [error instanceof Error ? error.message : 'Unknown error']. *)
Definition error_message (e : Thrown) : string :=
  match e with
  | JsError m => m
  | NonError => "Unknown error"
  end.

(** The built-ins whose results the JavaScript engine defines: number
    printing and parsing, dates, JSON text. *)
Class Builtins : Type := {
  Number_toString : Q -> string;
  StringToNumber : string -> option Q;
  Structured_toString : Json -> string;
  Date_parse_isNaN : Json -> bool;
  JSON_parse_throws : string -> bool;
  JSON_stringify : Json -> string;
  parseInt : option Json -> option Z
}.

Section WithBuiltins.
Context {B : Builtins}.

(** [String(value)] and template-literal interpolation. *)
Definition ToString (v : Json) : string :=
  match v with
  | JNull => "null"
  | JBool true => "true"
  | JBool false => "false"
  | JNum q => Number_toString q
  | JStr s => s
  | JArr _ => Structured_toString v
  | JObj _ => Structured_toString v
  | JNative _ _ => Structured_toString v
  end.

(** [Number(value)]; [None] is [NaN]. *)
Definition ToNumber (v : Json) : option Q :=
  match v with
  | JNull => Some (inject_Z 0)
  | JBool true => Some (inject_Z 1)
  | JBool false => Some (inject_Z 0)
  | JNum q => Some q
  | JStr s => StringToNumber s
  | JArr _ => StringToNumber (Structured_toString v)
  | JObj _ => StringToNumber (Structured_toString v)
  | JNative _ _ => StringToNumber (Structured_toString v)
  end.

(** [value < bound] and [value > bound] against a number; a comparison
    with [NaN] or [undefined] is false. *)
Definition lt_number (v : option Json) (bound : Q) : bool :=
  match v with
  | Some j =>
      match ToNumber j with
      | Some q => negb (Qle_bool bound q)
      | None => false
      end
  | None => false
  end.

Definition gt_number (v : option Json) (bound : Q) : bool :=
  match v with
  | Some j =>
      match ToNumber j with
      | Some q => negb (Qle_bool q bound)
      | None => false
      end
  | None => false
  end.

(** [value.length]. *)
Definition length_of (v : Json) : option Json :=
  match v with
  | JStr s => Some (JInt (Z.of_nat (String.length s)))
  | JArr items => Some (JInt (Z.of_nat (List.length items)))
  | JObj members => get members "length"
  | JNative _ arity => Some (JInt (Z.of_nat arity))
  | _ => None
  end.

(** [list.includes(value)] for a list of strings. *)
Definition includes (l : list string) (v : Json) : bool :=
  match v with
  | JStr s => existsb (String.eqb s) l
  | _ => false
  end.

End WithBuiltins.

End Js.

(* ------------------------------------------------------------------ *)
(** ** Declarations: [backend/src/types/index.ts] *)

Module Types.
Import Js.

(** The Prisma enum [FieldType]. *)
Inductive FieldType : Type :=
| STRING | INTEGER | FLOAT | BOOLEAN | DATE | DATETIME | TEXT | JSON.

(** The enum member as the string it is at run time. *)
Definition FieldType_name (t : FieldType) : string :=
  match t with
  | STRING => "STRING" | INTEGER => "INTEGER" | FLOAT => "FLOAT"
  | BOOLEAN => "BOOLEAN" | DATE => "DATE" | DATETIME => "DATETIME"
  | TEXT => "TEXT" | JSON => "JSON"
  end.

Definition FieldType_of_name (s : string) : option FieldType :=
  if String.eqb s "STRING" then Some STRING
  else if String.eqb s "INTEGER" then Some INTEGER
  else if String.eqb s "FLOAT" then Some FLOAT
  else if String.eqb s "BOOLEAN" then Some BOOLEAN
  else if String.eqb s "DATE" then Some DATE
  else if String.eqb s "DATETIME" then Some DATETIME
  else if String.eqb s "TEXT" then Some TEXT
  else if String.eqb s "JSON" then Some JSON
  else None.

Definition FieldType_eqb (a b : FieldType) : bool :=
  String.eqb (FieldType_name a) (FieldType_name b).

Definition SQL_TYPE_MAPPING (t : FieldType) : string :=
  match t with
  | STRING => "VARCHAR(255)"
  | INTEGER => "INTEGER"
  | FLOAT => "DECIMAL(10,2)"
  | BOOLEAN => "BOOLEAN"
  | DATE => "DATE"
  | DATETIME => "TIMESTAMP"
  | TEXT => "TEXT"
  | JSON => "JSONB"
  end.

(** [FieldValidation].  [pattern] is the source text of a regular
    expression, held as the pattern [new RegExp] makes of it. *)
Record FieldValidation : Type := mkValidation {
  v_min : option Q;
  v_max : option Q;
  v_minLength : option Q;
  v_maxLength : option Q;
  v_pattern : option RegExp.Pattern;
  v_enum : option (list string)
}.

Definition no_rules : FieldValidation :=
  mkValidation None None None None None None.

Record FieldDefinition : Type := mkFieldDef {
  fd_name : string;
  fd_displayName : option string;
  fd_type : FieldType;
  fd_isRequired : option bool;
  fd_isUnique : option bool;
  fd_defaultValue : option Json;
  fd_validation : option FieldValidation
}.

Record ResourceDefinition : Type := mkResourceDef {
  rd_name : string;
  rd_displayName : option string;
  rd_description : option string;
  rd_fields : list FieldDefinition
}.

Inductive SortOrder : Type := asc | desc.

(** [QueryOptions]; [page] and [limit] are whole numbers, as the route
    parses them from digits. *)
Record QueryOptions : Type := mkOptions {
  page : option Z;
  limit : option Z;
  sort : option string;
  order : option SortOrder;
  filter : option JsObject
}.

Definition no_options : QueryOptions := mkOptions None None None None None.

(** A row of a dynamic table: column name to value. *)
Definition Row : Type := JsObject.

(** A row of the catalog table [fields].  The catalog keeps the default
    value and the validation rules as JSON text; they are held here as the
    values that text parses to. *)
Record FieldRow : Type := mkFieldRow {
  f_id : nat;
  f_name : string;
  f_displayName : option string;
  f_type : FieldType;
  f_isRequired : bool;
  f_isUnique : bool;
  f_defaultValue : option Json;
  f_validation : option FieldValidation;
  f_order : nat
}.

(** A row of the catalog table [resources], with its fields included. *)
Record ResourceRow : Type := mkResourceRow {
  r_id : nat;
  r_name : string;
  r_displayName : option string;
  r_description : option string;
  r_tableName : string;
  r_fields : list FieldRow
}.

Record Pagination : Type := mkPagination {
  pg_page : Z;
  pg_limit : Z;
  pg_total : option Z;
  pg_totalPages : option Z
}.

(** What [ApiResponse.data] carries. *)
Inductive ResponseData : Type :=
| DataResource (r : ResourceRow)
| DataResources (rs : list ResourceRow)
| DataRow (r : Row)
| DataPage (items : list Row) (pagination : Pagination).

Record ApiResponse : Type := mkResponse {
  success : bool;
  data : option ResponseData;
  error : option string;
  message : option string
}.

Definition failure (err msg : string) : ApiResponse :=
  mkResponse false None (Some err) (Some msg).

End Types.

(* ------------------------------------------------------------------ *)
(** ** The world: the Prisma catalog and the PostgreSQL server *)

Module Store.
Import Js Types.

(** The PostgreSQL server behind both clients.  [Server] is everything it
    holds besides the catalog (the dynamic tables, its sessions); a call may
    change it and may throw. *)
Class Postgres : Type := {
  Server : Type;
  (** A round trip of the Prisma client: [Some e] when the engine throws. *)
  prisma_call : Server -> Server * option Thrown;
  (** [pgPool.connect()]. *)
  pool_connect : Server -> Server * option Thrown;
  (** [client.query(text, values)]: the rows, or what it throws. *)
  client_query : string -> list Json -> Server -> Server * (Thrown + list Row);
  (** [client.release()]. *)
  client_release : Server -> Server;
  (** What Prisma throws on a unique index, on a missing record, on a
      missing parent row. *)
  unique_violation : string -> Thrown;
  record_not_found : Thrown;
  foreign_key_violation : Thrown
}.

(** The tables [resources] and [fields], in creation order, and the next
    generated id. *)
Record Catalog : Type := mkCatalog {
  resources : list ResourceRow;
  nextId : nat
}.

Definition empty_catalog : Catalog := mkCatalog [] 0.

Section WithServer.
Context {P : Postgres}.

Record World : Type := mkWorld {
  catalog : Catalog;
  server : Server
}.

(** An asynchronous computation: it runs against the world and either
    resolves to a value or rejects with what was thrown. *)
Definition M (A : Type) : Type := World -> World * (Thrown + A).

Definition ret {A} (a : A) : M A := fun w => (w, inr a).

Definition throw {A} (e : Thrown) : M A := fun w => (w, inl e).

Definition bind {A B} (m : M A) (k : A -> M B) : M B :=
  fun w =>
    match m w with
    | (w', inr a) => k a w'
    | (w', inl e) => (w', inl e)
    end.

(** [try { body } catch (error) { return handler(error) }]. *)
Definition try_catch {A} (body : M A) (handler : Thrown -> A) : M A :=
  fun w =>
    match body w with
    | (w', inr a) => (w', inr a)
    | (w', inl e) => (w', inr (handler e))
    end.

(** [try { body } finally { client.release() }]. *)
Definition try_finally_release {A} (body : M A) : M A :=
  fun w =>
    match body w with
    | (w', r) => (mkWorld (catalog w') (client_release (server w')), r)
    end.

Definition on_server {A} (f : Server -> Server * (Thrown + A)) : M A :=
  fun w =>
    match f (server w) with
    | (s', r) => (mkWorld (catalog w) s', r)
    end.

Definition gate (f : Server -> Server * option Thrown) : M unit :=
  on_server (fun s =>
    match f s with
    | (s', Some e) => (s', inl e)
    | (s', None) => (s', inr tt)
    end).

Definition connect : M unit := gate pool_connect.

Definition query (text : string) (values : list Json) : M (list Row) :=
  on_server (client_query text values).

(** A Prisma call that reads the catalog. *)
Definition prisma_read {A} (f : Catalog -> A) : M A :=
  bind (gate prisma_call) (fun _ => fun w => (w, inr (f (catalog w)))).

(** A Prisma call that writes the catalog, or throws and writes nothing. *)
Definition prisma_write {A} (f : Catalog -> Thrown + (Catalog * A)) : M A :=
  bind (gate prisma_call) (fun _ => fun w =>
    match f (catalog w) with
    | inr (c', a) => (mkWorld c' (server w), inr a)
    | inl e => (w, inl e)
    end).

(** [prisma.$transaction(async tx => body)]: the catalog writes of [body]
    are kept when it resolves and the commit goes through, and are undone
    when it rejects.  Statements sent through the [pg] pool travel on another
    connection and are outside the transaction. *)
Definition transaction {A} (body : M A) : M A :=
  fun w =>
    match body w with
    | (w', inr a) =>
        match prisma_call (server w') with
        | (s'', None) => (mkWorld (catalog w') s'', inr a)
        | (s'', Some e) => (mkWorld (catalog w) s'', inl e)
        end
    | (w', inl e) => (mkWorld (catalog w) (server w'), inl e)
    end.

End WithServer.

(** *** The catalog tables *)

Definition find_resource (name : string) (c : Catalog) : option ResourceRow :=
  find (fun r => String.eqb (r_name r) name) (resources c).

Fixpoint insert_by_order (f : FieldRow) (l : list FieldRow) : list FieldRow :=
  match l with
  | [] => [f]
  | g :: rest =>
      if Nat.leb (f_order f) (f_order g) then f :: l
      else g :: insert_by_order f rest
  end.

(** [orderBy: { order: 'asc' }]. *)
Definition order_fields (l : list FieldRow) : list FieldRow :=
  fold_right insert_by_order [] l.

Definition with_ordered_fields (r : ResourceRow) : ResourceRow :=
  mkResourceRow (r_id r) (r_name r) (r_displayName r) (r_description r)
    (r_tableName r) (order_fields (r_fields r)).

(** The field data of a nested or a direct [create]. *)
Record FieldData : Type := mkFieldData {
  d_name : string;
  d_displayName : option string;
  d_type : FieldType;
  d_isRequired : bool;
  d_isUnique : bool;
  d_defaultValue : option Json;
  d_validation : option FieldValidation;
  d_order : nat
}.

Definition field_row (id : nat) (d : FieldData) : FieldRow :=
  mkFieldRow id (d_name d) (d_displayName d) (d_type d) (d_isRequired d)
    (d_isUnique d) (d_defaultValue d) (d_validation d) (d_order d).

Fixpoint number_fields (id : nat) (ds : list FieldData) : list FieldRow :=
  match ds with
  | [] => []
  | d :: rest => field_row id d :: number_fields (S id) rest
  end.

Fixpoint has_duplicate (names : list string) : bool :=
  match names with
  | [] => false
  | n :: rest => existsb (String.eqb n) rest || has_duplicate rest
  end.

Section CatalogWrites.
Context {P : Postgres}.

(** [resource.create] with nested fields, under the unique indexes on
    [name], on [tableName] and on ([resourceId], [name]). *)
Definition resource_create (name : string) (displayName description : option string)
    (tableName : string) (fields : list FieldData) (c : Catalog)
    : Thrown + (Catalog * ResourceRow) :=
  if existsb (fun r => String.eqb (r_name r) name) (resources c)
  then inl (unique_violation "name")
  else if existsb (fun r => String.eqb (r_tableName r) tableName) (resources c)
  then inl (unique_violation "tableName")
  else if has_duplicate (map d_name fields)
  then inl (unique_violation "resourceId,name")
  else
    let row := mkResourceRow (nextId c) name displayName description tableName
                 (number_fields (S (nextId c)) fields) in
    inr (mkCatalog (resources c ++ [row])%list
           (S (nextId c) + List.length fields), row).

Definition set_labels (displayName description : option string) (r : ResourceRow)
    : ResourceRow :=
  mkResourceRow (r_id r) (r_name r) displayName description (r_tableName r)
    (r_fields r).

Definition map_named (name : string) (f : ResourceRow -> ResourceRow)
    (l : list ResourceRow) : list ResourceRow :=
  map (fun r => if String.eqb (r_name r) name then f r else r) l.

(** [resource.update({ where: { name }, data })]. *)
Definition resource_update (name : string) (displayName description : option string)
    (c : Catalog) : Thrown + (Catalog * ResourceRow) :=
  match find_resource name c with
  | None => inl record_not_found
  | Some r =>
      inr (mkCatalog (map_named name (set_labels displayName description) (resources c))
             (nextId c),
           set_labels displayName description r)
  end.

(** [resource.delete({ where: { name } })]; the fields go with it. *)
Definition resource_delete (name : string) (c : Catalog) : Thrown + (Catalog * unit) :=
  match find_resource name c with
  | None => inl record_not_found
  | Some _ =>
      inr (mkCatalog
             (List.filter (fun r => negb (String.eqb (r_name r) name)) (resources c))
             (nextId c), tt)
  end.

Definition owns_field (id : nat) (r : ResourceRow) : bool :=
  existsb (fun f => Nat.eqb (f_id f) id) (r_fields r).

Definition set_fields (fs : list FieldRow) (r : ResourceRow) : ResourceRow :=
  mkResourceRow (r_id r) (r_name r) (r_displayName r) (r_description r)
    (r_tableName r) fs.

(** [field.delete({ where: { id } })]. *)
Definition field_delete (id : nat) (c : Catalog) : Thrown + (Catalog * unit) :=
  if existsb (owns_field id) (resources c)
  then inr (mkCatalog
              (map (fun r =>
                      set_fields
                        (List.filter (fun f => negb (Nat.eqb (f_id f) id)) (r_fields r)) r)
                   (resources c))
              (nextId c), tt)
  else inl record_not_found.

(** [field.update({ where: { id }, data })]; the name is not among the
    data. *)
Definition field_update (id : nat) (d : FieldData) (c : Catalog)
    : Thrown + (Catalog * unit) :=
  if existsb (owns_field id) (resources c)
  then inr (mkCatalog
              (map (fun r =>
                      set_fields
                        (map (fun f =>
                                if Nat.eqb (f_id f) id
                                then mkFieldRow id (f_name f) (d_displayName d) (d_type d)
                                       (d_isRequired d) (d_isUnique d) (d_defaultValue d)
                                       (d_validation d) (d_order d)
                                else f)
                             (r_fields r)) r)
                   (resources c))
              (nextId c), tt)
  else inl record_not_found.

(** [field.create({ data })] with its [resourceId]. *)
Definition field_create (resourceId : nat) (d : FieldData) (c : Catalog)
    : Thrown + (Catalog * unit) :=
  match find (fun r => Nat.eqb (r_id r) resourceId) (resources c) with
  | None => inl foreign_key_violation
  | Some owner =>
      if existsb (fun f => String.eqb (f_name f) (d_name d)) (r_fields owner)
      then inl (unique_violation "resourceId,name")
      else inr (mkCatalog
                  (map (fun r =>
                          if Nat.eqb (r_id r) resourceId
                          then set_fields (r_fields r ++ [field_row (nextId c) d])%list r
                          else r)
                       (resources c))
                  (S (nextId c)), tt)
  end.

End CatalogWrites.

Declare Scope service_scope.
Delimit Scope service_scope with service.
Notation "x <- m ;; k" := (bind m (fun x => k))
  (at level 61, m at next level, right associativity) : service_scope.
Notation "m ;;; k" := (bind m (fun _ => k))
  (at level 61, right associativity) : service_scope.

End Store.

(* ------------------------------------------------------------------ *)
(** ** [ResourceService]: the catalog and the schema synchronizer *)

Module ResourceService.
Import Js Types Store Text.
Local Open Scope service_scope.

(** What a [findUnique] or [findMany] includes of the fields. *)
Inductive Include : Type :=
| NoFields
| Fields
| FieldsByOrder.

Definition included (inc : Include) (r : ResourceRow) : ResourceRow :=
  match inc with
  | NoFields => set_fields [] r
  | Fields => r
  | FieldsByOrder => with_ordered_fields r
  end.

(** [value || null] on an optional string. *)
Definition or_null (s : option string) : option string :=
  match s with
  | Some t => if String.eqb t EmptyString then None else Some t
  | None => None
  end.

(** [flag || false], and the truthiness of an optional flag. *)
Definition or_false (b : option bool) : bool :=
  match b with
  | Some t => t
  | None => false
  end.

(** [value ? JSON.stringify(value) : null]: the column keeps the JSON text
    of a truthy value, held here as the value. *)
Definition stringify_if_truthy (v : option Json) : option Json :=
  match v with
  | Some j => if truthy j then Some j else None
  | None => None
  end.

Definition field_data (index : nat) (field : FieldDefinition) : FieldData :=
  mkFieldData (fd_name field) (or_null (fd_displayName field)) (fd_type field)
    (or_false (fd_isRequired field)) (or_false (fd_isUnique field))
    (stringify_if_truthy (fd_defaultValue field)) (fd_validation field) index.

Fixpoint indexed_from {A} (i : nat) (l : list A) : list (nat * A) :=
  match l with
  | [] => []
  | a :: rest => (i, a) :: indexed_from (S i) rest
  end.

(** [new Map(fields.map(f => [key(f), f])).get(name)]: a later entry
    replaces an earlier one of the same name. *)
Definition map_get {A} (key : A -> string) (l : list A) (name : string) : option A :=
  find (fun a => String.eqb (key a) name) (rev l).

Definition map_has {A} (key : A -> string) (l : list A) (name : string) : bool :=
  existsb (fun a => String.eqb (key a) name) l.

Definition generateTableName (resourceName : string) : string :=
  "dyn_" ++ toLowerCase resourceName.

Definition quoted (identifier : string) : string := dq ++ identifier ++ dq.

Definition unique_index_sql (tableName fieldName : string) : string :=
  "CREATE UNIQUE INDEX " ++ dq ++ tableName ++ "_" ++ fieldName ++ "_unique" ++ dq
  ++ " ON " ++ quoted tableName ++ " (" ++ quoted fieldName ++ ")".

Section Service.
Context {B : Builtins} {P : Postgres}.

(** [formatDefaultValue(value, type)]; [None] is [undefined], and [type] is
    the enum member as the string the [switch] compares. *)
Definition formatDefaultValue (value : option Json) (type : string) : string :=
  match value with
  | None => "NULL"
  | Some JNull => "NULL"
  | Some v =>
      match FieldType_of_name type with
      | Some STRING | Some TEXT => "'" ++ double_single_quotes (ToString v) ++ "'"
      | Some INTEGER | Some FLOAT => ToString v
      | Some BOOLEAN => if truthy v then "TRUE" else "FALSE"
      | Some DATE | Some DATETIME => "'" ++ ToString v ++ "'"
      | Some JSON => "'" ++ JSON_stringify v ++ "'::jsonb"
      | None => "'" ++ ToString v ++ "'"
      end
  end.

(** The column definition both [createTable] and [updateTableSchema] start
    from: the quoted name, the mapped type, [NOT NULL] when required. *)
Definition columnDef (field : FieldDefinition) : string :=
  quoted (fd_name field) ++ " " ++ SQL_TYPE_MAPPING (fd_type field)
  ++ (if or_false (fd_isRequired field) then " NOT NULL" else EmptyString).

Definition default_clause (field : FieldDefinition) : string :=
  match fd_defaultValue field with
  | Some v => " DEFAULT " ++ formatDefaultValue (Some v) (FieldType_name (fd_type field))
  | None => EmptyString
  end.

Definition create_table_sql (tableName : string) (fields : list FieldDefinition) : string :=
  "CREATE TABLE " ++ quoted tableName ++ " (" ++ nl
  ++ "        id SERIAL PRIMARY KEY," ++ nl
  ++ "        created_at TIMESTAMP DEFAULT NOW()," ++ nl
  ++ "        updated_at TIMESTAMP DEFAULT NOW()"
  ++ String.concat EmptyString
       (map (fun field => "," ++ nl ++ "        " ++ columnDef field ++ default_clause field)
            fields)
  ++ nl ++ "      )".

Definition trigger_function_sql : string :=
  nl ++ "        CREATE OR REPLACE FUNCTION update_updated_at_column()"
  ++ nl ++ "        RETURNS TRIGGER AS $$"
  ++ nl ++ "        BEGIN"
  ++ nl ++ "          NEW.updated_at = NOW();"
  ++ nl ++ "          RETURN NEW;"
  ++ nl ++ "        END;"
  ++ nl ++ "        $$ language 'plpgsql';"
  ++ nl ++ "      ".

Definition trigger_sql (tableName : string) : string :=
  nl ++ "        CREATE TRIGGER update_" ++ tableName ++ "_updated_at "
  ++ nl ++ "        BEFORE UPDATE ON " ++ quoted tableName ++ " "
  ++ nl ++ "        FOR EACH ROW EXECUTE FUNCTION update_updated_at_column();"
  ++ nl ++ "      ".

(** The statements of [createTable], in the order it sends them. *)
Definition createTable_statements (tableName : string) (fields : list FieldDefinition)
    : list string :=
  (create_table_sql tableName fields
   :: map (fun field => unique_index_sql tableName (fd_name field))
        (List.filter (fun field => or_false (fd_isUnique field)) fields)
   ++ [trigger_function_sql; trigger_sql tableName])%list.

(** [await client.query(text)] for each statement in turn; the first one
    that throws ends the run. *)
Fixpoint run_statements (statements : list string) : M unit :=
  match statements with
  | [] => ret tt
  | text :: rest => query text [] ;;; run_statements rest
  end.

Definition createTable (tableName : string) (fields : list FieldDefinition) : M unit :=
  connect ;;;
  try_finally_release (run_statements (createTable_statements tableName fields)).

Definition dropTable (tableName : string) : M unit :=
  connect ;;;
  try_finally_release
    (run_statements ["DROP TABLE IF EXISTS " ++ quoted tableName ++ " CASCADE"]).

Definition findUnique (name : string) (inc : Include) : M (option ResourceRow) :=
  prisma_read (fun c => option_map (included inc) (find_resource name c)).

Definition success_with (d : ResponseData) (msg : option string) : ApiResponse :=
  mkResponse true (Some d) None msg.

Definition caught (err : string) (e : Thrown) : ApiResponse :=
  failure err (error_message e).

Definition not_found (name : string) : ApiResponse :=
  failure "Resource not found" ("Resource '" ++ name ++ "' not found").

Definition createResource (definition : ResourceDefinition) : M ApiResponse :=
  try_catch
    (let tableName := generateTableName (rd_name definition) in
     existingResource <- findUnique (rd_name definition) NoFields ;;
     match existingResource with
     | Some _ =>
         ret (failure "Resource already exists"
                ("Resource '" ++ rd_name definition ++ "' already exists"))
     | None =>
         result <- transaction
           (resource <- prisma_write
              (resource_create (rd_name definition)
                 (or_null (rd_displayName definition))
                 (or_null (rd_description definition))
                 tableName
                 (map (fun '(index, field) => field_data index field)
                      (indexed_from 0 (rd_fields definition)))) ;;
            createTable tableName (rd_fields definition) ;;;
            ret resource) ;;
         ret (success_with (DataResource result)
                (Some ("Resource '" ++ rd_name definition ++ "' created successfully")))
     end)
    (caught "Failed to create resource").

Definition getAllResources : M ApiResponse :=
  try_catch
    (rs <- prisma_read (fun c => map with_ordered_fields (resources c)) ;;
     ret (success_with (DataResources rs) None))
    (caught "Failed to fetch resources").

Definition getResource (name : string) : M ApiResponse :=
  try_catch
    (resource <- findUnique name FieldsByOrder ;;
     match resource with
     | None => ret (not_found name)
     | Some r => ret (success_with (DataResource r) None)
     end)
    (caught "Failed to fetch resource").

(** [updateFields]: the catalog side of a declaration change. *)
Fixpoint delete_missing_fields (existingFields : list FieldRow)
    (newFields : list FieldDefinition) : M unit :=
  match existingFields with
  | [] => ret tt
  | existingField :: rest =>
      (if map_has fd_name newFields (f_name existingField)
       then ret tt
       else prisma_write (field_delete (f_id existingField))) ;;;
      delete_missing_fields rest newFields
  end.

Fixpoint upsert_fields (resourceId : nat) (existingFields : list FieldRow)
    (newFields : list (nat * FieldDefinition)) : M unit :=
  match newFields with
  | [] => ret tt
  | (i, newField) :: rest =>
      match map_get f_name existingFields (fd_name newField) with
      | Some existingField =>
          prisma_write (field_update (f_id existingField) (field_data i newField))
      | None =>
          prisma_write (field_create resourceId (field_data i newField))
      end ;;;
      upsert_fields resourceId existingFields rest
  end.

Definition updateFields (existingResource : ResourceRow)
    (newFields : list FieldDefinition) : M unit :=
  delete_missing_fields (r_fields existingResource) newFields ;;;
  upsert_fields (r_id existingResource) (r_fields existingResource)
    (indexed_from 0 newFields).

(** [updateTableSchema]: the statements for one field of the new
    declaration, against the stored fields. *)
Definition schema_statements_for (tableName : string) (existingFields : list FieldRow)
    (newField : FieldDefinition) : list string :=
  match map_get f_name existingFields (fd_name newField) with
  | None =>
      ("ALTER TABLE " ++ quoted tableName ++ " ADD COLUMN "
       ++ columnDef newField ++ default_clause newField)
      :: (if or_false (fd_isUnique newField)
          then [unique_index_sql tableName (fd_name newField)]
          else [])
  | Some existingField =>
      if negb (FieldType_eqb (f_type existingField) (fd_type newField))
         || negb (Bool.eqb (f_isRequired existingField) (or_false (fd_isRequired newField)))
         || negb (Bool.eqb (f_isUnique existingField) (or_false (fd_isUnique newField)))
      then
        ("ALTER TABLE " ++ quoted tableName ++ " ALTER COLUMN " ++ columnDef newField)
        :: (if f_isUnique existingField && negb (or_false (fd_isUnique newField))
            then ["DROP INDEX IF EXISTS " ++ dq ++ tableName ++ "_" ++ fd_name newField
                  ++ "_unique" ++ dq]
            else if negb (f_isUnique existingField) && or_false (fd_isUnique newField)
            then [unique_index_sql tableName (fd_name newField)]
            else [])
      else []
  end.

Definition drop_column_statements (tableName : string) (existingFields : list FieldRow)
    (newFields : list FieldDefinition) : list string :=
  map (fun existingField =>
         "ALTER TABLE " ++ quoted tableName ++ " DROP COLUMN IF EXISTS "
         ++ quoted (f_name existingField))
      (List.filter (fun existingField =>
                      negb (map_has fd_name newFields (f_name existingField)))
                   existingFields).

(** The statements of [updateTableSchema], in the order it sends them. *)
Definition updateTableSchema_statements (tableName : string)
    (existingFields : list FieldRow) (newFields : list FieldDefinition) : list string :=
  (drop_column_statements tableName existingFields newFields
   ++ flat_map (schema_statements_for tableName existingFields) newFields)%list.

Definition updateTableSchema (existingResource : ResourceRow)
    (newFields : list FieldDefinition) : M unit :=
  connect ;;;
  try_finally_release
    (run_statements
       (updateTableSchema_statements (r_tableName existingResource)
          (r_fields existingResource) newFields)).

Definition updateResource (name : string) (definition : ResourceDefinition)
    : M ApiResponse :=
  try_catch
    (existingResource <- findUnique name FieldsByOrder ;;
     match existingResource with
     | None => ret (not_found name)
     | Some existing =>
         result <- transaction
           (prisma_write
              (resource_update name (or_null (rd_displayName definition))
                 (or_null (rd_description definition))) ;;;
            updateFields existing (rd_fields definition) ;;;
            updateTableSchema existing (rd_fields definition) ;;;
            findUnique name FieldsByOrder) ;;
         ret (mkResponse true (option_map DataResource result) None
                (Some ("Resource '" ++ name ++ "' updated successfully")))
     end)
    (caught "Failed to update resource").

Definition deleteResource (name : string) : M ApiResponse :=
  try_catch
    (resource <- findUnique name NoFields ;;
     match resource with
     | None => ret (not_found name)
     | Some r =>
         transaction
           (prisma_write (resource_delete name) ;;;
            dropTable (r_tableName r)) ;;;
         ret (mkResponse true None None
                (Some ("Resource '" ++ name ++ "' deleted successfully")))
     end)
    (caught "Failed to delete resource").

End Service.
End ResourceService.

(* ------------------------------------------------------------------ *)
(** ** [DynamicDataService]: validation and declaration-driven CRUD *)

Module DynamicDataService.
Import Js Types Store Text.
Import ResourceService.
Local Open Scope service_scope.

(** The result of a field check: [{ valid, message? }]. *)
Record Validity : Type := mkValidity {
  valid : bool;
  reason : option string
}.

Definition is_valid : Validity := mkValidity true None.
Definition invalid (msg : string) : Validity := mkValidity false (Some msg).

Definition validation_error (msg : option string) : ApiResponse :=
  mkResponse false None (Some "Validation error") msg.

Definition validation_passed : ApiResponse := mkResponse true None None None.

Section Service.
Context {B : Builtins} {P : Postgres}.

(** [validateFieldType(value, type)]. *)
Definition validateFieldType (value : Json) (type : string) : Validity :=
  match FieldType_of_name type with
  | Some STRING | Some TEXT =>
      if negb (is_string value) then invalid "Must be a string" else is_valid
  | Some INTEGER =>
      if negb (Number_isInteger value) then invalid "Must be an integer" else is_valid
  | Some FLOAT =>
      if negb (is_number value) then invalid "Must be a number" else is_valid
  | Some BOOLEAN =>
      if negb (is_boolean value) then invalid "Must be a boolean" else is_valid
  | Some DATE | Some DATETIME =>
      if Date_parse_isNaN value then invalid "Must be a valid date" else is_valid
  | Some JSON =>
      match value with
      | JStr s => if JSON_parse_throws s then invalid "Must be valid JSON" else is_valid
      | _ => is_valid
      end
  | None => is_valid
  end.

Definition defined_and {A} (rule : option A) (violated : A -> bool) : option A :=
  match rule with
  | Some a => if violated a then Some a else None
  | None => None
  end.

(** [validateFieldRules(value, rules, fieldName)]: the six rules in the
    order of the source, the first violated one answering. *)
Definition validateFieldRules (value : Json) (rules : FieldValidation)
    (fieldName : string) : Validity :=
  match defined_and (v_min rules) (lt_number (Some value)) with
  | Some m =>
      invalid ("Field '" ++ fieldName ++ "' must be at least " ++ Number_toString m)
  | None =>
  match defined_and (v_max rules) (gt_number (Some value)) with
  | Some m =>
      invalid ("Field '" ++ fieldName ++ "' must be at most " ++ Number_toString m)
  | None =>
  match defined_and (v_minLength rules) (lt_number (length_of value)) with
  | Some m =>
      invalid ("Field '" ++ fieldName ++ "' must be at least " ++ Number_toString m
               ++ " characters")
  | None =>
  match defined_and (v_maxLength rules) (gt_number (length_of value)) with
  | Some m =>
      invalid ("Field '" ++ fieldName ++ "' must be at most " ++ Number_toString m
               ++ " characters")
  | None =>
  match defined_and (v_pattern rules) (fun p => negb (RegExp.test p (ToString value))) with
  | Some _ => invalid ("Field '" ++ fieldName ++ "' format is invalid")
  | None =>
  match defined_and (v_enum rules) (fun e => negb (includes e value)) with
  | Some e => invalid ("Field '" ++ fieldName ++ "' must be one of: " ++ join ", " e)
  | None => is_valid
  end end end end end end.

(** The body of the loop of [validateData] for one field: [Some response]
    when it returns from the function, [None] when the loop goes on. *)
Definition validate_field (data : JsObject) (field : FieldRow) (isUpdate : bool)
    : option ApiResponse :=
  let value := read data (f_name field) in
  if negb isUpdate && f_isRequired field && nullish value
  then Some (validation_error (Some ("Field '" ++ f_name field ++ "' is required")))
  else
    match value with
    | None => None
    | Some JNull => None
    | Some v =>
        let typeValidation := validateFieldType v (FieldType_name (f_type field)) in
        if negb (valid typeValidation)
        then Some (validation_error
                     (Some ("Field '" ++ f_name field ++ "': "
                            ++ match reason typeValidation with
                               | Some m => m
                               | None => "undefined"
                               end)))
        else
          match f_validation field with
          | Some validationRules =>
              let validationResult := validateFieldRules v validationRules (f_name field) in
              if negb (valid validationResult)
              then Some (validation_error (reason validationResult))
              else None
          | None => None
          end
    end.

(** [validateData(data, fields, isUpdate = false)]. *)
Fixpoint validateData (data : JsObject) (fields : list FieldRow) (isUpdate : bool)
    : ApiResponse :=
  match fields with
  | [] => validation_passed
  | field :: rest =>
      match validate_field data field isUpdate with
      | Some response => response
      | None => validateData data rest isUpdate
      end
  end.

(** A statement as [client.query] receives it: the text and the values
    bound to its placeholders. *)
Record Query : Type := mkQuery {
  text : string;
  values : list Json
}.

Definition placeholder (n : nat) : string := "$" ++ nat_to_string n.

Definition send (q : Query) : M (list Row) := query (text q) (values q).

Definition createData_query (tableName : string) (data : JsObject) : Query :=
  let columns := Object_keys data in
  let vals := Object_values data in
  let placeholders := map (fun '(index, _) => placeholder (index + 1)) (indexed_from 0 vals) in
  mkQuery
    (nl ++ "          INSERT INTO " ++ quoted tableName
     ++ " (" ++ join ", " (map quoted columns) ++ ")"
     ++ nl ++ "          VALUES (" ++ join ", " placeholders ++ ")"
     ++ nl ++ "          RETURNING *"
     ++ nl ++ "        ")
    vals.

Definition data_not_found (id : Z) : ApiResponse :=
  failure "Data not found" ("Data with id " ++ Z_to_string id ++ " not found").

Definition createData (resourceName : string) (data : JsObject) : M ApiResponse :=
  try_catch
    (resource <- findUnique resourceName Fields ;;
     match resource with
     | None => ret (not_found resourceName)
     | Some r =>
         let validationResult := validateData data (r_fields r) false in
         if negb (success validationResult) then ret validationResult
         else
           connect ;;;
           try_finally_release
             (rows <- send (createData_query (r_tableName r) data) ;;
              ret (mkResponse true (option_map DataRow (hd_error rows)) None
                     (Some "Data created successfully")))
     end)
    (caught "Failed to create data").

(** The [WHERE] clause both queries of [getData] build from the filter. *)
Definition where_clause (filter : option JsObject) : string :=
  match filter with
  | Some ((_ :: _) as f) =>
      " WHERE "
      ++ join " AND "
           (map (fun '(index, key) => quoted key ++ " = " ++ placeholder (index + 1))
                (indexed_from 0 (Object_keys f)))
  | _ => EmptyString
  end.

Definition filter_values (filter : option JsObject) : list Json :=
  match filter with
  | Some f => Object_values f
  | None => []
  end.

Definition order_keyword (o : option SortOrder) : string :=
  match o with
  | Some desc => "DESC"
  | _ => "ASC"
  end.

Definition order_clause (options : QueryOptions) : string :=
  match sort options with
  | Some column =>
      if String.eqb column EmptyString then " ORDER BY created_at DESC"
      else " ORDER BY " ++ quoted column ++ " " ++ order_keyword (order options)
  | None => " ORDER BY created_at DESC"
  end.

(** [option || fallback] on an optional number. *)
Definition or_default (n : option Z) (fallback : Z) : Z :=
  match n with
  | Some z => if Z.eqb z 0 then fallback else z
  | None => fallback
  end.

Definition page_limit (options : QueryOptions) : Z := or_default (limit options) 50.
Definition page_number (options : QueryOptions) : Z := or_default (page options) 1.
Definition page_offset (options : QueryOptions) : Z :=
  ((page_number options - 1) * page_limit options)%Z.

Definition getData_query (tableName : string) (options : QueryOptions) : Query :=
  let paramCount := List.length (filter_values (filter options)) in
  mkQuery
    ("SELECT * FROM " ++ quoted tableName
     ++ where_clause (filter options)
     ++ order_clause options
     ++ " LIMIT " ++ placeholder (paramCount + 1)
     ++ " OFFSET " ++ placeholder (paramCount + 2))
    (filter_values (filter options)
     ++ [JInt (page_limit options); JInt (page_offset options)])%list.

Definition getData_countQuery (tableName : string) (options : QueryOptions) : Query :=
  mkQuery
    ("SELECT COUNT(*) as total FROM " ++ quoted tableName
     ++ where_clause (filter options))
    (filter_values (filter options)).

(** [Math.ceil(total / limit)] on integers, for a limit that is not zero. *)
Definition ceil_div (total limit : Z) : Z := (- ((- total) / limit))%Z.

Definition getData (resourceName : string) (options : QueryOptions) : M ApiResponse :=
  try_catch
    (resource <- findUnique resourceName NoFields ;;
     match resource with
     | None => ret (not_found resourceName)
     | Some r =>
         connect ;;;
         try_finally_release
           (rows <- send (getData_query (r_tableName r) options) ;;
            countRows <- send (getData_countQuery (r_tableName r) options) ;;
            match countRows with
            | [] =>
                throw (JsError
                  "Cannot read properties of undefined (reading 'total')")
            | first :: _ =>
                let total := parseInt (get first "total") in
                ret (success_with
                       (DataPage rows
                          (mkPagination (page_number options) (page_limit options) total
                             (option_map (fun t => ceil_div t (page_limit options)) total)))
                       None)
            end)
     end)
    (caught "Failed to fetch data").

Definition getDataById_query (tableName : string) (id : Z) : Query :=
  mkQuery ("SELECT * FROM " ++ quoted tableName ++ " WHERE id = $1") [JInt id].

Definition getDataById (resourceName : string) (id : Z) : M ApiResponse :=
  try_catch
    (resource <- findUnique resourceName NoFields ;;
     match resource with
     | None => ret (not_found resourceName)
     | Some r =>
         connect ;;;
         try_finally_release
           (rows <- send (getDataById_query (r_tableName r) id) ;;
            match rows with
            | [] => ret (data_not_found id)
            | row :: _ => ret (success_with (DataRow row) None)
            end)
     end)
    (caught "Failed to fetch data").

Definition updateData_query (tableName : string) (id : Z) (data : JsObject) : Query :=
  let columns := Object_keys data in
  let vals := Object_values data in
  let setClause :=
    map (fun '(index, col) => quoted col ++ " = " ++ placeholder (index + 1))
        (indexed_from 0 columns) in
  mkQuery
    (nl ++ "          UPDATE " ++ quoted tableName ++ " "
     ++ nl ++ "          SET " ++ join ", " setClause
     ++ nl ++ "          WHERE id = " ++ placeholder (List.length columns + 1)
     ++ nl ++ "          RETURNING *"
     ++ nl ++ "        ")
    (vals ++ [JInt id])%list.

Definition updateData (resourceName : string) (id : Z) (data : JsObject)
    : M ApiResponse :=
  try_catch
    (resource <- findUnique resourceName Fields ;;
     match resource with
     | None => ret (not_found resourceName)
     | Some r =>
         let validationResult := validateData data (r_fields r) true in
         if negb (success validationResult) then ret validationResult
         else
           connect ;;;
           try_finally_release
             (rows <- send (updateData_query (r_tableName r) id data) ;;
              match rows with
              | [] => ret (data_not_found id)
              | row :: _ =>
                  ret (success_with (DataRow row) (Some "Data updated successfully"))
              end)
     end)
    (caught "Failed to update data").

Definition deleteData_query (tableName : string) (id : Z) : Query :=
  mkQuery ("DELETE FROM " ++ quoted tableName ++ " WHERE id = $1 RETURNING *") [JInt id].

Definition deleteData (resourceName : string) (id : Z) : M ApiResponse :=
  try_catch
    (resource <- findUnique resourceName NoFields ;;
     match resource with
     | None => ret (not_found resourceName)
     | Some r =>
         connect ;;;
         try_finally_release
           (rows <- send (deleteData_query (r_tableName r) id) ;;
            match rows with
            | [] => ret (data_not_found id)
            | row :: _ =>
                ret (success_with (DataRow row) (Some "Data deleted successfully"))
            end)
     end)
    (caught "Failed to delete data").

End Service.
End DynamicDataService.

(* ------------------------------------------------------------------ *)
(** ** Stand-ins for the run time and the server, for worked examples *)

Module Examples.
Import Js Types Store Text.

Definition Q_to_string (q : Q) : string :=
  if Pos.eqb (Qden (Qred q)) 1 then Z_to_string (Qnum (Qred q))
  else Z_to_string (Qnum (Qred q)) ++ "/" ++ Z_to_string (Zpos (Qden (Qred q))).

Definition is_digit (c : ascii) : bool :=
  Nat.leb 48 (nat_of_ascii c) && Nat.leb (nat_of_ascii c) 57.

Fixpoint digits_value (acc : Z) (s : string) : option Z :=
  match s with
  | EmptyString => Some acc
  | String c rest =>
      if is_digit c
      then digits_value (acc * 10 + Z.of_nat (nat_of_ascii c - 48))%Z rest
      else None
  end.

(** A decimal integer, with an optional minus sign. *)
Definition decimal_value (s : string) : option Z :=
  match s with
  | EmptyString => None
  | String "-"%char (String c rest) => option_map Z.opp (digits_value 0 (String c rest))
  | _ => digits_value 0 s
  end.

(** Ten characters of the shape of an ISO calendar date. *)
Definition iso_date_shape (s : string) : bool :=
  match list_ascii_of_string s with
  | [y1; y2; y3; y4; d1; m1; m2; d2; a1; a2] =>
      forallb is_digit [y1; y2; y3; y4; m1; m2; a1; a2]
      && Ascii.eqb d1 "-"%char && Ascii.eqb d2 "-"%char
  | _ => false
  end.

Fixpoint stringify (v : Json) : string :=
  match v with
  | JNull => "null"
  | JBool true => "true"
  | JBool false => "false"
  | JNum q => Q_to_string q
  | JStr s => dq ++ s ++ dq
  | JArr items => "[" ++ join "," (map stringify items) ++ "]"
  | JObj members =>
      "{" ++ join "," (map (fun m => dq ++ fst m ++ dq ++ ":" ++ stringify (snd m)) members)
      ++ "}"
  | JNative _ _ => "null"
  end.

Definition structured_text (v : Json) : string :=
  match v with
  | JArr _ => stringify v
  | JNative name _ => "function " ++ name ++ "() { [native code] }"
  | _ => "[object Object]"
  end.

(** Integers print and parse in decimal, dates are ISO calendar dates, JSON
    text is a literal or a decimal integer.  Enough to run the examples
    below; what it answers elsewhere, no example relies on. *)
Definition exampleBuiltins : Builtins := {|
  Number_toString := Q_to_string;
  StringToNumber := fun s =>
    if String.eqb s EmptyString then Some (inject_Z 0)
    else option_map inject_Z (decimal_value s);
  Structured_toString := structured_text;
  Date_parse_isNaN := fun v =>
    match v with
    | JStr s => negb (iso_date_shape s)
    | _ => true
    end;
  JSON_parse_throws := fun s =>
    match decimal_value s with
    | Some _ => false
    | None => negb (existsb (String.eqb s) ["null"; "true"; "false"])
    end;
  JSON_stringify := stringify;
  parseInt := fun v =>
    match v with
    | Some (JStr s) => decimal_value s
    | Some (JNum q) => if Pos.eqb (Qden (Qred q)) 1 then Some (Qnum (Qred q)) else None
    | _ => None
    end
|}.

Definition prisma_unique (target : string) : Thrown :=
  JsError ("Unique constraint failed on the fields: (" ++ target ++ ")").

(** A server that holds the rows of one table and serves them read-only:
    a count, or the slice that [LIMIT] and [OFFSET] (the last two values)
    cut out of the rows in their stored order. *)
Definition slice (rows : list Row) (vals : list Json) : list Row :=
  match rev vals with
  | JNum offset :: JNum lim :: _ =>
      firstn (Z.to_nat (Qnum lim)) (skipn (Z.to_nat (Qnum offset)) rows)
  | _ => rows
  end.

Definition tableServer : Postgres := {|
  Server := list Row;
  prisma_call := fun s => (s, None);
  pool_connect := fun s => (s, None);
  client_query := fun text vals s =>
    if String.prefix "SELECT COUNT(*)" text
    then (s, inr [[("total", JStr (nat_to_string (List.length s)))]])
    else if String.prefix "SELECT * FROM" text
    then (s, inr (slice s vals))
    else (s, inr []);
  client_release := fun s => s;
  unique_violation := prisma_unique;
  record_not_found := JsError "Record to update not found.";
  foreign_key_violation := JsError "Foreign key constraint failed"
|}.

(** A server that records every statement it receives and throws on the
    ones its script refuses: each entry is the start of a statement text and
    the message of the error. *)
Record Scripted : Type := mkScripted {
  refused : list (string * string);
  received : list (string * list Json)
}.

Definition refusal (script : list (string * string)) (text : string) : option string :=
  option_map snd (find (fun entry => String.prefix (fst entry) text) script).

Definition scriptedServer : Postgres := {|
  Server := Scripted;
  prisma_call := fun s => (s, None);
  pool_connect := fun s => (s, None);
  client_query := fun text vals s =>
    let s' := mkScripted (refused s) (received s ++ [(text, vals)])%list in
    match refusal (refused s) text with
    | Some msg => (s', inl (JsError msg))
    | None => (s', inr [])
    end;
  client_release := fun s => s;
  unique_violation := prisma_unique;
  record_not_found := JsError "Record to update not found.";
  foreign_key_violation := JsError "Foreign key constraint failed"
|}.

(** The declaration of the scenario: [book] with a required title and a
    page count. *)
Definition titleField : FieldDefinition :=
  mkFieldDef "title" None STRING (Some true) (Some false) None None.

Definition pagesField : FieldDefinition :=
  mkFieldDef "pages" None INTEGER (Some false) (Some false) None None.

(** The page count made required: the change of declaration that alters a
    column in place. *)
Definition requiredPagesField : FieldDefinition :=
  mkFieldDef "pages" None INTEGER (Some true) (Some false) None None.

Definition bookDefinition : ResourceDefinition :=
  mkResourceDef "book" None None [titleField; pagesField].

Definition bookRow : ResourceRow :=
  mkResourceRow 0 "book" None None "dyn_book"
    [mkFieldRow 1 "title" None STRING true false None None 0;
     mkFieldRow 2 "pages" None INTEGER false false None None 1].

Definition bookCatalog : Catalog := mkCatalog [bookRow] 3.

Definition bookRecord (id : Z) (title : string) : Row :=
  [("id", JInt id); ("title", JStr title)].

Definition threeBooks : list Row :=
  [bookRecord 1 "Dune"; bookRecord 2 "Emma"; bookRecord 3 "Ulysses"].

(** The scripted server of a table whose [title] column is NOT NULL: it
    refuses the [UPDATE] that would store a null there. *)
Definition strictBooks : Scripted :=
  mkScripted
    [(nl ++ "          UPDATE",
      "null value in column title of relation dyn_book violates not-null constraint")]
    [].

(** The scripted server that loses its connection on an [INSERT]. *)
Definition flaky : Scripted :=
  mkScripted [(nl ++ "          INSERT", "connection terminated")] [].

(** The scripted server on which the table of the scenario already exists. *)
Definition occupied : Scripted :=
  mkScripted [("CREATE TABLE", "relation dyn_book already exists")] [].

Definition scriptedWorld (c : Catalog) (s : Scripted) : World (P := scriptedServer) :=
  mkWorld (P := scriptedServer) c s.

Definition tableWorld (c : Catalog) (rows : list Row) : World (P := tableServer) :=
  mkWorld (P := tableServer) c rows.

(** A list request that sorts and filters by names the declaration does not
    have, and a payload with such a key. *)
Definition strayOptions : QueryOptions :=
  mkOptions None None (Some "nope") None (Some [("x", JStr "v")]).

Definition strayPayload : JsObject := [("title", JStr "Dune"); ("oops", JInt 3)].

(** Fields that carry the name of a property every object inherits: a
    required [constructor: JSON] beside an optional [note: STRING], and an
    optional [toString: STRING] beside the required title. *)
Definition constructorField : FieldRow :=
  mkFieldRow 1 "constructor" None JSON true false None None 0.

Definition noteField : FieldRow :=
  mkFieldRow 2 "note" None STRING false false None None 1.

Definition toStringField : FieldRow :=
  mkFieldRow 1 "toString" None STRING false false None None 0.

Definition requiredTitle : FieldRow :=
  mkFieldRow 2 "title" None STRING true false None None 1.

(** The field [age: INTEGER] with [min = 0]. *)
Definition ageField : FieldRow :=
  mkFieldRow 1 "age" None INTEGER false false None
    (Some (mkValidation (Some (inject_Z 0)) None None None None None)) 0.

(** A field whose only rule is the pattern [b], without anchors. *)
Definition codeRules : FieldValidation :=
  mkValidation None None None None (Some (RegExp.unanchored (RegExp.Chr "b"))) None.

Definition codeField : FieldRow :=
  mkFieldRow 1 "code" None STRING false false None (Some codeRules) 0.

End Examples.

(* ------------------------------------------------------------------ *)
(** ** Vocabulary of the properties *)

Module Vocabulary.
Import Js Types Store Text ResourceService DynamicDataService.

(** The same field with its [isRequired] flag cleared. *)
Definition as_optional (f : FieldRow) : FieldRow :=
  mkFieldRow (f_id f) (f_name f) (f_displayName f) (f_type f) false (f_isUnique f)
    (f_defaultValue f) (f_validation f) (f_order f).

(** The same field with other validation rules. *)
Definition with_rules (rules : option FieldValidation) (f : FieldRow) : FieldRow :=
  mkFieldRow (f_id f) (f_name f) (f_displayName f) (f_type f) (f_isRequired f)
    (f_isUnique f) (f_defaultValue f) rules (f_order f).

(** The payload supplies a value for the field: neither absent nor null. *)
Definition supplied (data : JsObject) (f : FieldRow) : bool :=
  negb (nullish (get data (f_name f))).

Definition required_error (f : FieldRow) : ApiResponse :=
  validation_error (Some ("Field '" ++ f_name f ++ "' is required")).

(** The name of the field is its own: no property of [Object.prototype]
    is called like it. *)
Definition own_named (f : FieldRow) : bool :=
  match Object_prototype (f_name f) with
  | Some _ => false
  | None => true
  end.

(** Rules that set a pattern and nothing else. *)
Definition pattern_rules (p : RegExp.Pattern) : FieldValidation :=
  mkValidation None None None None (Some p) None.

(** What the type check says against the value of a field. *)
Definition type_failure (f : FieldRow) (reported : string) : ApiResponse :=
  validation_error (Some ("Field '" ++ f_name f ++ "': " ++ reported)).

Definition format_failure (f : FieldRow) : ApiResponse :=
  validation_error (Some ("Field '" ++ f_name f ++ "' format is invalid")).

(** The same options with another [limit], another [page]. *)
Definition with_limit (l : option Z) (o : QueryOptions) : QueryOptions :=
  mkOptions (page o) l (sort o) (order o) (filter o).

Definition with_page (p : option Z) (o : QueryOptions) : QueryOptions :=
  mkOptions p (limit o) (sort o) (order o) (filter o).

(** The request [base] asked for page [p] with limit [l]. *)
Definition paged (base : QueryOptions) (p l : option Z) : QueryOptions :=
  mkOptions p l (sort base) (order base) (filter base).

(** Two option objects that agree on everything a statement text can show:
    the filter keys, the sort column and the direction. *)
Definition same_identifiers (o o' : QueryOptions) : Prop :=
  option_map Object_keys (filter o) = option_map Object_keys (filter o')
  /\ sort o = sort o' /\ order o = order o'.

(** The two statements a list request is to send, written out: the page
    statement selects the rows of the table that have the value of each
    filter entry in the column of its key, in the requested order, and binds
    the filter values, then the limit and the offset; the count statement
    counts the rows under the same condition and binds the filter values
    alone. *)
Definition sql_name (identifier : string) : string := dq ++ identifier ++ dq.

Definition sql_parameter (n : nat) : string := "$" ++ nat_to_string n.

Fixpoint sql_conditions (n : nat) (keys : list string) : list string :=
  match keys with
  | [] => []
  | key :: rest =>
      (sql_name key ++ " = " ++ sql_parameter n) :: sql_conditions (S n) rest
  end.

Definition sql_where (entries : JsObject) : string :=
  match entries with
  | [] => EmptyString
  | _ :: _ => " WHERE " ++ join " AND " (sql_conditions 1 (map fst entries))
  end.

Definition filter_entries (o : QueryOptions) : JsObject :=
  match filter o with
  | Some entries => entries
  | None => []
  end.

Definition sql_order (o : QueryOptions) : string :=
  match sort o with
  | Some column =>
      if String.eqb column EmptyString then " ORDER BY created_at DESC"
      else " ORDER BY " ++ sql_name column
           ++ match order o with
              | Some desc => " DESC"
              | _ => " ASC"
              end
  | None => " ORDER BY created_at DESC"
  end.

Definition page_statement (tableName : string) (o : QueryOptions) (lim off : Z) : Query :=
  mkQuery
    ("SELECT * FROM " ++ sql_name tableName ++ sql_where (filter_entries o)
     ++ sql_order o
     ++ " LIMIT " ++ sql_parameter (List.length (filter_entries o) + 1)
     ++ " OFFSET " ++ sql_parameter (List.length (filter_entries o) + 2))
    (map snd (filter_entries o) ++ [JInt lim; JInt off])%list.

Definition count_statement (tableName : string) (o : QueryOptions) : Query :=
  mkQuery
    ("SELECT COUNT(*) as total FROM " ++ sql_name tableName
     ++ sql_where (filter_entries o))
    (map snd (filter_entries o)).

(** The items of a list response; none when the call did not answer with a
    page. *)
Definition items_of {W : Type} (outcome : W * (Thrown + ApiResponse)) : list Row :=
  match snd outcome with
  | inr (mkResponse true (Some (DataPage items _)) _ _) => items
  | _ => []
  end.

Definition row_id (r : Row) : option Json := get r "id".

(** The page numbers [1 .. n]. *)
Definition page_numbers (n : nat) : list Z := map Z.of_nat (seq 1 n).

(** The words PostgreSQL accepts after [ALTER COLUMN name]: each action of
    its grammar starts with one of them. *)
Definition alter_column_actions : list string :=
  ["TYPE"; "SET"; "DROP"; "ADD"; "RESET"; "RESTART"; "OPTIONS"].

(** The text [updateTableSchema] writes after the quoted column name when
    it alters a column. *)
Definition alter_action (field : FieldDefinition) : string :=
  SQL_TYPE_MAPPING (fd_type field)
  ++ (if or_false (fd_isRequired field) then " NOT NULL" else EmptyString).

(** The stored field and the declared one differ in type, in [required] or
    in [unique]. *)
Definition changed (existing : FieldRow) (newField : FieldDefinition) : bool :=
  negb (FieldType_eqb (f_type existing) (fd_type newField))
  || negb (Bool.eqb (f_isRequired existing) (or_false (fd_isRequired newField)))
  || negb (Bool.eqb (f_isUnique existing) (or_false (fd_isUnique newField))).

Section Calls.
Context {B : Builtins} {P : Postgres}.

(** The catalog write of [createResource]. *)
Definition metadata_write (definition : ResourceDefinition)
    : Catalog -> Thrown + (Catalog * ResourceRow) :=
  resource_create (rd_name definition)
    (or_null (rd_displayName definition))
    (or_null (rd_description definition))
    (generateTableName (rd_name definition))
    (map (fun '(index, field) => field_data index field)
         (indexed_from 0 (rd_fields definition))).

(** The ten operations of the two services, each with the [error] its
    [catch] block answers. *)
Definition service_calls (definition : ResourceDefinition) (name : string) (id : Z)
    (data : JsObject) (options : QueryOptions) : list (M ApiResponse * string) :=
  [(createResource definition, "Failed to create resource");
   (getAllResources, "Failed to fetch resources");
   (getResource name, "Failed to fetch resource");
   (updateResource name definition, "Failed to update resource");
   (deleteResource name, "Failed to delete resource");
   (createData name data, "Failed to create data");
   (getData name options, "Failed to fetch data");
   (getDataById name id, "Failed to fetch data");
   (updateData name id data, "Failed to update data");
   (deleteData name id, "Failed to delete data")].

(** The call never rejects: it resolves to a response. *)
Definition resolves (call : M ApiResponse) : Prop :=
  forall w, exists w' response, call w = (w', inr response).

(** When the Prisma engine throws on the first round trip of the call, the
    response is the failure of the call with the message of the error. *)
Definition reports_engine_failure (call : M ApiResponse) (label : string) : Prop :=
  forall w s' e,
    prisma_call (server w) = (s', Some e) ->
    call w = (mkWorld (catalog w) s', inr (failure label (error_message e))).

(** When the resource exists and the payload is accepted, but no client
    can be had from the pool, the response is the failure of the call with
    the message of the error. *)
Definition reports_pool_failure (call : M ApiResponse) (label name : string)
    (accepted : ResourceRow -> bool) : Prop :=
  forall w r s1 s2 e,
    prisma_call (server w) = (s1, None) ->
    find_resource name (catalog w) = Some r ->
    accepted r = true ->
    pool_connect s1 = (s2, Some e) ->
    call w = (mkWorld (catalog w) s2, inr (failure label (error_message e))).

(** The same when the server throws on the statement of the call; the
    client is released all the same. *)
Definition reports_statement_failure (call : M ApiResponse) (label name : string)
    (accepted : ResourceRow -> bool) (statement : ResourceRow -> Query) : Prop :=
  forall w r s1 s2 s3 e,
    prisma_call (server w) = (s1, None) ->
    find_resource name (catalog w) = Some r ->
    accepted r = true ->
    pool_connect s1 = (s2, None) ->
    client_query (text (statement r)) (values (statement r)) s2 = (s3, inl e) ->
    call w = (mkWorld (catalog w) (client_release s3),
              inr (failure label (error_message e))).

End Calls.

End Vocabulary.

(* ------------------------------------------------------------------ *)
(** ** Proof steps shared by the service lemmas *)

Module Steps.
Import Js Types Store Text ResourceService DynamicDataService.

(** Unfold a data operation down to the calls it makes on the server. *)
Ltac run_service :=
  unfold try_catch, bind, findUnique, prisma_read, bind, connect, gate,
    try_finally_release, send, query, on_server; simpl.

(** The same for a catalog operation, with its transaction. *)
Ltac run_catalog :=
  unfold try_catch, bind, findUnique, prisma_read, prisma_write, transaction, bind,
    gate, on_server; simpl.

(** A data operation whose pool gives no client. *)
Ltac pool_failure :=
  intros w r s1 s2 e Hprisma Hfound Haccepted Hconnect;
  run_service;
  rewrite Hprisma; simpl; rewrite Hfound; simpl;
  try rewrite Haccepted; simpl; rewrite Hconnect; reflexivity.

(** A data operation whose statement the server refuses. *)
Ltac statement_failure :=
  intros w r s1 s2 s3 e Hprisma Hfound Haccepted Hconnect Hquery;
  run_service;
  rewrite Hprisma; simpl; rewrite Hfound; simpl;
  try rewrite Haccepted; simpl; rewrite Hconnect; simpl;
  simpl in Hquery; rewrite Hquery; reflexivity.

End Steps.

(* ------------------------------------------------------------------ *)
(** ** Further vocabulary: what a call leaves alone, what a literal reads as *)

Module Further.
Import Js Types Store Text ResourceService DynamicDataService.

Section OnWorlds.
Context {P : Postgres}.

(** The computation never changes the catalog, whether it resolves or
    rejects. *)
Definition keeps_catalog {A} (m : M A) : Prop :=
  forall w, catalog (fst (m w)) = catalog w.

End OnWorlds.

(** The body of a single-quoted SQL literal, read up to its closing quote:
    a doubled quote stands for one quote, and a lone quote ends the literal,
    which must end the text too. *)
Fixpoint read_literal_body (s : string) : option string :=
  match s with
  | EmptyString => None
  | String c rest =>
      if Ascii.eqb c "'"%char then
        match rest with
        | EmptyString => Some EmptyString
        | String d rest' =>
            if Ascii.eqb d "'"%char
            then option_map (String "'"%char) (read_literal_body rest')
            else None
        end
      else option_map (String c) (read_literal_body rest)
  end.

(** The text a single-quoted SQL literal denotes. *)
Definition read_sql_literal (lit : string) : option string :=
  match lit with
  | String c rest => if Ascii.eqb c "'"%char then read_literal_body rest else None
  | EmptyString => None
  end.

(** The catalog without the resource of that name. *)
Definition without (name : string) (c : Catalog) : Catalog :=
  mkCatalog (List.filter (fun r => negb (String.eqb (r_name r) name)) (resources c))
    (nextId c).

(** The declared field asks for the column the stored field has: the same
    name, type, nullability and uniqueness. *)
Definition same_column (stored : FieldRow) (declared : FieldDefinition) : Prop :=
  fd_name declared = f_name stored
  /\ fd_type declared = f_type stored
  /\ or_false (fd_isRequired declared) = f_isRequired stored
  /\ or_false (fd_isUnique declared) = f_isUnique stored.

(** The statements as a server logs them: each with no values. *)
Definition logged (statements : list string) : list (string * list Json) :=
  map (fun text => (text, @nil Json)) statements.

(** The stored field as the declaration that would store it again. *)
Definition redeclared (f : FieldRow) : FieldDefinition :=
  mkFieldDef (f_name f) (f_displayName f) (f_type f) (Some (f_isRequired f))
    (Some (f_isUnique f)) (f_defaultValue f) (f_validation f).

(** The declared field with other display data, default and rules. *)
Definition redecorated (displayName : option string) (defaultValue : option Json)
    (rules : option FieldValidation) (f : FieldDefinition) : FieldDefinition :=
  mkFieldDef (fd_name f) displayName (fd_type f) (fd_isRequired f) (fd_isUnique f)
    defaultValue rules.

(** Rules that bound a number, a length, or list the allowed values, and
    nothing else. *)
Definition range_rules (lo hi : Q) : FieldValidation :=
  mkValidation (Some lo) (Some hi) None None None None.

Definition length_rules (lo hi : Q) : FieldValidation :=
  mkValidation None None (Some lo) (Some hi) None None.

Definition enum_rules (allowed : list string) : FieldValidation :=
  mkValidation None None None None None (Some allowed).

(** The same options with another sort column, direction, filter. *)
Definition with_sort (column : option string) (o : QueryOptions) : QueryOptions :=
  mkOptions (page o) (limit o) column (order o) (filter o).

Definition with_order (direction : option SortOrder) (o : QueryOptions) : QueryOptions :=
  mkOptions (page o) (limit o) (sort o) direction (filter o).

Definition with_filter (entries : option JsObject) (o : QueryOptions) : QueryOptions :=
  mkOptions (page o) (limit o) (sort o) (order o) entries.

(** The length of a string, as the number the bounds are compared with. *)
Definition length_in_Q (s : string) : Q := inject_Z (Z.of_nat (String.length s)).

(** The rules without the two length bounds. *)
Definition without_lengths (rules : FieldValidation) : FieldValidation :=
  mkValidation (v_min rules) (v_max rules) None None (v_pattern rules) (v_enum rules).

End Further.

Module MoreSteps.
Import Js Types Store Text ResourceService DynamicDataService.

(** Unfold the rule checks down to the comparisons they make. *)
Ltac open_rules :=
  cbv beta iota delta
    [validateFieldRules defined_and v_min v_max v_minLength v_maxLength v_pattern
     v_enum lt_number gt_number ToNumber length_of valid invalid is_valid negb includes].

End MoreSteps.

(* ------------------------------------------------------------------ *)
(** ** The request schemas: [middleware/validation.ts] *)

Module Schemas.
Import Js Types Store Text ResourceService DynamicDataService.

Definition in_range (lo hi : nat) (c : ascii) : bool :=
  Nat.leb lo (nat_of_ascii c) && Nat.leb (nat_of_ascii c) hi.

(** [[a-zA-Z]], [\d] and [[a-zA-Z0-9_]]. *)
Definition is_letter (c : ascii) : bool := in_range 65 90 c || in_range 97 122 c.
Definition is_digit (c : ascii) : bool := in_range 48 57 c.
Definition is_word (c : ascii) : bool :=
  is_letter c || is_digit c || Ascii.eqb c "_"%char.

Fixpoint all_chars (p : ascii -> bool) (s : string) : bool :=
  match s with
  | EmptyString => true
  | String c rest => p c && all_chars p rest
  end.

(** [/^[a-zA-Z][a-zA-Z0-9_]*$/]. *)
Definition identifier_pattern (s : string) : bool :=
  match s with
  | EmptyString => false
  | String c rest => is_letter c && all_chars is_word rest
  end.

(** [/^\d+$/]. *)
Definition digits_pattern (s : string) : bool :=
  match s with
  | EmptyString => false
  | String _ _ => all_chars is_digit s
  end.

(** [Number] on a string of digits, the number held exactly. *)
Fixpoint digits_number (acc : Z) (s : string) : Z :=
  match s with
  | EmptyString => acc
  | String c rest => digits_number (acc * 10 + Z.of_nat (nat_of_ascii c - 48))%Z rest
  end.

(** [z.string().min(1).max(50).regex(...)], the schema of a resource name
    and of a field name. *)
Definition name_schema (s : string) : bool :=
  Nat.leb 1 (String.length s) && Nat.leb (String.length s) 50 && identifier_pattern s.

(** [z.string().max(n).optional()]. *)
Definition optional_text (n : nat) (s : option string) : bool :=
  match s with
  | Some t => Nat.leb (String.length t) n
  | None => true
  end.

Definition field_schema (f : FieldDefinition) : bool :=
  name_schema (fd_name f) && optional_text 100 (fd_displayName f).

(** [z.boolean().default(false)] on the two flags of a field. *)
Definition with_flag_defaults (f : FieldDefinition) : FieldDefinition :=
  mkFieldDef (fd_name f) (fd_displayName f) (fd_type f)
    (Some (or_false (fd_isRequired f))) (Some (or_false (fd_isUnique f)))
    (fd_defaultValue f) (fd_validation f).

(** [resourceDefinitionSchema.parse] on a body that has the shape of a
    declaration: [None] when an issue is raised, the parsed declaration
    otherwise. *)
Definition resourceDefinitionSchema (d : ResourceDefinition) : option ResourceDefinition :=
  if name_schema (rd_name d)
     && optional_text 100 (rd_displayName d)
     && optional_text 500 (rd_description d)
     && forallb field_schema (rd_fields d)
     && Nat.leb 1 (List.length (rd_fields d))
  then Some (mkResourceDef (rd_name d) (rd_displayName d) (rd_description d)
               (map with_flag_defaults (rd_fields d)))
  else None.

(** [z.string().regex(/^\d+$/).transform(Number).optional()]; the outer
    [None] is an issue. *)
Definition optional_digits (v : option Json) : option (option Z) :=
  match v with
  | None => Some None
  | Some (JStr s) => if digits_pattern s then Some (Some (digits_number 0 s)) else None
  | Some _ => None
  end.

(** [z.string().optional()]. *)
Definition optional_string (v : option Json) : option (option string) :=
  match v with
  | None => Some None
  | Some (JStr s) => Some (Some s)
  | Some _ => None
  end.

(** [z.enum(['asc', 'desc']).optional()]. *)
Definition optional_order (v : option Json) : option (option SortOrder) :=
  match v with
  | None => Some None
  | Some (JStr s) =>
      if String.eqb s "asc" then Some (Some asc)
      else if String.eqb s "desc" then Some (Some desc)
      else None
  | Some _ => None
  end.

(** [queryOptionsSchema.parse] on the parsed query string: the four keys
    of the schema are read, every other key is dropped. *)
Definition queryOptionsSchema (query : JsObject) : option QueryOptions :=
  match optional_digits (get query "page"), optional_digits (get query "limit"),
        optional_string (get query "sort"), optional_order (get query "order") with
  | Some p, Some l, Some s, Some o => Some (mkOptions p l s o None)
  | _, _, _, _ => None
  end.

End Schemas.

(* ------------------------------------------------------------------ *)
(** ** The routes: [routes/dynamicApi.ts], [routes/resources.ts], [routes/index.ts] *)

Module Routes.
Import Js Types Store Text ResourceService DynamicDataService Schemas.
Local Open Scope service_scope.

(** [res.status(status).json(body)]. *)
Record HttpResponse : Type := mkHttp {
  status : nat;
  body : ApiResponse
}.

(** The text zod makes of the issues of a refused input. *)
Class IssueTexts : Type := {
  query_issues : JsObject -> string;
  declaration_issues : ResourceDefinition -> string
}.

Definition refuse (err : string) (msg : option string) : HttpResponse :=
  mkHttp 400 (mkResponse false None (Some err) msg).

(** [if (result.success) res.status(ok).json(result) else
    res.status(failed).json(result)]. *)
Definition answer (ok failed : nat) (result : ApiResponse) : HttpResponse :=
  mkHttp (if success result then ok else failed) result.

Definition is_empty (s : string) : bool := String.eqb s EmptyString.

(** [!data || Object.keys(data).length === 0]; a body, when there is one,
    is an object. *)
Definition no_data (data : option JsObject) : bool :=
  match data with
  | Some (_ :: _) => false
  | _ => true
  end.

Definition payload (data : option JsObject) : JsObject :=
  match data with
  | Some d => d
  | None => []
  end.

Section Handlers.
Context {B : Builtins} {P : Postgres} {I : IssueTexts}.

(** [GET /:resource], behind [validateSchema(queryOptionsSchema, 'query')]. *)
Definition list_route (resourceName : string) (query : JsObject) : M HttpResponse :=
  match queryOptionsSchema query with
  | None => ret (refuse "Validation error" (Some (query_issues query)))
  | Some queryOptions =>
      if is_empty resourceName then ret (refuse "Invalid resource name" None)
      else
        result <- getData resourceName queryOptions ;;
        ret (answer 200 404 result)
  end.

(** The checks the three routes with an id share, then the call. *)
Definition with_id (resourceName idParam : string) (call : Z -> M HttpResponse)
    : M HttpResponse :=
  if is_empty resourceName || is_empty idParam
  then ret (refuse "Invalid parameters" None)
  else
    match parseInt (Some (JStr idParam)) with
    | None => ret (refuse "Invalid ID" (Some "ID must be a valid number"))
    | Some id => call id
    end.

(** [GET /:resource/:id]. *)
Definition get_route (resourceName idParam : string) : M HttpResponse :=
  with_id resourceName idParam (fun id =>
    result <- getDataById resourceName id ;;
    ret (answer 200 404 result)).

(** [POST /:resource]. *)
Definition create_route (resourceName : string) (data : option JsObject)
    : M HttpResponse :=
  if is_empty resourceName then ret (refuse "Invalid resource name" None)
  else if no_data data
  then ret (refuse "Invalid data" (Some "Request body cannot be empty"))
  else
    result <- createData resourceName (payload data) ;;
    ret (answer 201 400 result).

(** [PUT /:resource/:id]. *)
Definition update_route (resourceName idParam : string) (data : option JsObject)
    : M HttpResponse :=
  with_id resourceName idParam (fun id =>
    if no_data data
    then ret (refuse "Invalid data" (Some "Request body cannot be empty"))
    else
      result <- updateData resourceName id (payload data) ;;
      ret (answer 200 404 result)).

(** [DELETE /:resource/:id]. *)
Definition delete_route (resourceName idParam : string) : M HttpResponse :=
  with_id resourceName idParam (fun id =>
    result <- deleteData resourceName id ;;
    ret (answer 200 404 result)).

(** [POST /define-resource], behind
    [validateSchema(resourceDefinitionSchema)]. *)
Definition define_route (declaration : ResourceDefinition) : M HttpResponse :=
  match resourceDefinitionSchema declaration with
  | None => ret (refuse "Validation error" (Some (declaration_issues declaration)))
  | Some validated =>
      result <- createResource validated ;;
      ret (answer 201 400 result)
  end.

(** [GET /] of the resource routes. *)
Definition resources_route : M HttpResponse :=
  result <- getAllResources ;;
  ret (answer 200 500 result).

(** [GET /:name]. *)
Definition resource_route (name : string) : M HttpResponse :=
  if is_empty name then ret (refuse "Invalid resource name" None)
  else
    result <- getResource name ;;
    ret (answer 200 404 result).

(** [PUT /:name], behind [validateSchema(resourceDefinitionSchema)]. *)
Definition redefine_route (name : string) (declaration : ResourceDefinition)
    : M HttpResponse :=
  match resourceDefinitionSchema declaration with
  | None => ret (refuse "Validation error" (Some (declaration_issues declaration)))
  | Some validated =>
      if is_empty name then ret (refuse "Invalid resource name" None)
      else
        result <- updateResource name validated ;;
        ret (answer 200 400 result)
  end.

(** [DELETE /:name]. *)
Definition remove_route (name : string) : M HttpResponse :=
  if is_empty name then ret (refuse "Invalid resource name" None)
  else
    result <- deleteResource name ;;
    ret (answer 200 404 result).

End Handlers.

(** *** The routing table *)

Inductive Method : Type := GET | POST | PUT | DELETE.

(** The route a request is handed to. *)
Inductive Route : Type :=
| ApiStatus
| DefineResource
| ListResources
| ReadResource (name : string)
| RedefineResource (name : string)
| RemoveResource (name : string)
| ResourceEndpoints (name : string)
| ListData (resource : string)
| ReadData (resource id : string)
| CreateData (resource : string)
| UpdateData (resource id : string)
| DeleteData (resource id : string)
| NoRoute.

(** A literal path segment matches whatever the case of its letters, as
    the router is created with its default options. *)
Definition segment_is (literal segment : string) : bool :=
  String.eqb (toLowerCase segment) literal.

(** The resource routes, in the order they are registered, on the path
    below their mount point; [None] when none matches. *)
Definition resource_routes (method : Method) (path : list string) : option Route :=
  match method, path with
  | POST, [segment] => if segment_is "define-resource" segment then Some DefineResource else None
  | GET, [] => Some ListResources
  | GET, [name] => Some (ReadResource name)
  | PUT, [name] => Some (RedefineResource name)
  | DELETE, [name] => Some (RemoveResource name)
  | GET, [name; segment] =>
      if segment_is "endpoints" segment then Some (ResourceEndpoints name) else None
  | _, _ => None
  end.

(** The routes of [createDynamicRoutes]. *)
Definition dynamic_routes (method : Method) (path : list string) : option Route :=
  match method, path with
  | GET, [resource] => Some (ListData resource)
  | GET, [resource; id] => Some (ReadData resource id)
  | POST, [resource] => Some (CreateData resource)
  | PUT, [resource; id] => Some (UpdateData resource id)
  | DELETE, [resource; id] => Some (DeleteData resource id)
  | _, _ => None
  end.

Definition or_else (first second : option Route) : option Route :=
  match first with
  | Some r => Some r
  | None => second
  end.

(** The router of [routes/index.ts]: the status page, then the resource
    routes under [/resources], then the dynamic routes; a request that
    matches in none of them goes on to the 404 handler. *)
Definition api_router (method : Method) (path : list string) : Route :=
  match
    or_else
      (match method, path with
       | GET, [] => Some ApiStatus
       | _, _ => None
       end)
      (or_else
         (match path with
          | segment :: below =>
              if segment_is "resources" segment then resource_routes method below
              else None
          | [] => None
          end)
         (dynamic_routes method path))
  with
  | Some r => r
  | None => NoRoute
  end.

End Routes.

(* ------------------------------------------------------------------ *)
(** ** Vocabulary of the statements about a change of declaration *)

Module CatalogShape.
Import Js Types Store Text ResourceService.

(** The row is in the catalog, and no other row has its name or its id:
    what the primary key and the unique index on [name] guarantee. *)
Definition sole_row (r : ResourceRow) (c : Catalog) : Prop :=
  exists pre post,
    resources c = (pre ++ r :: post)%list
    /\ forall x, In x (pre ++ post)%list -> r_name x <> r_name r /\ r_id x <> r_id r.

(** The fields of the row have distinct ids, all generated before now, and
    distinct names: the primary key of [fields] and its unique index on
    ([resourceId], [name]). *)
Definition sound_fields (r : ResourceRow) (c : Catalog) : Prop :=
  NoDup (map f_id (r_fields r))
  /\ NoDup (map f_name (r_fields r))
  /\ forall f, In f (r_fields r) -> f_id f < nextId c.

(** What a stored field holds besides its id. *)
Definition data_of (f : FieldRow) : FieldData :=
  mkFieldData (f_name f) (f_displayName f) (f_type f) (f_isRequired f) (f_isUnique f)
    (f_defaultValue f) (f_validation f) (f_order f).

(** The declared fields as the data the catalog is given for them, each
    with its position in the declaration. *)
Definition declared_data (fields : list FieldDefinition) : list FieldData :=
  map (fun '(i, field) => field_data i field) (indexed_from 0 fields).

(** The stored field after a [field.update] with the data. *)
Definition updated (f : FieldRow) (d : FieldData) : FieldRow :=
  mkFieldRow (f_id f) (f_name f) (d_displayName d) (d_type d) (d_isRequired d)
    (d_isUnique d) (d_defaultValue d) (d_validation d) (d_order d).

Section OnServer.
Context {P : Postgres}.

(** The Prisma engine answers every call. *)
Definition engine_up : Prop := forall s, snd (prisma_call s) = None.

(** The pool has a client for every request. *)
Definition pool_up : Prop := forall s, snd (pool_connect s) = None.

(** The server accepts each of the statements, in whatever state. *)
Definition accepts (statements : list string) : Prop :=
  forall text s, In text statements -> exists rows, snd (client_query text [] s) = inr rows.

End OnServer.

End CatalogShape.

(* ------------------------------------------------------------------ *)
(** ** Vocabulary of the statements about the routes *)

Module RouteVocabulary.
Import Js Types Store Text ResourceService DynamicDataService Schemas Routes.

Section Calls.
Context {B : Builtins} {P : Postgres} {I : IssueTexts}.

(** The ten handlers, each with the status it sends for a success and the
    status it sends for a failure of the service. *)
Definition route_calls (resource idParam name : string) (query : JsObject)
    (data : option JsObject) (declaration : ResourceDefinition)
    : list (M HttpResponse * (nat * nat)) :=
  [(list_route resource query, (200, 404));
   (get_route resource idParam, (200, 404));
   (create_route resource data, (201, 400));
   (update_route resource idParam data, (200, 404));
   (delete_route resource idParam, (200, 404));
   (define_route declaration, (201, 400));
   (resources_route, (200, 500));
   (resource_route name, (200, 404));
   (redefine_route name declaration, (200, 400));
   (remove_route name, (200, 404))].

(** The handler answers 400 with a failure, and the world is as before. *)
Definition refused_unseen (h : M HttpResponse) (w : World) : Prop :=
  exists http, h w = (w, inr http) /\ status http = 400 /\ success (body http) = false.

End Calls.

(** The double quote, as a character. *)
Definition quote_char : ascii := ascii_of_nat 34.

(** A lower-case letter, a digit or the underscore. *)
Definition is_lower_word (c : ascii) : bool :=
  in_range 97 122 c || is_digit c || Ascii.eqb c "_"%char.

End RouteVocabulary.

(* ------------------------------------------------------------------ *)
(** ** More stand-ins, for the worked examples of the later sections *)

Module MoreExamples.
Import Js Types Store Text ResourceService DynamicDataService Examples Schemas Routes.

(** The scripted server that refuses nothing and has received nothing. *)
Definition quiet : Scripted := mkScripted [] [].

(** The scripted server on which the table of the scenario cannot be
    dropped. *)
Definition guarded : Scripted :=
  mkScripted [("DROP TABLE", "must be owner of table dyn_book")] [].

(** The scripted server that refuses every index. *)
Definition indexless : Scripted :=
  mkScripted [("CREATE UNIQUE INDEX", "could not create unique index")] [].

(** [Book], which differs from [book] in case only. *)
Definition upperBookDefinition : ResourceDefinition :=
  mkResourceDef "Book" None None [titleField].

(** A declaration that names [title] twice. *)
Definition twiceTitled : ResourceDefinition :=
  mkResourceDef "note" None None [titleField; titleField].

(** The declaration of the scenario with its fields in the other order and
    a display name on the title. *)
Definition relabelledFields : list FieldDefinition :=
  [pagesField;
   mkFieldDef "title" (Some "Title") STRING (Some true) (Some false)
     (Some (JStr "untitled")) None].

(** A field declared with the default [false]. *)
Definition draftField : FieldDefinition :=
  mkFieldDef "draft" None BOOLEAN None None (Some (JBool false)) None.

(** A new declaration for [book]: an [isbn] comes first, the title stays
    and the page count goes; the name it carries is another one. *)
Definition isbnField : FieldDefinition :=
  mkFieldDef "isbn" None STRING (Some false) (Some true) None None.

Definition revisedBook : ResourceDefinition :=
  mkResourceDef "volume" (Some "Books") None [isbnField; titleField].

(** A query string with a page, a limit and a filter. *)
Definition filteredQuery : JsObject :=
  [("page", JStr "2"); ("limit", JStr "10"); ("filter", JObj [("title", JStr "Dune")])].

(** Issue texts for the examples. *)
Definition exampleIssues : IssueTexts := {|
  query_issues := fun _ => "Invalid";
  declaration_issues := fun _ => "Invalid"
|}.

End MoreExamples.

(* ------------------------------------------------------------------ *)
(** * Properties *)

(** ** Regular expressions: the matcher decides the language *)

Section RegExpFacts.
Import RegExp.
Local Open Scope list_scope.

Lemma nullable_matches (r : Regex) : nullable r = true <-> matches r [].
Proof.
  induction r; simpl; split; intro H; try discriminate; try reflexivity.
  - inversion H.
  - constructor.
  - inversion H.
  - inversion H.
  - apply andb_true_iff in H as [H1 H2].
    change (@nil ascii) with (@nil ascii ++ []).
    constructor; [apply IHr1 | apply IHr2]; assumption.
  - inversion H as [| | | ? ? s1 s2 M1 M2 | | | |]; subst.
    match goal with E : _ ++ _ = [] |- _ => apply app_eq_nil in E as [-> ->] end.
    apply andb_true_iff; split; [apply IHr1 | apply IHr2]; assumption.
  - apply orb_true_iff in H as [H | H];
      [apply m_alt_l, IHr1 | apply m_alt_r, IHr2]; assumption.
  - apply orb_true_iff.
    inversion H; subst; [left; apply IHr1 | right; apply IHr2]; assumption.
  - constructor.
Qed.

Lemma deriv_sound (r : Regex) :
  forall c s, matches (deriv c r) s -> matches r (c :: s).
Proof.
  induction r; simpl; intros c0 s H.
  - inversion H.
  - inversion H.
  - destruct (Ascii.eqb_spec c0 c) as [-> | _]; inversion H; constructor.
  - inversion H; constructor.
  - assert (step : forall t, matches (Seq (deriv c0 r1) r2) t ->
                             matches (Seq r1 r2) (c0 :: t)).
    { intros t Ht.
      inversion Ht as [| | | ? ? s1 s2 M1 M2 | | | |]; subst.
      change (c0 :: s1 ++ s2) with ((c0 :: s1) ++ s2).
      constructor; [apply IHr1 |]; assumption. }
    destruct (nullable r1) eqn:N.
    + inversion H as [| | | | ? ? ? M | ? ? ? M | |]; subst.
      * apply step; assumption.
      * change (c0 :: s) with ([] ++ c0 :: s).
        constructor; [apply nullable_matches; assumption | apply IHr2; assumption].
    + apply step; assumption.
  - inversion H; subst; [apply m_alt_l, IHr1 | apply m_alt_r, IHr2]; assumption.
  - inversion H as [| | | ? ? s1 s2 M1 M2 | | | |]; subst.
    change (c0 :: s1 ++ s2) with ((c0 :: s1) ++ s2).
    constructor; [apply IHr |]; assumption.
Qed.

Lemma deriv_complete (r : Regex) (t : list ascii) :
  matches r t -> forall c s, t = c :: s -> matches (deriv c r) s.
Proof.
  induction 1 as [| d | d | r1 r2 s1 s2 M1 IH1 M2 IH2 | r1 r2 s0 M IH
                  | r1 r2 s0 M IH | r0 | r0 s1 s2 M1 IH1 M2 IH2];
    intros c s E; simpl.
  - discriminate.
  - injection E as -> <-. rewrite Ascii.eqb_refl. constructor.
  - injection E as -> <-. constructor.
  - destruct s1 as [| a s1'].
    + simpl in E. subst s2.
      assert (N : nullable r1 = true) by (apply nullable_matches; assumption).
      rewrite N. apply m_alt_r. apply IH2. reflexivity.
    + simpl in E. injection E as -> <-.
      assert (S1 : matches (Seq (deriv c r1) r2) (s1' ++ s2))
        by (constructor; [apply IH1; reflexivity | assumption]).
      destruct (nullable r1); [apply m_alt_l |]; assumption.
  - apply m_alt_l. apply IH. assumption.
  - apply m_alt_r. apply IH. assumption.
  - discriminate.
  - destruct s1 as [| a s1'].
    + simpl in E. apply (IH2 c s E).
    + simpl in E. injection E as -> <-.
      constructor; [apply IH1; reflexivity | assumption].
Qed.

Lemma full_match_iff (s : list ascii) :
  forall r, full_match r s = true <-> matches r s.
Proof.
  induction s as [| c s IH]; intro r; simpl.
  - apply nullable_matches.
  - rewrite IH. split.
    + apply deriv_sound.
    + intro H. apply (deriv_complete H). reflexivity.
Qed.

Lemma star_any_matches (s : list ascii) : matches (Star AnyChar) s.
Proof.
  induction s as [| c s IH].
  - constructor.
  - change (c :: s) with ([c] ++ s). constructor; [constructor | assumption].
Qed.

Lemma padding_matches (anchored : bool) (s : list ascii) :
  matches (padding anchored) s <-> (anchored = true -> s = []).
Proof.
  destruct anchored; simpl; split; intro H.
  - intros _. inversion H. reflexivity.
  - rewrite H by reflexivity. constructor.
  - discriminate.
  - apply star_any_matches.
Qed.

(** [test] holds exactly when the input splits into a part the pattern body
    matches and two surrounding parts, each empty where the pattern is
    anchored. *)
Lemma test_iff (p : Pattern) (s : string) :
  test p s = true <->
  exists pre mid post,
    list_ascii_of_string s = pre ++ mid ++ post /\
    matches (body p) mid /\
    (anchoredStart p = true -> pre = []) /\
    (anchoredEnd p = true -> post = []).
Proof.
  unfold test. rewrite full_match_iff. split.
  - intro H.
    inversion H as [| | | ? ? pre rest Mpre Mrest | | | |]; subst.
    inversion Mrest as [| | | ? ? mid post Mmid Mpost | | | |]; subst.
    exists pre, mid, post. repeat split; try assumption.
    + apply padding_matches; assumption.
    + apply padding_matches; assumption.
  - intros (pre & mid & post & E & Mmid & Hpre & Hpost).
    rewrite E.
    constructor; [apply padding_matches; assumption |].
    constructor; [assumption | apply padding_matches; assumption].
Qed.

End RegExpFacts.

(* ------------------------------------------------------------------ *)
(** ** The record validator *)

Section ValidatorFacts.
Import Js Types Store Text ResourceService DynamicDataService Vocabulary.
Context {B : Builtins}.

Lemma read_own (o : JsObject) (key : string) (v : Json) :
  get o key = Some v -> read o key = Some v.
Proof. unfold read. intros ->. reflexivity. Qed.

Lemma read_own_named (data : JsObject) (f : FieldRow) :
  own_named f = true -> read data (f_name f) = get data (f_name f).
Proof.
  unfold own_named, read. intro H.
  destruct (get data (f_name f)); [reflexivity | ].
  destruct (Object_prototype (f_name f)); [discriminate | reflexivity].
Qed.

Lemma read_first (key : string) (v : Json) (rest : JsObject) :
  read ((key, v) :: rest) key = Some v.
Proof. unfold read. simpl. rewrite String.eqb_refl. reflexivity. Qed.

Lemma validate_field_fails (data : JsObject) (f : FieldRow) (u : bool) (r : ApiResponse) :
  validate_field data f u = Some r -> success r = false.
Proof.
  unfold validate_field.
  destruct (negb u && f_isRequired f && nullish (read data (f_name f))).
  - intros [= <-]. reflexivity.
  - destruct (read data (f_name f)) as [[] |]; try discriminate;
      (destruct (negb (valid _));
       [ intros [= <-]; reflexivity
       | destruct (f_validation f); try discriminate;
         destruct (negb (valid _)); [intros [= <-]; reflexivity | discriminate] ]).
Qed.

Lemma validate_field_update_optional (data : JsObject) (f : FieldRow) :
  validate_field data (as_optional f) true = validate_field data f true.
Proof. reflexivity. Qed.

Lemma validate_field_unsupplied (data : JsObject) (f : FieldRow) :
  own_named f = true -> supplied data f = false -> validate_field data f true = None.
Proof.
  intro Hown. unfold supplied, validate_field. rewrite (read_own_named data f Hown). simpl.
  destruct (get data (f_name f)) as [[] |]; simpl; intro H;
    try discriminate; reflexivity.
Qed.

Lemma validate_field_required (data : JsObject) (f : FieldRow) :
  own_named f = true -> f_isRequired f = true -> supplied data f = false ->
  validate_field data f false = Some (required_error f).
Proof.
  intro Hown. unfold supplied, validate_field. rewrite (read_own_named data f Hown).
  intros -> H. apply negb_false_iff in H. rewrite H. reflexivity.
Qed.

Lemma validateData_app (data : JsObject) (u : bool) (pre post : list FieldRow) :
  (forall g, In g pre -> validate_field data g u = None) ->
  validateData data (pre ++ post) u = validateData data post u.
Proof.
  induction pre as [| g pre IH]; intro H; simpl.
  - reflexivity.
  - rewrite (H g) by (left; reflexivity).
    apply IH. intros h Hh. apply H. right. assumption.
Qed.

Lemma validateData_fails_somewhere (data : JsObject) (u : bool) (fields : list FieldRow) :
  forall f r, In f fields -> validate_field data f u = Some r ->
  success (validateData data fields u) = false.
Proof.
  induction fields as [| g fields IH]; intros f r Hin Hf; simpl.
  - destruct Hin.
  - destruct (validate_field data g u) as [r' |] eqn:E.
    + apply (validate_field_fails _ _ _ E).
    + destruct Hin as [-> | Hin].
      * rewrite Hf in E. discriminate.
      * apply (IH f r Hin Hf).
Qed.

Lemma validateData_passed_each (data : JsObject) (u : bool) (fields : list FieldRow) :
  success (validateData data fields u) = true ->
  forall f, In f fields -> validate_field data f u = None.
Proof.
  intros Hok f Hf. destruct (validate_field data f u) as [r | ] eqn:E; [ | reflexivity].
  rewrite (validateData_fails_somewhere data u fields f Hf E) in Hok. discriminate.
Qed.

(** C5, on the code.  With [isUpdate = true] no required-field check can
    fail: the answer does not depend on any [isRequired] flag.  Validation
    stops at the first failing field: the response is the one that field
    alone produces, whatever the fields after it.  For fields whose names
    are their own, a field the payload does not supply is not checked on
    update, and a required one makes creation fail with the required-field
    error.  A field named like a property that every object inherits is read
    as supplied when the payload has no such key: a creation without the
    required [constructor: JSON] passes, and an update that does not mention
    the optional [toString: STRING] is refused for it. *)
Theorem validateData_required_and_first_failure
    (data : JsObject) (fields : list FieldRow) :
  validateData data (map as_optional fields) true = validateData data fields true
  /\ ((forall f, In f fields -> own_named f = true) ->
      validateData data (List.filter (supplied data) fields) true
      = validateData data fields true)
  /\ (forall f, In f fields -> own_named f = true ->
        f_isRequired f = true -> supplied data f = false ->
        validate_field data f false = Some (required_error f)
        /\ success (validateData data fields false) = false)
  /\ (forall isUpdate pre f post response,
        fields = (pre ++ f :: post)%list ->
        (forall g, In g pre -> validate_field data g isUpdate = None) ->
        validate_field data f isUpdate = Some response ->
        validateData data fields isUpdate = response
        /\ validateData data [f] isUpdate = response)
  /\ (supplied [("note", JStr "x")] Examples.constructorField = false
      /\ f_isRequired Examples.constructorField = true
      /\ validateData [("note", JStr "x")]
           [Examples.constructorField; Examples.noteField] false
         = validation_passed)
  /\ (supplied [("title", JStr "Dune")] Examples.toStringField = false
      /\ validateData [("title", JStr "Dune")]
           [Examples.toStringField; Examples.requiredTitle] true
         = type_failure Examples.toStringField "Must be a string").
Proof.
  split; [ | split; [ | split; [ | split; [ | split]]]].
  - induction fields as [| f fields IH]; simpl.
    + reflexivity.
    + rewrite validate_field_update_optional, IH. reflexivity.
  - induction fields as [| f fields IH]; simpl; intro Hown.
    + reflexivity.
    + assert (IH' := IH (fun g Hg => Hown g (or_intror Hg))).
      destruct (supplied data f) eqn:S; simpl.
      * rewrite IH'. reflexivity.
      * rewrite (validate_field_unsupplied _ _ (Hown f (or_introl eq_refl)) S). exact IH'.
  - intros f Hin Hown Hrequired Habsent. split.
    + apply validate_field_required; assumption.
    + eapply validateData_fails_somewhere; [exact Hin | ].
      apply validate_field_required; assumption.
  - intros isUpdate pre f post response -> Hpre Hf. split.
    + rewrite validateData_app by assumption. simpl. rewrite Hf. reflexivity.
    + simpl. rewrite Hf. reflexivity.
  - repeat split.
  - repeat split.
Qed.

(** A payload that sets one field to null passes [isUpdate] validation
    against fields whose names, but for that of the field set, are their
    own. *)
Lemma validateData_update_null (fields : list FieldRow) (f : string) :
  (forall g, In g fields -> f_name g <> f -> own_named g = true) ->
  validateData [(f, JNull)] fields true = validation_passed.
Proof.
  induction fields as [| g fields IH]; simpl; intro Hown.
  - reflexivity.
  - assert (Hg : validate_field [(f, JNull)] g true = None).
    { unfold validate_field. simpl.
      destruct (String.eqb_spec f (f_name g)) as [-> | Hne].
      - rewrite read_first. reflexivity.
      - rewrite read_own_named
          by (apply Hown; [left; reflexivity | intro E; apply Hne; symmetry; exact E]).
        simpl. destruct (String.eqb_spec f (f_name g)); [contradiction | reflexivity]. }
    rewrite Hg. apply IH. intros h Hh. apply Hown. right. exact Hh.
Qed.

(** A value that fails the type check, or is not supplied, is answered
    without looking at the rules of the field. *)
Lemma rules_after_type_check (data : JsObject) (f : FieldRow) (u : bool)
    (rules : option FieldValidation) :
  match read data (f_name f) with
  | Some v => nullish (Some v)
              || negb (valid (validateFieldType v (FieldType_name (f_type f))))
  | None => true
  end = true ->
  validate_field data (with_rules rules f) u = validate_field data f u.
Proof.
  unfold validate_field. simpl.
  destruct (read data (f_name f)) as [v |]; [| reflexivity].
  destruct v; simpl; try reflexivity;
    intro H; rewrite H; reflexivity.
Qed.

Lemma pattern_rule_checked (value : Json) (rules : FieldValidation) (name : string)
    (p : RegExp.Pattern) :
  v_pattern rules = Some p ->
  valid (validateFieldRules value rules name) = true ->
  RegExp.test p (ToString value) = true.
Proof.
  intros Hp. unfold validateFieldRules.
  destruct (defined_and (v_min rules) _); [discriminate |].
  destruct (defined_and (v_max rules) _); [discriminate |].
  destruct (defined_and (v_minLength rules) _); [discriminate |].
  destruct (defined_and (v_maxLength rules) _); [discriminate |].
  rewrite Hp. simpl.
  destruct (RegExp.test p (ToString value)); simpl; [reflexivity | discriminate].
Qed.

(** What one field answers for a value that is there. *)
Lemma validate_field_present (data : JsObject) (f : FieldRow) (u : bool) (value : Json) :
  read data (f_name f) = Some value -> value <> JNull ->
  validate_field data f u =
  let typeValidation := validateFieldType value (FieldType_name (f_type f)) in
  if negb (valid typeValidation)
  then Some (type_failure f match reason typeValidation with
                            | Some m => m
                            | None => "undefined"
                            end)
  else
    match f_validation f with
    | Some rules =>
        if negb (valid (validateFieldRules value rules (f_name f)))
        then Some (validation_error (reason (validateFieldRules value rules (f_name f))))
        else None
    | None => None
    end.
Proof.
  intros Hread Hvalue. unfold validate_field. rewrite Hread.
  destruct value; try contradiction; simpl; rewrite andb_false_r; reflexivity.
Qed.

(** C6, as the code has it.  A payload passes validation only if, for
    each field with a pattern and a value, [RegExp.test] accepts the value,
    that is, only if some part of the value matches the pattern body: the
    whole value is required only where the pattern is anchored at both ends.
    For a string field whose only rule is a pattern that is also all that is
    asked: a string passes exactly when [test] accepts it, and is answered
    with the format error otherwise.  And the rules are consulted only for a
    value that has passed the type check: one that fails it is answered with
    the type error, whatever the rules. *)
Theorem pattern_is_searched_after_type_check
    (value : Json) (rules : FieldValidation) (name : string) (p : RegExp.Pattern) :
  (v_pattern rules = Some p ->
   valid (validateFieldRules value rules name) = true ->
   exists pre mid post,
     list_ascii_of_string (ToString value) = (pre ++ mid ++ post)%list /\
     RegExp.matches (RegExp.body p) mid /\
     (RegExp.anchoredStart p = true -> pre = []) /\
     (RegExp.anchoredEnd p = true -> post = []))
  /\ (forall data fields isUpdate f,
        In f fields ->
        f_validation f = Some rules ->
        v_pattern rules = Some p ->
        read data (f_name f) = Some value ->
        value <> JNull ->
        success (validateData data fields isUpdate) = true ->
        exists pre mid post,
          list_ascii_of_string (ToString value) = (pre ++ mid ++ post)%list /\
          RegExp.matches (RegExp.body p) mid /\
          (RegExp.anchoredStart p = true -> pre = []) /\
          (RegExp.anchoredEnd p = true -> post = []))
  /\ (forall f s isUpdate,
        f_type f = STRING \/ f_type f = TEXT ->
        f_validation f = Some (pattern_rules p) ->
        validateData [(f_name f, JStr s)] [f] isUpdate
        = if RegExp.test p s then validation_passed else format_failure f)
  /\ (forall f pre mid post isUpdate,
        f_type f = STRING \/ f_type f = TEXT ->
        f_validation f = Some (pattern_rules p) ->
        RegExp.matches (RegExp.body p) mid ->
        (RegExp.anchoredStart p = true -> pre = []) ->
        (RegExp.anchoredEnd p = true -> post = []) ->
        validateData
          [(f_name f, JStr (string_of_list_ascii (pre ++ mid ++ post)%list))] [f] isUpdate
        = validation_passed)
  /\ (forall data f rest isUpdate other,
        read data (f_name f) = Some value ->
        value <> JNull ->
        valid (validateFieldType value (FieldType_name (f_type f))) = false ->
        validate_field data (with_rules other f) isUpdate = validate_field data f isUpdate
        /\ validateData data (with_rules other f :: rest) isUpdate
           = type_failure f
               match reason (validateFieldType value (FieldType_name (f_type f))) with
               | Some m => m
               | None => "undefined"
               end).
Proof.
  assert (Hstring : forall f s isUpdate,
            f_type f = STRING \/ f_type f = TEXT ->
            f_validation f = Some (pattern_rules p) ->
            validateData [(f_name f, JStr s)] [f] isUpdate
            = if RegExp.test p s then validation_passed else format_failure f).
  { intros f s isUpdate Htype Hrules. simpl.
    rewrite (@validate_field_present _ f isUpdate (JStr s) (read_first _ _ _))
      by discriminate.
    cbv zeta. rewrite Hrules.
    assert (Hvalid : validateFieldType (JStr s) (FieldType_name (f_type f)) = is_valid)
      by (destruct Htype as [-> | ->]; reflexivity).
    rewrite Hvalid.
    cbv beta iota delta [validateFieldRules pattern_rules defined_and v_min v_max
                           v_minLength v_maxLength v_pattern v_enum ToString].
    destruct (RegExp.test p s); reflexivity. }
  split; [ | split; [ | split; [ | split]]].
  - intros Hp Hv. apply test_iff. eapply pattern_rule_checked; eassumption.
  - intros data fields isUpdate f Hin Hrules Hp Hread Hvalue Hok.
    apply test_iff. apply (pattern_rule_checked value rules (f_name f) Hp).
    pose proof (validateData_passed_each data isUpdate fields Hok f Hin) as Hf.
    rewrite (validate_field_present data f isUpdate Hread Hvalue) in Hf.
    cbv zeta in Hf. rewrite Hrules in Hf.
    destruct (negb (valid (validateFieldType value _))); [discriminate | ].
    destruct (valid (validateFieldRules value rules (f_name f)));
      [reflexivity | discriminate].
  - exact Hstring.
  - intros f pre mid post isUpdate Htype Hrules Hmid Hpre Hpost.
    rewrite (Hstring f _ isUpdate Htype Hrules).
    replace (RegExp.test p (string_of_list_ascii (pre ++ mid ++ post)%list)) with true;
      [reflexivity | ].
    symmetry. apply test_iff. exists pre, mid, post.
    rewrite list_ascii_of_string_of_list_ascii. repeat split; assumption.
  - intros data f rest isUpdate other Hread Hvalue Htype. split.
    + apply rules_after_type_check. rewrite Hread, Htype. apply orb_true_r.
    + simpl validateData.
      rewrite (@validate_field_present data (with_rules other f) isUpdate value Hread Hvalue).
      cbv zeta. simpl f_type. rewrite Htype. reflexivity.
Qed.

End ValidatorFacts.

(* ------------------------------------------------------------------ *)
(** ** The record validator on the scenario of the specification *)

Section ValidatorExamples.
Import Js Types Store Text ResourceService DynamicDataService Vocabulary Examples.
Local Existing Instance exampleBuiltins.

Example validate_title_only :
  validateData [("title", JStr "Dune")] (r_fields bookRow) false = validation_passed.
Proof. reflexivity. Qed.

Example negative_age_is_refused :
  validateData [("age", JInt (-1))] [ageField] false
  = validation_error (Some "Field 'age' must be at least 0").
Proof. reflexivity. Qed.

Example age_of_five_passes :
  validateData [("age", JInt 5)] [ageField] false = validation_passed.
Proof. reflexivity. Qed.

(** C5 on the scenario: [create('book', {pages: 10})] stops at [title],
    and the same payload passes as an update. *)
Lemma validateData_required_witness :
  validateData [("pages", JInt 10)] (r_fields bookRow) false
  = validation_error (Some "Field 'title' is required")
  /\ validateData [("pages", JInt 10)] (r_fields bookRow) true = validation_passed.
Proof.
  destruct (validateData_required_and_first_failure
              [("pages", JInt 10)] (r_fields bookRow))
    as (_ & Hsupplied & _ & Hfirst & _).
  split.
  - apply (Hfirst false []
             (mkFieldRow 1 "title" None STRING true false None None 0)
             [mkFieldRow 2 "pages" None INTEGER false false None None 1]).
    + reflexivity.
    + intros g [].
    + reflexivity.
  - rewrite <- Hsupplied; [reflexivity | ].
    intros f [<- | [<- | []]]; reflexivity.
Defined.

(** Counterexample to C6 as stated: the value [abc] passes the pattern [b],
    which matches a part of it and not all of it. *)
Lemma pattern_accepts_partial_match :
  validateData [("code", JStr "abc")] [codeField] false = validation_passed
  /\ valid (validateFieldRules (JStr "abc") codeRules "code") = true
  /\ ~ RegExp.matches (RegExp.Chr "b") (list_ascii_of_string "abc").
Proof.
  repeat split.
  intro H. apply full_match_iff in H. discriminate.
Qed.

(** Witness of the amended C6: the payload [{code: abc}] passes, so a part
    of [abc] matches the pattern. *)
Lemma pattern_search_witness :
  exists pre mid post,
    list_ascii_of_string "abc" = (pre ++ mid ++ post)%list /\
    RegExp.matches (RegExp.Chr "b") mid /\
    (false = true -> pre = []) /\
    (false = true -> post = []).
Proof.
  apply (proj1 (proj2 (pattern_is_searched_after_type_check
                         (JStr "abc") codeRules "code"
                         (RegExp.unanchored (RegExp.Chr "b"))))
           [("code", JStr "abc")] [codeField] false codeField);
    try reflexivity; [left; reflexivity | discriminate].
Defined.

End ValidatorExamples.

(* ------------------------------------------------------------------ *)
(** ** Literals of default values *)

Section DefaultValueFacts.
Import Js Types Store Text ResourceService.
Context {B : Builtins} {P : Postgres}.

Lemma double_single_quotes_paired (s : string) :
  quotes_paired (double_single_quotes s) = true.
Proof.
  induction s as [| c s IH]; simpl.
  - reflexivity.
  - destruct (Ascii.eqb c "'"%char) eqn:E.
    + simpl. exact IH.
    + simpl. rewrite E. exact IH.
Qed.

Lemma append_last_inj (c : ascii) (a : string) :
  forall b, a ++ String c EmptyString = b ++ String c EmptyString -> a = b.
Proof.
  induction a as [| x a IH]; intros [| y b] E; simpl in E.
  - reflexivity.
  - injection E as _ E. destruct b; discriminate.
  - injection E as _ E. destruct a; discriminate.
  - injection E as -> E. f_equal. apply IH. exact E.
Qed.

Lemma unpaired_literal (d : string) :
  quotes_paired d = false -> ~ sql_literal_ok ("'" ++ d ++ "'").
Proof.
  intros Hd (body & E & Hb).
  simpl in E. injection E as E.
  apply append_last_inj in E. subst body.
  rewrite Hd in Hb. discriminate.
Qed.

(** C10. A default value that is not null is rendered, for STRING and TEXT,
    between quotes with every single quote of it doubled, which is always a
    well-formed literal; for DATE, DATETIME and a type outside the enum it is
    put between quotes as it is, and no other branch doubles a quote either.
    So there is a default value with a single quote in it whose DATE,
    DATETIME and fallback literals, and the DEFAULT clause made of them, are
    not well quoted. *)
Theorem formatDefaultValue_escapes_text_only (v : Json) :
  v <> JNull ->
  formatDefaultValue (Some v) "STRING" = "'" ++ double_single_quotes (ToString v) ++ "'"
  /\ formatDefaultValue (Some v) "TEXT" = "'" ++ double_single_quotes (ToString v) ++ "'"
  /\ sql_literal_ok (formatDefaultValue (Some v) "STRING")
  /\ sql_literal_ok (formatDefaultValue (Some v) "TEXT")
  /\ formatDefaultValue (Some v) "DATE" = "'" ++ ToString v ++ "'"
  /\ formatDefaultValue (Some v) "DATETIME" = "'" ++ ToString v ++ "'"
  /\ (forall type, FieldType_of_name type = None ->
        formatDefaultValue (Some v) type = "'" ++ ToString v ++ "'")
  /\ formatDefaultValue (Some v) "INTEGER" = ToString v
  /\ formatDefaultValue (Some v) "FLOAT" = ToString v
  /\ formatDefaultValue (Some v) "BOOLEAN" = (if truthy v then "TRUE" else "FALSE")
  /\ formatDefaultValue (Some v) "JSON" = "'" ++ JSON_stringify v ++ "'::jsonb"
  /\ (exists d,
        occurs "'"%char d = true
        /\ ~ sql_literal_ok (formatDefaultValue (Some (JStr d)) "DATE")
        /\ ~ sql_literal_ok (formatDefaultValue (Some (JStr d)) "DATETIME")
        /\ ~ sql_literal_ok (formatDefaultValue (Some (JStr d)) "UNKNOWN")
        /\ default_clause (mkFieldDef "due" None DATE None None (Some (JStr d)) None)
           = " DEFAULT '" ++ d ++ "'").
Proof.
  intro Hv.
  assert (Hs : forall t, FieldType_of_name t = Some STRING \/ FieldType_of_name t = Some TEXT ->
                formatDefaultValue (Some v) t = "'" ++ double_single_quotes (ToString v) ++ "'").
  { intros t Ht. unfold formatDefaultValue.
    destruct v; try contradiction; destruct Ht as [-> | ->]; reflexivity. }
  assert (Hd : forall t, FieldType_of_name t = Some DATE \/ FieldType_of_name t = Some DATETIME
                         \/ FieldType_of_name t = None ->
                formatDefaultValue (Some v) t = "'" ++ ToString v ++ "'").
  { intros t Ht. unfold formatDefaultValue.
    destruct v; try contradiction; destruct Ht as [-> | [-> | ->]]; reflexivity. }
  repeat split.
  - apply Hs. left. reflexivity.
  - apply Hs. right. reflexivity.
  - rewrite Hs by (left; reflexivity).
    eexists. split; [reflexivity | apply double_single_quotes_paired].
  - rewrite Hs by (right; reflexivity).
    eexists. split; [reflexivity | apply double_single_quotes_paired].
  - apply Hd. left. reflexivity.
  - apply Hd. right. left. reflexivity.
  - intros t Ht. apply Hd. right. right. exact Ht.
  - destruct v; try contradiction; reflexivity.
  - destruct v; try contradiction; reflexivity.
  - destruct v; try contradiction; reflexivity.
  - destruct v; try contradiction; reflexivity.
  - exists "o'clock". repeat split.
    + apply (unpaired_literal "o'clock"). reflexivity.
    + apply (unpaired_literal "o'clock"). reflexivity.
    + apply (unpaired_literal "o'clock"). reflexivity.
Qed.

End DefaultValueFacts.

Section DefaultValueExamples.
Import Js Types Store Text ResourceService Examples.

(** Witness of C10, at the default value [it's]. *)
Lemma formatDefaultValue_witness :
  formatDefaultValue (B := exampleBuiltins) (Some (JStr "it's")) "STRING" = "'it''s'"
  /\ formatDefaultValue (B := exampleBuiltins) (Some (JStr "it's")) "DATE" = "'it's'".
Proof.
  destruct (formatDefaultValue_escapes_text_only (B := exampleBuiltins)
              (v := JStr "it's")) as (H1 & _ & _ & _ & H2 & _).
  - discriminate.
  - split; [exact H1 | exact H2].
Defined.

End DefaultValueExamples.

(* ------------------------------------------------------------------ *)
(** ** Running a service call: the laws of the computations *)

Section StoreFacts.
Import Js Types Store Text ResourceService.
Context {P : Postgres}.

Lemma bind_resolved {A C} (m : M A) (k : A -> M C) (w w' : World) (a : A) :
  m w = (w', inr a) -> bind m k w = k a w'.
Proof. unfold bind. intros ->. reflexivity. Qed.

Lemma bind_rejected {A C} (m : M A) (k : A -> M C) (w w' : World) (e : Thrown) :
  m w = (w', inl e) -> bind m k w = (w', inl e).
Proof. unfold bind. intros ->. reflexivity. Qed.

Lemma try_catch_resolves {A} (body : M A) (handler : Thrown -> A) (w : World) :
  exists w' a, try_catch body handler w = (w', inr a).
Proof.
  unfold try_catch. destruct (body w) as [w' [e | a]]; eauto.
Qed.

Lemma try_catch_rejected {A} (body : M A) (handler : Thrown -> A) (w w' : World)
    (e : Thrown) :
  body w = (w', inl e) -> try_catch body handler w = (w', inr (handler e)).
Proof. unfold try_catch. intros ->. reflexivity. Qed.

Lemma try_catch_resolved {A} (body : M A) (handler : Thrown -> A) (w w' : World) (a : A) :
  body w = (w', inr a) -> try_catch body handler w = (w', inr a).
Proof. unfold try_catch. intros ->. reflexivity. Qed.

Lemma gate_open (f : Server -> Server * option Thrown) (w : World) (s' : Server) :
  f (server w) = (s', None) -> gate f w = (mkWorld (catalog w) s', inr tt).
Proof. unfold gate, on_server. intros ->. reflexivity. Qed.

Lemma gate_shut (f : Server -> Server * option Thrown) (w : World) (s' : Server)
    (e : Thrown) :
  f (server w) = (s', Some e) -> gate f w = (mkWorld (catalog w) s', inl e).
Proof. unfold gate, on_server. intros ->. reflexivity. Qed.

Lemma prisma_read_rejected {A} (f : Catalog -> A) (w : World) (s' : Server) (e : Thrown) :
  prisma_call (server w) = (s', Some e) ->
  prisma_read f w = (mkWorld (catalog w) s', inl e).
Proof.
  intro H. unfold prisma_read.
  apply bind_rejected. apply gate_shut. exact H.
Qed.

Lemma prisma_read_resolved {A} (f : Catalog -> A) (w : World) (s' : Server) :
  prisma_call (server w) = (s', None) ->
  prisma_read f w = (mkWorld (catalog w) s', inr (f (catalog w))).
Proof.
  intro H. unfold prisma_read.
  erewrite bind_resolved by (apply gate_open; exact H). reflexivity.
Qed.

Lemma prisma_write_resolved {A} (f : Catalog -> Thrown + (Catalog * A)) (w : World)
    (s' : Server) (c' : Catalog) (a : A) :
  prisma_call (server w) = (s', None) ->
  f (catalog w) = inr (c', a) ->
  prisma_write f w = (mkWorld c' s', inr a).
Proof.
  intros H Hf. unfold prisma_write.
  erewrite bind_resolved by (apply gate_open; exact H). simpl. rewrite Hf. reflexivity.
Qed.

Lemma findUnique_resolved (name : string) (inc : Include) (w : World) (s' : Server) :
  prisma_call (server w) = (s', None) ->
  findUnique name inc w
  = (mkWorld (catalog w) s', inr (option_map (included inc) (find_resource name (catalog w)))).
Proof. apply prisma_read_resolved. Qed.

Lemma findUnique_rejected (name : string) (inc : Include) (w : World) (s' : Server)
    (e : Thrown) :
  prisma_call (server w) = (s', Some e) ->
  findUnique name inc w = (mkWorld (catalog w) s', inl e).
Proof. apply prisma_read_rejected. Qed.

Lemma connect_resolved (w : World) (s' : Server) :
  pool_connect (server w) = (s', None) -> connect w = (mkWorld (catalog w) s', inr tt).
Proof. apply gate_open. Qed.

Lemma connect_rejected (w : World) (s' : Server) (e : Thrown) :
  pool_connect (server w) = (s', Some e) -> connect w = (mkWorld (catalog w) s', inl e).
Proof. apply gate_shut. Qed.

Lemma query_outcome (text : string) (vals : list Json) (w : World) (s' : Server)
    (r : Thrown + list Row) :
  client_query text vals (server w) = (s', r) ->
  query text vals w = (mkWorld (catalog w) s', r).
Proof. unfold query, on_server. intros ->. reflexivity. Qed.

(** A transaction whose body rejects leaves the catalog as it found it. *)
Lemma transaction_rejected {A} (body : M A) (w w' : World) (e : Thrown) :
  body w = (w', inl e) ->
  transaction body w = (mkWorld (catalog w) (server w'), inl e).
Proof. unfold transaction. intros ->. reflexivity. Qed.

Lemma transaction_catalog {A} (body : M A) (w : World) :
  forall e, snd (transaction body w) = inl e ->
  catalog (fst (transaction body w)) = catalog w.
Proof.
  unfold transaction. intro e.
  destruct (body w) as [w' [e' | a]]; simpl.
  - reflexivity.
  - destruct (prisma_call (server w')) as [s'' [e'' |]]; simpl.
    + reflexivity.
    + discriminate.
Qed.

(** The statements sent through the pool never touch the catalog. *)
Lemma run_statements_catalog (statements : list string) :
  forall w, catalog (fst (run_statements statements w)) = catalog w.
Proof.
  induction statements as [| text rest IH]; intro w; simpl.
  - reflexivity.
  - unfold bind, query, on_server.
    destruct (client_query text [] (server w)) as [s' [e | rows]]; simpl.
    + reflexivity.
    + rewrite IH. reflexivity.
Qed.

End StoreFacts.

(* ------------------------------------------------------------------ *)
(** ** The dynamic data service *)

Section DataServiceFacts.
Import Js Types Store Text ResourceService DynamicDataService Vocabulary Steps.
Context {B : Builtins} {P : Postgres}.

(** What [getData] answers once the resource is found and a client is
    connected: the two statements go to the server one after the other, and
    either answer may be an error. *)
Lemma getData_run (name : string) (options : QueryOptions) (w : World)
    (r : ResourceRow) (s1 s2 : Server) :
  prisma_call (server w) = (s1, None) ->
  find_resource name (catalog w) = Some r ->
  pool_connect s1 = (s2, None) ->
  getData name options w =
  let q := getData_query (r_tableName r) options in
  let cq := getData_countQuery (r_tableName r) options in
  match client_query (text q) (values q) s2 with
  | (s3, inl e) =>
      (mkWorld (catalog w) (client_release s3), inr (caught "Failed to fetch data" e))
  | (s3, inr rows) =>
      match client_query (text cq) (values cq) s3 with
      | (s4, inl e) =>
          (mkWorld (catalog w) (client_release s4), inr (caught "Failed to fetch data" e))
      | (s4, inr []) =>
          (mkWorld (catalog w) (client_release s4),
           inr (failure "Failed to fetch data"
                  "Cannot read properties of undefined (reading 'total')"))
      | (s4, inr (first :: _)) =>
          let total := parseInt (get first "total") in
          (mkWorld (catalog w) (client_release s4),
           inr (success_with
                  (DataPage rows
                     (mkPagination (page_number options) (page_limit options) total
                        (option_map (fun t => ceil_div t (page_limit options)) total)))
                  None))
      end
  end.
Proof.
  intros Hprisma Hfound Hconnect.
  unfold getData. run_service.
  rewrite Hprisma. simpl. rewrite Hfound. simpl. rewrite Hconnect. simpl.
  destruct (client_query _ _ s2) as [s3 [e | rows]]; simpl; [reflexivity |].
  destruct (client_query _ _ s3) as [s4 [e | [| first rest]]]; reflexivity.
Qed.

(** The same for the statement of [updateData], once validation passed. *)
Lemma updateData_run (name : string) (id : Z) (data : JsObject) (w : World)
    (r : ResourceRow) (s1 s2 : Server) :
  prisma_call (server w) = (s1, None) ->
  find_resource name (catalog w) = Some r ->
  success (validateData data (r_fields r) true) = true ->
  pool_connect s1 = (s2, None) ->
  updateData name id data w =
  let q := updateData_query (r_tableName r) id data in
  match client_query (text q) (values q) s2 with
  | (s3, inl e) =>
      (mkWorld (catalog w) (client_release s3), inr (caught "Failed to update data" e))
  | (s3, inr []) =>
      (mkWorld (catalog w) (client_release s3), inr (data_not_found id))
  | (s3, inr (row :: _)) =>
      (mkWorld (catalog w) (client_release s3),
       inr (success_with (DataRow row) (Some "Data updated successfully")))
  end.
Proof.
  intros Hprisma Hfound Hvalid Hconnect.
  unfold updateData. run_service.
  rewrite Hprisma. simpl. rewrite Hfound. simpl. rewrite Hvalid. simpl.
  rewrite Hconnect. simpl.
  destruct (client_query _ _ s2) as [s3 [e | [| row rest]]]; reflexivity.
Qed.

Lemma createData_run (name : string) (data : JsObject) (w : World)
    (r : ResourceRow) (s1 s2 : Server) :
  prisma_call (server w) = (s1, None) ->
  find_resource name (catalog w) = Some r ->
  success (validateData data (r_fields r) false) = true ->
  pool_connect s1 = (s2, None) ->
  createData name data w =
  let q := createData_query (r_tableName r) data in
  match client_query (text q) (values q) s2 with
  | (s3, inl e) =>
      (mkWorld (catalog w) (client_release s3), inr (caught "Failed to create data" e))
  | (s3, inr rows) =>
      (mkWorld (catalog w) (client_release s3),
       inr (mkResponse true (option_map DataRow (hd_error rows)) None
              (Some "Data created successfully")))
  end.
Proof.
  intros Hprisma Hfound Hvalid Hconnect.
  unfold createData. run_service.
  rewrite Hprisma. simpl. rewrite Hfound. simpl. rewrite Hvalid. simpl.
  rewrite Hconnect. simpl.
  destruct (client_query _ _ s2) as [s3 [e | rows]]; reflexivity.
Qed.

(** C8. A [limit] of 0 and a [page] of 0 are treated as absent: the call
    is the very call made without the option.  For a resource that exists,
    the call with both set to 0 sends the page statement with 50 and 0 bound
    to LIMIT and OFFSET, and answers with the rows the server returns for it
    as page 1 with limit 50: not with an empty page, and not with an error
    unless the server gives one. *)
Theorem getData_zero_is_absent (name : string) (options : QueryOptions) (w : World) :
  getData name (with_limit (Some 0%Z) options) w
  = getData name (with_limit None options) w
  /\ getData name (with_page (Some 0%Z) options) w
     = getData name (with_page None options) w
  /\ page_limit (with_limit (Some 0%Z) options) = 50%Z
  /\ page_number (with_page (Some 0%Z) options) = 1%Z
  /\ page_offset (with_page (Some 0%Z) options) = 0%Z
  /\ (forall tableName,
        values (getData_query tableName
                  (with_page (Some 0%Z) (with_limit (Some 0%Z) options)))
        = (filter_values (filter options) ++ [JInt 50; JInt 0])%list)
  /\ (forall r s1 s2,
        prisma_call (server w) = (s1, None) ->
        find_resource name (catalog w) = Some r ->
        pool_connect s1 = (s2, None) ->
        let n := List.length (filter_values (filter options)) in
        let count := getData_countQuery (r_tableName r) options in
        getData name (with_page (Some 0%Z) (with_limit (Some 0%Z) options)) w
        = match
            client_query
              ("SELECT * FROM " ++ quoted (r_tableName r)
               ++ where_clause (filter options) ++ order_clause options
               ++ " LIMIT " ++ placeholder (n + 1) ++ " OFFSET " ++ placeholder (n + 2))
              (filter_values (filter options) ++ [JInt 50; JInt 0])%list s2
          with
          | (s3, inl e) =>
              (mkWorld (catalog w) (client_release s3),
               inr (failure "Failed to fetch data" (error_message e)))
          | (s3, inr rows) =>
              match client_query (text count) (values count) s3 with
              | (s4, inl e) =>
                  (mkWorld (catalog w) (client_release s4),
                   inr (failure "Failed to fetch data" (error_message e)))
              | (s4, inr []) =>
                  (mkWorld (catalog w) (client_release s4),
                   inr (failure "Failed to fetch data"
                          "Cannot read properties of undefined (reading 'total')"))
              | (s4, inr (first :: _)) =>
                  (mkWorld (catalog w) (client_release s4),
                   inr (success_with
                          (DataPage rows
                             (mkPagination 1 50 (parseInt (get first "total"))
                                (option_map (fun t => ceil_div t 50)
                                   (parseInt (get first "total")))))
                          None))
              end
          end).
Proof.
  repeat split; try reflexivity.
  intros r s1 s2 Hprisma Hfound Hconnect n count.
  rewrite (@getData_run name _ w r s1 s2 Hprisma Hfound Hconnect).
  reflexivity.
Qed.

Lemma placeholders_by_length {A} (l : list A) :
  forall n,
    map (fun '(index, _) => placeholder (index + 1)) (indexed_from n l)
    = map (fun index => placeholder (index + 1)) (seq n (List.length l)).
Proof.
  induction l as [| a l IH]; intro n; simpl.
  - reflexivity.
  - rewrite IH. reflexivity.
Qed.

Lemma createData_text (tableName : string) (data : JsObject) :
  text (createData_query tableName data)
  = nl ++ "          INSERT INTO " ++ quoted tableName
    ++ " (" ++ join ", " (map quoted (Object_keys data)) ++ ")"
    ++ nl ++ "          VALUES ("
    ++ join ", " (map (fun index => placeholder (index + 1))
                      (seq 0 (List.length (Object_keys data)))) ++ ")"
    ++ nl ++ "          RETURNING *"
    ++ nl ++ "        ".
Proof.
  unfold createData_query. simpl.
  rewrite placeholders_by_length.
  unfold Object_keys, Object_values. rewrite !length_map. reflexivity.
Qed.

Lemma where_clause_keys (f f' : option JsObject) :
  option_map Object_keys f = option_map Object_keys f' ->
  where_clause f = where_clause f'
  /\ List.length (filter_values f) = List.length (filter_values f').
Proof.
  destruct f as [l |], f' as [l' |]; simpl; intro H; try discriminate.
  - injection H as H. split.
    + destruct l as [| p l], l' as [| p' l']; try discriminate; [reflexivity |].
      unfold where_clause. rewrite H. reflexivity.
    + unfold Object_values. rewrite !length_map.
      rewrite <- (length_map fst l), <- (length_map fst l').
      unfold Object_keys in H. rewrite H. reflexivity.
  - split; reflexivity.
Qed.

(** C1, as the code has it.  In every statement of the data operations the
    values travel in the value list and nowhere else: the text is the same
    for any two calls that agree on the table name and on the keys the
    caller supplied (payload keys, filter keys, sort column and direction),
    whatever the payload values, the filter values, the limit, the page and
    the id; and the value list is exactly those values.  The keys themselves
    enter the text as the caller gave them. *)
Theorem values_only_through_placeholders (tableName : string) :
  (forall data data',
      Object_keys data = Object_keys data' ->
      text (createData_query tableName data) = text (createData_query tableName data'))
  /\ (forall data, values (createData_query tableName data) = Object_values data)
  /\ (forall id id' data data',
        Object_keys data = Object_keys data' ->
        text (updateData_query tableName id data)
        = text (updateData_query tableName id' data'))
  /\ (forall id data,
        values (updateData_query tableName id data)
        = (Object_values data ++ [JInt id])%list)
  /\ (forall o o',
        same_identifiers o o' ->
        text (getData_query tableName o) = text (getData_query tableName o')
        /\ text (getData_countQuery tableName o) = text (getData_countQuery tableName o'))
  /\ (forall o,
        values (getData_query tableName o)
        = (filter_values (filter o) ++ [JInt (page_limit o); JInt (page_offset o)])%list
        /\ values (getData_countQuery tableName o) = filter_values (filter o))
  /\ (forall id id',
        text (getDataById_query tableName id) = text (getDataById_query tableName id')
        /\ text (deleteData_query tableName id) = text (deleteData_query tableName id'))
  /\ (forall id,
        values (getDataById_query tableName id) = [JInt id]
        /\ values (deleteData_query tableName id) = [JInt id])
  /\ (forall data,
        text (createData_query tableName data)
        = nl ++ "          INSERT INTO " ++ quoted tableName
          ++ " (" ++ join ", " (map quoted (Object_keys data)) ++ ")"
          ++ nl ++ "          VALUES ("
          ++ join ", " (map (fun index => placeholder (index + 1))
                            (seq 0 (List.length (Object_keys data)))) ++ ")"
          ++ nl ++ "          RETURNING *"
          ++ nl ++ "        ")
  /\ (forall o column,
        sort o = Some column -> column <> EmptyString ->
        order_clause o = " ORDER BY " ++ quoted column ++ " " ++ order_keyword (order o))
  /\ (forall o entry entries,
        filter o = Some (entry :: entries) ->
        where_clause (filter o)
        = " WHERE "
          ++ join " AND "
               (map (fun '(index, key) => quoted key ++ " = " ++ placeholder (index + 1))
                    (indexed_from 0 (Object_keys (entry :: entries))))).
Proof.
  repeat split; try apply createData_text.
  - intros data data' H. rewrite !createData_text, H. reflexivity.
  - intros id id' data data' H. unfold updateData_query. simpl.
    rewrite H. reflexivity.
  - destruct H as (Hf & Hs & Ho).
    destruct (where_clause_keys _ _ Hf) as [Hw Hl].
    unfold getData_query, order_clause. simpl.
    rewrite Hw, Hl, Hs, Ho. reflexivity.
  - destruct H as (Hf & _ & _).
    destruct (where_clause_keys _ _ Hf) as [Hw _].
    unfold getData_countQuery. simpl. rewrite Hw. reflexivity.
  - intros o column Hsort Hcolumn. unfold order_clause. rewrite Hsort.
    destruct (String.eqb_spec column EmptyString); [contradiction | reflexivity].
  - intros o entry entries Hfilter. rewrite Hfilter. reflexivity.
Qed.

(** C9, on the code.  Against fields whose names, but for that of the
    field set, are their own, a payload that sets one field to null passes
    [isUpdate] validation, whatever the type, the required flag and the
    rules of the field; so [updateData] sends the null to the server as a
    bound value, and when the server refuses it the caller gets the failure
    of a store error, with the message of the server, not a validation
    error.  Beside a field named like a property that every object inherits
    the null does not get that far: the update of the title to null is
    refused for the optional [toString: STRING], which the payload does not
    mention, and nothing is sent. *)
Theorem update_null_reaches_store :
  (forall fields f,
      (forall g, In g fields -> f_name g <> f -> own_named g = true) ->
      validateData [(f, JNull)] fields true = validation_passed)
  /\ (forall name id f (w : World) r s1 s2 s3 e,
        (forall g, In g (r_fields r) -> f_name g <> f -> own_named g = true) ->
        prisma_call (server w) = (s1, None) ->
        find_resource name (catalog w) = Some r ->
        pool_connect s1 = (s2, None) ->
        client_query (text (updateData_query (r_tableName r) id [(f, JNull)]))
          [JNull; JInt id] s2 = (s3, inl e) ->
        updateData name id [(f, JNull)] w
        = (mkWorld (catalog w) (client_release s3),
           inr (failure "Failed to update data" (error_message e))))
  /\ validateData [("title", JNull)] [Examples.toStringField; Examples.requiredTitle] true
     = type_failure Examples.toStringField "Must be a string"
  /\ (forall name id (w : World) r s1,
        prisma_call (server w) = (s1, None) ->
        find_resource name (catalog w) = Some r ->
        r_fields r = [Examples.toStringField; Examples.requiredTitle] ->
        updateData name id [("title", JNull)] w
        = (mkWorld (catalog w) s1,
           inr (type_failure Examples.toStringField "Must be a string"))).
Proof.
  split; [ | split; [ | split]].
  - intros fields f Hown. apply validateData_update_null. exact Hown.
  - intros name id f w r s1 s2 s3 e Hown Hprisma Hfound Hconnect Hquery.
    assert (Hvalid : success (validateData [(f, JNull)] (r_fields r) true) = true)
      by (rewrite validateData_update_null by exact Hown; reflexivity).
    rewrite (@updateData_run name id _ w r s1 s2 Hprisma Hfound Hvalid Hconnect).
    simpl. simpl in Hquery. rewrite Hquery. reflexivity.
  - reflexivity.
  - intros name id w r s1 Hprisma Hfound Hfields.
    unfold updateData. run_service.
    rewrite Hprisma. simpl. rewrite Hfound. simpl. rewrite Hfields. reflexivity.
Qed.

End DataServiceFacts.

(* ------------------------------------------------------------------ *)
(** ** The data service against the scripted server *)

Section DataServiceExamples.
Import Js Types Store Text ResourceService DynamicDataService Vocabulary Examples.
Local Existing Instance exampleBuiltins.
Local Existing Instance scriptedServer.

(** Counterexample to C1 as stated: [book] declares [title] and [pages],
    yet the sort column [nope], the filter key [x] and the payload key
    [oops] are written into the statements the server receives. *)
Lemma undeclared_identifiers_reach_sql :
  let w := scriptedWorld bookCatalog (mkScripted [] []) in
  map f_name (r_fields bookRow) = ["title"; "pages"]
  /\ received (server (fst (getData "book" strayOptions w)))
     = [(text (getData_query "dyn_book" strayOptions), [JStr "v"; JInt 50; JInt 0]);
        (text (getData_countQuery "dyn_book" strayOptions), [JStr "v"])]
  /\ text (getData_query "dyn_book" strayOptions)
     = "SELECT * FROM " ++ dq ++ "dyn_book" ++ dq
       ++ " WHERE " ++ dq ++ "x" ++ dq ++ " = $1"
       ++ " ORDER BY " ++ dq ++ "nope" ++ dq ++ " ASC LIMIT $2 OFFSET $3"
  /\ success (validateData strayPayload (r_fields bookRow) false) = true
  /\ received (server (fst (createData "book" strayPayload w)))
     = [(text (createData_query "dyn_book" strayPayload), [JStr "Dune"; JInt 3])]
  /\ text (createData_query "dyn_book" strayPayload)
     = nl ++ "          INSERT INTO " ++ dq ++ "dyn_book" ++ dq
       ++ " (" ++ dq ++ "title" ++ dq ++ ", " ++ dq ++ "oops" ++ dq ++ ")"
       ++ nl ++ "          VALUES ($1, $2)"
       ++ nl ++ "          RETURNING *"
       ++ nl ++ "        "
  /\ ~ In "nope" (map f_name (r_fields bookRow))
  /\ ~ In "x" (map f_name (r_fields bookRow))
  /\ ~ In "oops" (map f_name (r_fields bookRow)).
Proof.
  cbv zeta. repeat split; try reflexivity;
    simpl; intros [H | [H | []]]; discriminate.
Qed.

(** Witness of the amended C1: two payloads with the keys of the scenario
    and different values make the same statement text. *)
Lemma same_keys_same_text_witness :
  text (createData_query "dyn_book" [("title", JStr "Dune"); ("pages", JInt 412)])
  = text (createData_query "dyn_book" [("title", JStr "Emma"); ("pages", JInt 474)]).
Proof.
  apply (proj1 (values_only_through_placeholders "dyn_book")). reflexivity.
Defined.

(** C9 on the scenario: nulling the required [title] of a book. *)
Lemma update_null_witness :
  snd (updateData "book" 7 [("title", JNull)] (scriptedWorld bookCatalog strictBooks))
  = inr (failure "Failed to update data"
           "null value in column title of relation dyn_book violates not-null constraint").
Proof.
  rewrite (proj1 (proj2 (update_null_reaches_store (B := exampleBuiltins)
                           (P := scriptedServer)))
             "book" 7%Z "title"
             (scriptedWorld bookCatalog strictBooks) bookRow strictBooks strictBooks
             (mkScripted (refused strictBooks)
                [(text (updateData_query "dyn_book" 7 [("title", JNull)]),
                  [JNull; JInt 7])])
             (JsError "null value in column title of relation dyn_book violates not-null constraint"));
    try reflexivity.
  intros g [<- | [<- | []]] _; reflexivity.
Defined.

(** C8 on the scenario: three books asked for with limit 0 and page 0. *)
Lemma getData_zero_witness :
  snd (getData (P := tableServer) "book" (mkOptions (Some 0%Z) (Some 0%Z) None None None)
         (tableWorld bookCatalog threeBooks))
  = inr (success_with
           (DataPage threeBooks (mkPagination 1 50 (Some 3%Z) (Some 1%Z))) None).
Proof.
  destruct (@getData_zero_is_absent exampleBuiltins tableServer "book" no_options
              (tableWorld bookCatalog threeBooks)) as (_ & _ & _ & _ & _ & _ & Hrun).
  exact (f_equal snd (Hrun bookRow threeBooks threeBooks eq_refl eq_refl eq_refl)).
Defined.

End DataServiceExamples.

(* ------------------------------------------------------------------ *)
(** ** Pagination *)

Section SliceFacts.
Import Js Types.
Local Open Scope list_scope.

Lemma firstn_then_next {A} (a b : nat) :
  forall l : list A, firstn a l ++ firstn b (skipn a l) = firstn (a + b) l.
Proof.
  induction a as [| a IH]; intro l; simpl.
  - reflexivity.
  - destruct l as [| x l]; simpl.
    + rewrite firstn_nil. reflexivity.
    + rewrite IH. reflexivity.
Qed.

(** Consecutive slices of width [L] put end to end. *)
Lemma slices_cover {A} (L : nat) (l : list A) (T : nat) :
  flat_map (fun k => firstn L (skipn (k * L) l)) (seq 0 T) = firstn (T * L) l.
Proof.
  induction T as [| T IH].
  - reflexivity.
  - rewrite seq_S, flat_map_app, IH. simpl.
    rewrite app_nil_r, firstn_then_next.
    f_equal. lia.
Qed.

Lemma ceil_div_bounds (N L : Z) :
  (0 < L)%Z ->
  ((DynamicDataService.ceil_div N L - 1) * L < N
   /\ N <= DynamicDataService.ceil_div N L * L)%Z.
Proof.
  intro HL. unfold DynamicDataService.ceil_div.
  pose proof (Z.div_mod (- N) L) as Hdm.
  pose proof (Z.mod_pos_bound (- N) L HL) as Hmod.
  nia.
Qed.

End SliceFacts.

Section Pagination.
Import Js Types Store Text ResourceService DynamicDataService Vocabulary.
Context {B : Builtins} {P : Postgres}.
Local Open Scope Z_scope.

(** A resource that exists, on a server that is reachable and answers
    reads without changing: to the paged statement of [getData] it gives the
    slice that LIMIT and OFFSET cut out of [rows], the rows that match the
    filter in the requested order; to the count statement, their number. *)
Variables (w : World) (name : string) (r : ResourceRow) (base : QueryOptions).
Variables (rows : list Row) (countRow : Row) (countRest : list Row).

Hypothesis prisma_up : prisma_call (server w) = (server w, None).
Hypothesis resource_exists : find_resource name (catalog w) = Some r.
Hypothesis pool_up : pool_connect (server w) = (server w, None).
Hypothesis release_quiet : client_release (server w) = server w.
Hypothesis select_slices :
  forall lim off,
    0 <= lim -> 0 <= off ->
    client_query (text (page_statement (r_tableName r) base lim off))
      (values (page_statement (r_tableName r) base lim off)) (server w)
    = (server w, inr (firstn (Z.to_nat lim) (skipn (Z.to_nat off) rows))).
Hypothesis count_answers :
  client_query (text (count_statement (r_tableName r) base))
    (values (count_statement (r_tableName r) base)) (server w)
  = (server w, inr (countRow :: countRest)).
Hypothesis count_is_total :
  parseInt (get countRow "total") = Some (Z.of_nat (List.length rows)).

Lemma conditions_of_keys (keys : list string) :
  forall k,
    map (fun '(index, key) => quoted key ++ " = " ++ placeholder (index + 1))
        (indexed_from k keys)
    = sql_conditions (k + 1) keys.
Proof.
  induction keys as [| key keys IH]; intro k; [reflexivity | ].
  cbn [map indexed_from sql_conditions]. rewrite (IH (S k)). reflexivity.
Qed.

Lemma where_clause_written (o : QueryOptions) :
  where_clause (filter o) = sql_where (filter_entries o).
Proof.
  unfold filter_entries. destruct (filter o) as [[| entry entries] | ]; try reflexivity.
  unfold where_clause, sql_where. rewrite conditions_of_keys. reflexivity.
Qed.

Lemma filter_values_written (o : QueryOptions) :
  filter_values (filter o) = map snd (filter_entries o).
Proof. unfold filter_entries. destruct (filter o); reflexivity. Qed.

Lemma order_clause_written (o : QueryOptions) : order_clause o = sql_order o.
Proof.
  unfold order_clause, sql_order. destruct (sort o) as [column | ]; [ | reflexivity].
  destruct (String.eqb column EmptyString); [reflexivity | ].
  destruct (order o) as [[] | ]; reflexivity.
Qed.

(** The two statements of [getData] are the two written out. *)
Lemma getData_statements (tableName : string) (o : QueryOptions) :
  getData_query tableName o = page_statement tableName o (page_limit o) (page_offset o)
  /\ getData_countQuery tableName o = count_statement tableName o.
Proof.
  unfold getData_query, getData_countQuery, page_statement, count_statement.
  rewrite where_clause_written, filter_values_written, order_clause_written.
  rewrite length_map. split; reflexivity.
Qed.

Lemma getData_page (p l : option Z) :
  0 <= page_limit (paged base p l) -> 0 <= page_offset (paged base p l) ->
  getData name (paged base p l) w
  = (w, inr (success_with
               (DataPage
                  (firstn (Z.to_nat (page_limit (paged base p l)))
                     (skipn (Z.to_nat (page_offset (paged base p l))) rows))
                  (mkPagination (page_number (paged base p l)) (page_limit (paged base p l))
                     (Some (Z.of_nat (List.length rows)))
                     (Some (ceil_div (Z.of_nat (List.length rows))
                              (page_limit (paged base p l))))))
               None)).
Proof.
  intros Hl Ho.
  rewrite (@getData_run _ _ name (paged base p l) w r (server w) (server w)
             prisma_up resource_exists pool_up).
  cbv zeta.
  destruct (getData_statements (r_tableName r) (paged base p l)) as [-> ->].
  change (page_statement (r_tableName r) (paged base p l))
    with (page_statement (r_tableName r) base).
  change (count_statement (r_tableName r) (paged base p l))
    with (count_statement (r_tableName r) base).
  rewrite (select_slices Hl Ho).
  rewrite count_answers, count_is_total, release_quiet.
  destruct w. reflexivity.
Qed.

Lemma page_items (L : Z) (k : nat) :
  0 < L ->
  items_of (getData name (paged base (Some (Z.of_nat (S k))) (Some L)) w)
  = firstn (Z.to_nat L) (skipn (k * Z.to_nat L) rows).
Proof.
  intro HL.
  assert (Hlimit : page_limit (paged base (Some (Z.of_nat (S k))) (Some L)) = L).
  { unfold page_limit, paged. simpl.
    destruct (Z.eqb_spec L 0); [lia | reflexivity]. }
  assert (Hnumber : page_number (paged base (Some (Z.of_nat (S k))) (Some L)) = Z.of_nat (S k)).
  { unfold page_number, paged. cbn [page or_default].
    destruct (Z.eqb_spec (Z.of_nat (S k)) 0); [lia | reflexivity]. }
  assert (Hoffset : page_offset (paged base (Some (Z.of_nat (S k))) (Some L)) = Z.of_nat k * L).
  { unfold page_offset. rewrite Hlimit, Hnumber. lia. }
  rewrite getData_page by (rewrite ?Hlimit, ?Hoffset; nia).
  unfold items_of. cbn [snd success_with].
  rewrite Hlimit, Hoffset.
  rewrite Z2Nat.inj_mul, Nat2Z.id by lia. reflexivity.
Qed.


End Pagination.

Section PaginationExamples.
Import Js Types Store Text ResourceService DynamicDataService Vocabulary Examples.
Local Open Scope Z_scope.

(** The scenario of the specification: three books, one per page. *)
Example list_three_books_by_one :
  snd (getData (B := exampleBuiltins) (P := tableServer) "book"
         (paged no_options (Some 1) (Some 1)) (tableWorld bookCatalog threeBooks))
  = inr (success_with
           (DataPage [bookRecord 1 "Dune"] (mkPagination 1 1 (Some 3) (Some 3))) None).
Proof. reflexivity. Qed.


End PaginationExamples.

(* ------------------------------------------------------------------ *)
(** ** The catalog and the schema synchronizer *)

Section CatalogFacts.
Import Js Types Store Text ResourceService DynamicDataService Vocabulary Steps.
Context {B : Builtins} {P : Postgres}.

(** A [createResource] that does not answer with success has written
    nothing to the catalog, whatever made it fail. *)
Lemma createResource_failure_keeps_catalog (definition : ResourceDefinition) (w : World) :
  forall w' response,
    createResource definition w = (w', inr response) ->
    success response = false ->
    catalog w' = catalog w.
Proof.
  intros w' response. unfold createResource. run_catalog.
  destruct (prisma_call (server w)) as [s1 [e1 |]]; simpl.
  - intros [= <- <-] _. reflexivity.
  - destruct (find_resource (rd_name definition) (catalog w)) as [existing |]; simpl.
    + intros [= <- <-] _. reflexivity.
    + destruct (prisma_call s1) as [s2 [e2 |]]; simpl.
      * intros [= <- <-] _. reflexivity.
      * destruct (resource_create _ _ _ _ _ (catalog w)) as [e3 | [c' row]]; simpl.
        -- intros [= <- <-] _. reflexivity.
        -- destruct (createTable _ _ _) as [w3 [e4 | []]]; simpl.
           ++ intros [= <- <-] _. reflexivity.
           ++ destruct (prisma_call (server w3)) as [s5 [e5 |]]; simpl.
              ** intros [= <- <-] _. reflexivity.
              ** intros [= <- <-]. discriminate.
Qed.

(** C2. When the catalog write of [createResource] has gone through and
    the table creation then throws, the call answers with a failure that
    carries the message of the error, the catalog is as it was before the
    call, and a [getResource] of that name answers that the resource is not
    found. *)
Theorem failed_table_creation_keeps_catalog
    (definition : ResourceDefinition) (w w3 : World) (s1 s2 : Server)
    (c' : Catalog) (row : ResourceRow) (e : Thrown) :
  find_resource (rd_name definition) (catalog w) = None ->
  prisma_call (server w) = (s1, None) ->
  prisma_call s1 = (s2, None) ->
  metadata_write definition (catalog w) = inr (c', row) ->
  createTable (generateTableName (rd_name definition)) (rd_fields definition)
    (mkWorld c' s2) = (w3, inl e) ->
  createResource definition w
  = (mkWorld (catalog w) (server w3),
     inr (failure "Failed to create resource" (error_message e)))
  /\ catalog (fst (createResource definition w)) = catalog w
  /\ (forall s4,
        prisma_call (server w3) = (s4, None) ->
        getResource (rd_name definition) (fst (createResource definition w))
        = (mkWorld (catalog w) s4, inr (not_found (rd_name definition)))).
Proof.
  intros Habsent Hlookup Hcreate Hwrite Htable.
  assert (Hrun : createResource definition w
                 = (mkWorld (catalog w) (server w3),
                    inr (failure "Failed to create resource" (error_message e)))).
  { unfold createResource. run_catalog.
    rewrite Hlookup. simpl. rewrite Habsent. simpl. rewrite Hcreate. simpl.
    unfold metadata_write in Hwrite. rewrite Hwrite. simpl.
    rewrite Htable. reflexivity. }
  rewrite Hrun. simpl. repeat split.
  intros s4 Hget. unfold getResource. run_catalog.
  rewrite Hget. simpl. rewrite Habsent. reflexivity.
Qed.

End CatalogFacts.

(* ------------------------------------------------------------------ *)
(** ** Failures of the store at the service boundary *)

Section EnvelopeFacts.
Import Js Types Store Text ResourceService DynamicDataService Vocabulary Steps.
Context {B : Builtins} {P : Postgres}.

Lemma calls_resolve_and_report (definition : ResourceDefinition) (name : string) (id : Z)
    (data : JsObject) (options : QueryOptions) :
  Forall (fun call => resolves (fst call) /\ reports_engine_failure (fst call) (snd call))
    (service_calls definition name id data options).
Proof.
  unfold service_calls.
  repeat (apply Forall_cons; [split | ]); try apply Forall_nil;
    try (intro w; apply try_catch_resolves);
    intros w s' e Hengine; simpl.
  - unfold createResource. erewrite try_catch_rejected; [reflexivity |];
      apply bind_rejected, prisma_read_rejected, Hengine.
  - unfold getAllResources. erewrite try_catch_rejected; [reflexivity |];
      apply bind_rejected, prisma_read_rejected, Hengine.
  - unfold getResource. erewrite try_catch_rejected; [reflexivity |];
      apply bind_rejected, prisma_read_rejected, Hengine.
  - unfold updateResource. erewrite try_catch_rejected; [reflexivity |];
      apply bind_rejected, prisma_read_rejected, Hengine.
  - unfold deleteResource. erewrite try_catch_rejected; [reflexivity |];
      apply bind_rejected, prisma_read_rejected, Hengine.
  - unfold createData. erewrite try_catch_rejected; [reflexivity |];
      apply bind_rejected, prisma_read_rejected, Hengine.
  - unfold getData. erewrite try_catch_rejected; [reflexivity |];
      apply bind_rejected, prisma_read_rejected, Hengine.
  - unfold getDataById. erewrite try_catch_rejected; [reflexivity |];
      apply bind_rejected, prisma_read_rejected, Hengine.
  - unfold updateData. erewrite try_catch_rejected; [reflexivity |];
      apply bind_rejected, prisma_read_rejected, Hengine.
  - unfold deleteData. erewrite try_catch_rejected; [reflexivity |];
      apply bind_rejected, prisma_read_rejected, Hengine.
Qed.


End EnvelopeFacts.

(* ------------------------------------------------------------------ *)
(** ** Altering a column in place *)

Section SchemaFacts.
Import Js Types Store Text ResourceService Vocabulary Examples.
Context {B : Builtins}.

Lemma alter_action_is_no_action (field : FieldDefinition) :
  forallb (fun keyword => negb (String.prefix keyword (alter_action field)))
    alter_column_actions = true.
Proof.
  unfold alter_action.
  destruct (fd_type field); destruct (or_false (fd_isRequired field)); reflexivity.
Qed.

(** C4, on the code.  For a field that is stored and declared again, a
    change of type, [required] or [unique] sends one statement that puts a
    column definition (the mapped type, then NOT NULL when required) straight
    after ALTER COLUMN and the column name, followed by the statement that
    drops or creates the unique index when the flag changed; a field with no
    such change sends nothing.  The column definition never begins with one
    of the words with which an ALTER COLUMN action of PostgreSQL begins.  At
    the declaration of the scenario, making [pages] required sends the single
    statement shown. *)
Theorem alter_column_sends_a_column_definition :
  (forall tableName existingFields existing newField,
      map_get f_name existingFields (fd_name newField) = Some existing ->
      schema_statements_for tableName existingFields newField
      = if changed existing newField
        then ("ALTER TABLE " ++ quoted tableName ++ " ALTER COLUMN "
              ++ quoted (fd_name newField) ++ " " ++ alter_action newField)
             :: (if f_isUnique existing && negb (or_false (fd_isUnique newField))
                 then ["DROP INDEX IF EXISTS " ++ dq ++ tableName ++ "_"
                       ++ fd_name newField ++ "_unique" ++ dq]
                 else if negb (f_isUnique existing) && or_false (fd_isUnique newField)
                 then [unique_index_sql tableName (fd_name newField)]
                 else [])
        else [])
  /\ (forall field,
        forallb (fun keyword => negb (String.prefix keyword (alter_action field)))
          alter_column_actions = true)
  /\ updateTableSchema_statements "dyn_book" (r_fields bookRow)
       [titleField; requiredPagesField]
     = ["ALTER TABLE " ++ dq ++ "dyn_book" ++ dq ++ " ALTER COLUMN "
        ++ dq ++ "pages" ++ dq ++ " INTEGER NOT NULL"]
  /\ updateTableSchema_statements "dyn_book" (r_fields bookRow) [titleField; pagesField]
     = [].
Proof.
  repeat split.
  - intros tableName existingFields existing newField Hget.
    unfold schema_statements_for, changed, columnDef, alter_action.
    rewrite Hget.
    destruct (negb _ || negb _ || negb _); reflexivity.
  - apply alter_action_is_no_action.
Qed.

End SchemaFacts.

Section CatalogExamples.
Import Js Types Store Text ResourceService DynamicDataService Vocabulary Examples.

(** Witness of C2: declaring [book] while a table [dyn_book] is in the
    way. *)
Lemma failed_table_creation_witness :
  catalog (fst (createResource (B := exampleBuiltins) (P := scriptedServer)
                  bookDefinition (scriptedWorld empty_catalog occupied)))
  = empty_catalog
  /\ snd (getResource (P := scriptedServer) "book"
            (fst (createResource (B := exampleBuiltins) (P := scriptedServer)
                    bookDefinition (scriptedWorld empty_catalog occupied))))
     = inr (not_found "book").
Proof.
  edestruct (@failed_table_creation_keeps_catalog exampleBuiltins scriptedServer
               bookDefinition (scriptedWorld empty_catalog occupied))
    as (_ & Hcatalog & Hget);
    [reflexivity | reflexivity | reflexivity | reflexivity | reflexivity |].
  split.
  - exact Hcatalog.
  - exact (f_equal snd (Hget _ eq_refl)).
Defined.


End CatalogExamples.

(* ------------------------------------------------------------------ *)
(** ** More on the catalog: what is written, and what is left alone *)

Section CatalogKeeping.
Import Js Types Store Text ResourceService DynamicDataService Vocabulary Further.
Context {B : Builtins} {P : Postgres}.

Lemma keeps_ret {A} (a : A) : keeps_catalog (ret a).
Proof. intro w. reflexivity. Qed.

Lemma keeps_throw {A} (e : Thrown) : keeps_catalog (@throw _ A e).
Proof. intro w. reflexivity. Qed.

Lemma keeps_bind {A C} (m : M A) (k : A -> M C) :
  keeps_catalog m -> (forall a, keeps_catalog (k a)) -> keeps_catalog (bind m k).
Proof.
  intros Hm Hk w. unfold bind. specialize (Hm w).
  destruct (m w) as [w' [e | a]]; simpl in *.
  - exact Hm.
  - rewrite Hk. exact Hm.
Qed.

Lemma keeps_try_catch {A} (body : M A) (handler : Thrown -> A) :
  keeps_catalog body -> keeps_catalog (try_catch body handler).
Proof.
  intros Hb w. unfold try_catch. specialize (Hb w).
  destruct (body w) as [w' [e | a]]; exact Hb.
Qed.

Lemma keeps_release {A} (body : M A) :
  keeps_catalog body -> keeps_catalog (try_finally_release body).
Proof.
  intros Hb w. unfold try_finally_release. specialize (Hb w).
  destruct (body w) as [w' r]. exact Hb.
Qed.

Lemma keeps_on_server {A} (f : Server -> Server * (Thrown + A)) :
  keeps_catalog (on_server f).
Proof.
  intro w. unfold on_server. destruct (f (server w)). reflexivity.
Qed.

Lemma keeps_gate (f : Server -> Server * option Thrown) : keeps_catalog (gate f).
Proof. apply keeps_on_server. Qed.

Lemma keeps_prisma_read {A} (f : Catalog -> A) : keeps_catalog (prisma_read f).
Proof.
  unfold prisma_read. apply keeps_bind.
  - apply keeps_gate.
  - intros _ w. reflexivity.
Qed.

Lemma keeps_run_statements (statements : list string) :
  keeps_catalog (run_statements statements).
Proof. intro w. apply run_statements_catalog. Qed.

Lemma keeps_createTable (tableName : string) (fields : list FieldDefinition) :
  keeps_catalog (createTable tableName fields).
Proof.
  unfold createTable. apply keeps_bind; [apply keeps_gate | intros _].
  apply keeps_release, keeps_run_statements.
Qed.

Lemma keeps_dropTable (tableName : string) : keeps_catalog (dropTable tableName).
Proof.
  unfold dropTable. apply keeps_bind; [apply keeps_gate | intros _].
  apply keeps_release, keeps_run_statements.
Qed.

(** A statement after a client was connected, answered from its rows. *)
Lemma keeps_statement {A} (q : Query) (k : list Row -> M A) :
  (forall rows, keeps_catalog (k rows)) ->
  keeps_catalog (bind connect (fun _ => try_finally_release (bind (send q) k))).
Proof.
  intro Hk. apply keeps_bind; [apply keeps_gate | intros _].
  apply keeps_release, keeps_bind; [apply keeps_on_server | exact Hk].
Qed.

(** X1. The data operations and the two reading operations of the catalog
    never change the catalog, on any world and whatever the server answers
    or throws. *)
Theorem reads_and_data_keep_catalog
    (name : string) (id : Z) (data : JsObject) (options : QueryOptions) :
  keeps_catalog getAllResources
  /\ keeps_catalog (getResource name)
  /\ keeps_catalog (createData name data)
  /\ keeps_catalog (getData name options)
  /\ keeps_catalog (getDataById name id)
  /\ keeps_catalog (updateData name id data)
  /\ keeps_catalog (deleteData name id).
Proof.
  repeat split.
  - apply keeps_try_catch, keeps_bind; [apply keeps_prisma_read | intros rs; apply keeps_ret].
  - apply keeps_try_catch, keeps_bind; [apply keeps_prisma_read |].
    intros [r |]; apply keeps_ret.
  - apply keeps_try_catch, keeps_bind; [apply keeps_prisma_read |].
    intros [r |]; [| apply keeps_ret]. cbv zeta.
    destruct (negb (success (validateData data (r_fields r) false)));
      [apply keeps_ret |].
    apply keeps_statement. intros rows. apply keeps_ret.
  - apply keeps_try_catch, keeps_bind; [apply keeps_prisma_read |].
    intros [r |]; [| apply keeps_ret].
    apply keeps_statement. intros rows.
    apply keeps_bind; [apply keeps_on_server |].
    intros [| first rest]; [apply keeps_throw | apply keeps_ret].
  - apply keeps_try_catch, keeps_bind; [apply keeps_prisma_read |].
    intros [r |]; [| apply keeps_ret].
    apply keeps_statement. intros [| row rest]; apply keeps_ret.
  - apply keeps_try_catch, keeps_bind; [apply keeps_prisma_read |].
    intros [r |]; [| apply keeps_ret]. cbv zeta.
    destruct (negb (success (validateData data (r_fields r) true)));
      [apply keeps_ret |].
    apply keeps_statement. intros [| row rest]; apply keeps_ret.
  - apply keeps_try_catch, keeps_bind; [apply keeps_prisma_read |].
    intros [r |]; [| apply keeps_ret].
    apply keeps_statement. intros [| row rest]; apply keeps_ret.
Qed.

Lemma findUnique_catalog (name : string) (inc : Include) (w w' : World)
    (r : Thrown + option ResourceRow) :
  findUnique name inc w = (w', r) -> catalog w' = catalog w.
Proof.
  intro H. pose proof (keeps_prisma_read
                         (fun c => option_map (included inc) (find_resource name c)) w) as K.
  unfold findUnique in H. rewrite H in K. exact K.
Qed.

Lemma transaction_rolls_back {A} (body : M A) (w w' : World) (e : Thrown) :
  transaction body w = (w', inl e) -> catalog w' = catalog w.
Proof.
  intro H. pose proof (@transaction_catalog _ _ body w e) as K.
  rewrite H in K. apply K. reflexivity.
Qed.

(** X2. Each of the three writing operations of the catalog is all or
    nothing: when the response is not a success, whatever failed (the lookup,
    a catalog write, a statement of the schema change, the commit), the
    catalog is exactly what it was before the call. *)
Theorem catalog_writes_are_atomic (name : string) (definition : ResourceDefinition) :
  forall call,
    In call [createResource definition; updateResource name definition;
             deleteResource name] ->
    forall w w' response,
      call w = (w', inr response) ->
      success response = false ->
      catalog w' = catalog w.
Proof.
  intros call [<- | [<- | [<- | []]]] w w' response Hcall Hfail.
  - unfold createResource, try_catch, bind in Hcall.
    destruct (findUnique (rd_name definition) NoFields w) as [w1 [e | [r |]]] eqn:L;
      apply findUnique_catalog in L.
    + injection Hcall as <- _. exact L.
    + injection Hcall as <- _. exact L.
    + destruct (transaction _ w1) as [w2 [e | a]] eqn:T.
      * apply transaction_rolls_back in T. injection Hcall as <- _. congruence.
      * injection Hcall as _ <-. discriminate.
  - unfold updateResource, try_catch, bind in Hcall.
    destruct (findUnique name FieldsByOrder w) as [w1 [e | [r |]]] eqn:L;
      apply findUnique_catalog in L.
    + injection Hcall as <- _. exact L.
    + destruct (transaction _ w1) as [w2 [e | a]] eqn:T.
      * apply transaction_rolls_back in T. injection Hcall as <- _. congruence.
      * injection Hcall as _ <-. discriminate.
    + injection Hcall as <- _. exact L.
  - unfold deleteResource, try_catch, bind in Hcall.
    destruct (findUnique name NoFields w) as [w1 [e | [r |]]] eqn:L;
      apply findUnique_catalog in L.
    + injection Hcall as <- _. exact L.
    + destruct (transaction _ w1) as [w2 [e | a]] eqn:T.
      * apply transaction_rolls_back in T. injection Hcall as <- _. congruence.
      * injection Hcall as _ <-. discriminate.
    + injection Hcall as <- _. exact L.
Qed.

End CatalogKeeping.

(* ------------------------------------------------------------------ *)
(** ** Declaring, declaring again, deleting *)

Section DefineFacts.
Import Js Types Store Text ResourceService DynamicDataService Vocabulary Further Steps.
Context {B : Builtins} {P : Postgres}.

Lemma find_none_of_existsb {A} (f : A -> bool) (l : list A) :
  existsb f l = false -> find f l = None.
Proof.
  induction l as [| a l IH]; simpl; [reflexivity |].
  destruct (f a); simpl; [discriminate | exact IH].
Qed.

Lemma find_after {A} (f : A -> bool) (l : list A) (a : A) :
  find f l = None -> f a = true -> find f (l ++ [a]) = Some a.
Proof.
  induction l as [| b l IH]; simpl; intros Hl Ha.
  - rewrite Ha. reflexivity.
  - destruct (f b); [discriminate | apply IH; assumption].
Qed.

Lemma find_before {A} (f : A -> bool) (l : list A) (a : A) :
  f a = false -> find f (l ++ [a]) = find f l.
Proof.
  intro Ha. induction l as [| b l IH]; simpl.
  - rewrite Ha. reflexivity.
  - destruct (f b); [reflexivity | exact IH].
Qed.

(** Fields numbered in the order of the declaration are already in the
    order [orderBy] asks for. *)
Lemma order_fields_numbered (fields : list FieldDefinition) :
  forall index id,
    order_fields
      (number_fields id (map (fun '(i, field) => field_data i field)
                             (indexed_from index fields)))
    = number_fields id (map (fun '(i, field) => field_data i field)
                            (indexed_from index fields)).
Proof.
  induction fields as [| field fields IH]; intros index id; simpl.
  - reflexivity.
  - unfold order_fields in *. simpl. rewrite IH.
    destruct fields as [| next fields]; simpl.
    + reflexivity.
    + replace (Nat.leb index (S index)) with true
        by (symmetry; apply Nat.leb_le; lia).
      reflexivity.
Qed.

Lemma number_fields_names (ds : list FieldData) :
  forall id, map f_name (number_fields id ds) = map d_name ds.
Proof.
  induction ds as [| d ds IH]; intro id; simpl; [reflexivity |].
  rewrite IH. reflexivity.
Qed.

Lemma field_data_names (fields : list FieldDefinition) :
  forall index,
    map d_name (map (fun '(i, field) => field_data i field) (indexed_from index fields))
    = map fd_name fields.
Proof.
  induction fields as [| field fields IH]; intro index; simpl; [reflexivity |].
  rewrite IH. reflexivity.
Qed.

(** What a catalog write that went through has written. *)
Lemma metadata_write_written (definition : ResourceDefinition) (c c' : Catalog)
    (row : ResourceRow) :
  metadata_write definition c = inr (c', row) ->
  find_resource (rd_name definition) c = None
  /\ find_resource (rd_name definition) c' = Some row
  /\ (forall other, other <> rd_name definition ->
        find_resource other c' = find_resource other c)
  /\ with_ordered_fields row = row
  /\ r_name row = rd_name definition
  /\ r_tableName row = generateTableName (rd_name definition)
  /\ map f_name (r_fields row) = map fd_name (rd_fields definition).
Proof.
  unfold metadata_write, resource_create.
  destruct (existsb (fun r => String.eqb (r_name r) (rd_name definition)) (resources c))
    eqn:Hname; [discriminate |].
  destruct (existsb (fun r => String.eqb (r_tableName r) _) (resources c));
    [discriminate |].
  destruct (has_duplicate _); [discriminate |].
  cbv zeta. intro H. injection H as <- <-.
  assert (Habsent : find_resource (rd_name definition) c = None)
    by (apply find_none_of_existsb; exact Hname).
  repeat split.
  - exact Habsent.
  - unfold find_resource. simpl. apply find_after; [exact Habsent |].
    simpl. apply String.eqb_refl.
  - intros other Hother. unfold find_resource. simpl. apply find_before.
    simpl. apply String.eqb_neq. congruence.
  - unfold with_ordered_fields. simpl. rewrite order_fields_numbered. reflexivity.
  - simpl. rewrite number_fields_names, field_data_names. reflexivity.
Qed.

Lemma createTable_resolved_catalog (tableName : string) (fields : list FieldDefinition)
    (w w' : World) (r : Thrown + unit) :
  createTable tableName fields w = (w', r) -> catalog w' = catalog w.
Proof.
  intro H. pose proof (keeps_createTable tableName fields w) as K.
  rewrite H in K. exact K.
Qed.

(** What [createResource] answers when every step goes through. *)
Lemma createResource_run (definition : ResourceDefinition) (w w3 : World)
    (s1 s2 s4 : Server) (c' : Catalog) (row : ResourceRow) :
  prisma_call (server w) = (s1, None) ->
  prisma_call s1 = (s2, None) ->
  metadata_write definition (catalog w) = inr (c', row) ->
  createTable (generateTableName (rd_name definition)) (rd_fields definition)
    (mkWorld c' s2) = (w3, inr tt) ->
  prisma_call (server w3) = (s4, None) ->
  createResource definition w
  = (mkWorld c' s4,
     inr (success_with (DataResource row)
            (Some ("Resource '" ++ rd_name definition ++ "' created successfully")))).
Proof.
  intros Hlookup Hcreate Hwrite Htable Hcommit.
  pose proof (@createTable_resolved_catalog _ _ _ _ _ Htable) as Hc. simpl in Hc.
  destruct (@metadata_write_written _ _ _ _ Hwrite) as (Habsent & _).
  unfold createResource. run_catalog.
  rewrite Hlookup. simpl. rewrite Habsent. simpl. rewrite Hcreate. simpl.
  unfold metadata_write in Hwrite. rewrite Hwrite. simpl.
  rewrite Htable. simpl. rewrite Hcommit. simpl. rewrite Hc. reflexivity.
Qed.

(** X3. Declare, then read back.  When the catalog accepts the declaration,
    the table is created and the transaction commits, [createResource]
    answers with the stored declaration, and a [getResource] of that name
    then returns the same declaration: its table name is [dyn_] followed by
    the lower-cased name, and its fields carry the declared names in the
    declared order. *)
Theorem define_then_get (definition : ResourceDefinition) (w w3 : World)
    (s1 s2 s4 s5 : Server) (c' : Catalog) (row : ResourceRow) :
  prisma_call (server w) = (s1, None) ->
  prisma_call s1 = (s2, None) ->
  metadata_write definition (catalog w) = inr (c', row) ->
  createTable (generateTableName (rd_name definition)) (rd_fields definition)
    (mkWorld c' s2) = (w3, inr tt) ->
  prisma_call (server w3) = (s4, None) ->
  prisma_call s4 = (s5, None) ->
  snd (createResource definition w)
  = inr (success_with (DataResource row)
           (Some ("Resource '" ++ rd_name definition ++ "' created successfully")))
  /\ getResource (rd_name definition) (fst (createResource definition w))
     = (mkWorld c' s5, inr (success_with (DataResource row) None))
  /\ r_tableName row = "dyn_" ++ toLowerCase (rd_name definition)
  /\ map f_name (r_fields row) = map fd_name (rd_fields definition).
Proof.
  intros Hlookup Hcreate Hwrite Htable Hcommit Hget.
  rewrite (@createResource_run definition w w3 s1 s2 s4 c' row
             Hlookup Hcreate Hwrite Htable Hcommit).
  destruct (@metadata_write_written _ _ _ _ Hwrite) as (_ & Hfound & _ & Hordered & _ & Ht & Hn).
  repeat split; try assumption.
  unfold getResource. run_catalog.
  rewrite Hget. simpl. rewrite Hfound. simpl.
  unfold included. rewrite Hordered. reflexivity.
Qed.

(** X4. Declaring a name twice.  After a declaration that went through, a
    second [createResource] under the same name, whatever its fields, is
    answered with [Resource already exists]; it writes nothing to the catalog
    and sends nothing through the pool. *)
Theorem define_twice (definition again : ResourceDefinition) (w w3 : World)
    (s1 s2 s4 s5 : Server) (c' : Catalog) (row : ResourceRow) :
  prisma_call (server w) = (s1, None) ->
  prisma_call s1 = (s2, None) ->
  metadata_write definition (catalog w) = inr (c', row) ->
  createTable (generateTableName (rd_name definition)) (rd_fields definition)
    (mkWorld c' s2) = (w3, inr tt) ->
  prisma_call (server w3) = (s4, None) ->
  prisma_call s4 = (s5, None) ->
  rd_name again = rd_name definition ->
  createResource again (fst (createResource definition w))
  = (mkWorld c' s5,
     inr (failure "Resource already exists"
            ("Resource '" ++ rd_name definition ++ "' already exists"))).
Proof.
  intros Hlookup Hcreate Hwrite Htable Hcommit Hget Hname.
  rewrite (@createResource_run definition w w3 s1 s2 s4 c' row
             Hlookup Hcreate Hwrite Htable Hcommit).
  destruct (@metadata_write_written _ _ _ _ Hwrite) as (_ & Hfound & _).
  unfold createResource. run_catalog. rewrite Hname.
  rewrite Hget. simpl. rewrite Hfound. reflexivity.
Qed.

Lemma lower_ascii_idempotent (c : ascii) : lower_ascii (lower_ascii c) = lower_ascii c.
Proof.
  destruct c as [[] [] [] [] [] [] [] []]; reflexivity.
Qed.

Lemma toLowerCase_idempotent (s : string) : toLowerCase (toLowerCase s) = toLowerCase s.
Proof.
  induction s as [| c s IH]; simpl; [reflexivity |].
  rewrite lower_ascii_idempotent, IH. reflexivity.
Qed.

Lemma existsb_of_member {A} (f : A -> bool) (l : list A) (a : A) :
  In a l -> f a = true -> existsb f l = true.
Proof.
  intros Hin Ha. apply existsb_exists. exists a. split; assumption.
Qed.

(** What [createResource] answers when the catalog refuses the write. *)
Lemma createResource_refused (definition : ResourceDefinition) (w : World)
    (s1 s2 : Server) (e : Thrown) :
  prisma_call (server w) = (s1, None) ->
  prisma_call s1 = (s2, None) ->
  find_resource (rd_name definition) (catalog w) = None ->
  metadata_write definition (catalog w) = inl e ->
  createResource definition w
  = (mkWorld (catalog w) s2,
     inr (failure "Failed to create resource" (error_message e))).
Proof.
  intros Hlookup Hcreate Habsent Hwrite.
  unfold createResource. run_catalog.
  rewrite Hlookup. simpl. rewrite Habsent. simpl. rewrite Hcreate. simpl.
  unfold metadata_write in Hwrite. rewrite Hwrite. reflexivity.
Qed.

(** What [createResource] answers when the name is taken. *)
Lemma createResource_existing (definition : ResourceDefinition) (w : World)
    (s1 : Server) (existing : ResourceRow) :
  prisma_call (server w) = (s1, None) ->
  find_resource (rd_name definition) (catalog w) = Some existing ->
  createResource definition w
  = (mkWorld (catalog w) s1,
     inr (failure "Resource already exists"
            ("Resource '" ++ rd_name definition ++ "' already exists"))).
Proof.
  intros Hlookup Hfound.
  unfold createResource. run_catalog.
  rewrite Hlookup. simpl. rewrite Hfound. reflexivity.
Qed.

(** What [createResource] answers when the table creation throws. *)
Lemma createResource_table_failed (definition : ResourceDefinition) (w w3 : World)
    (s1 s2 : Server) (c' : Catalog) (row : ResourceRow) (e : Thrown) :
  prisma_call (server w) = (s1, None) ->
  prisma_call s1 = (s2, None) ->
  metadata_write definition (catalog w) = inr (c', row) ->
  createTable (generateTableName (rd_name definition)) (rd_fields definition)
    (mkWorld c' s2) = (w3, inl e) ->
  createResource definition w
  = (mkWorld (catalog w) (server w3),
     inr (failure "Failed to create resource" (error_message e))).
Proof.
  intros Hlookup Hcreate Hwrite Htable.
  destruct (@metadata_write_written _ _ _ _ Hwrite) as (Habsent & _).
  unfold createResource. run_catalog.
  rewrite Hlookup. simpl. rewrite Habsent. simpl. rewrite Hcreate. simpl.
  unfold metadata_write in Hwrite. rewrite Hwrite. simpl.
  rewrite Htable. reflexivity.
Qed.

(** X5. Names that differ only in case share a table.  The table name does
    not depend on the case of the resource name; so when a stored resource
    has the table name of a new declaration under another name, the catalog
    refuses the declaration on its unique index of table names:
    [createResource] fails with that error, the catalog is unchanged, and
    the server has seen the two round trips of the catalog and no statement
    of a table. *)
Theorem case_variants_collide (definition : ResourceDefinition) (w : World)
    (s1 s2 : Server) (stored : ResourceRow) :
  prisma_call (server w) = (s1, None) ->
  prisma_call s1 = (s2, None) ->
  find_resource (rd_name definition) (catalog w) = None ->
  In stored (resources (catalog w)) ->
  r_tableName stored = generateTableName (r_name stored) ->
  toLowerCase (r_name stored) = toLowerCase (rd_name definition) ->
  generateTableName (toLowerCase (rd_name definition)) = generateTableName (rd_name definition)
  /\ r_tableName stored = generateTableName (rd_name definition)
  /\ createResource definition w
     = (mkWorld (catalog w) s2,
        inr (failure "Failed to create resource"
               (error_message (unique_violation "tableName")))).
Proof.
  intros Hlookup Hcreate Habsent Hin Htable Hcase.
  assert (Hsame : r_tableName stored = generateTableName (rd_name definition)).
  { rewrite Htable. unfold generateTableName. rewrite Hcase. reflexivity. }
  repeat split.
  - unfold generateTableName. rewrite toLowerCase_idempotent. reflexivity.
  - exact Hsame.
  - apply (@createResource_refused definition w s1 s2 _ Hlookup Hcreate Habsent).
    unfold metadata_write, resource_create.
    destruct (existsb (fun r => String.eqb (r_name r) (rd_name definition))
                (resources (catalog w))) eqn:Hname.
    + apply existsb_exists in Hname as (r & Hr & Heq).
      apply String.eqb_eq in Heq.
      unfold find_resource in Habsent.
      pose proof (find_none _ _ Habsent r Hr) as Hnone. simpl in Hnone.
      rewrite Heq, String.eqb_refl in Hnone. discriminate.
    + rewrite (existsb_of_member _ _ stored Hin); [reflexivity |].
      simpl. apply String.eqb_eq. exact Hsame.
Qed.

(** X6. Two fields of one name.  A declaration that names a field twice is
    refused by the catalog on its unique index of field names, whatever else
    it declares: [createResource] fails with that error, the catalog is
    unchanged and no statement of a table is sent. *)
Theorem duplicate_field_names_refused (definition : ResourceDefinition) (w : World)
    (s1 s2 : Server) :
  prisma_call (server w) = (s1, None) ->
  prisma_call s1 = (s2, None) ->
  find_resource (rd_name definition) (catalog w) = None ->
  existsb (fun r => String.eqb (r_tableName r) (generateTableName (rd_name definition)))
    (resources (catalog w)) = false ->
  has_duplicate (map fd_name (rd_fields definition)) = true ->
  createResource definition w
  = (mkWorld (catalog w) s2,
     inr (failure "Failed to create resource"
            (error_message (unique_violation "resourceId,name")))).
Proof.
  intros Hlookup Hcreate Habsent Hfree Hdup.
  apply (@createResource_refused definition w s1 s2 _ Hlookup Hcreate Habsent).
  unfold metadata_write, resource_create.
  destruct (existsb (fun r => String.eqb (r_name r) (rd_name definition))
              (resources (catalog w))) eqn:Hname.
  - apply existsb_exists in Hname as (r & Hr & Heq).
    apply String.eqb_eq in Heq.
    unfold find_resource in Habsent.
    pose proof (find_none _ _ Habsent r Hr) as Hnone. simpl in Hnone.
    rewrite Heq, String.eqb_refl in Hnone. discriminate.
  - rewrite Hfree, field_data_names, Hdup. reflexivity.
Qed.

Lemma find_filtered_out (name : string) (l : list ResourceRow) :
  find (fun r => String.eqb (r_name r) name)
       (List.filter (fun r => negb (String.eqb (r_name r) name)) l) = None.
Proof.
  induction l as [| r l IH]; simpl; [reflexivity |].
  destruct (String.eqb (r_name r) name) eqn:E; simpl; [exact IH |].
  rewrite E. exact IH.
Qed.

Lemma find_filtered_other (name other : string) (l : list ResourceRow) :
  other <> name ->
  find (fun r => String.eqb (r_name r) other)
       (List.filter (fun r => negb (String.eqb (r_name r) name)) l)
  = find (fun r => String.eqb (r_name r) other) l.
Proof.
  intro Hother. induction l as [| r l IH]; simpl; [reflexivity |].
  destruct (String.eqb (r_name r) name) eqn:E; simpl.
  - apply String.eqb_eq in E.
    replace (String.eqb (r_name r) other) with false; [exact IH |].
    symmetry. apply String.eqb_neq. congruence.
  - destruct (String.eqb (r_name r) other); [reflexivity | exact IH].
Qed.

(** X7. Delete, then ask again.  When the resource exists, the table is
    dropped and the transaction commits, [deleteResource] answers with
    success, the catalog has lost exactly that resource, and a later list
    request or [getResource] under the name is answered with
    [Resource not found]. *)
Theorem delete_then_ask (name : string) (options : QueryOptions) (w w3 : World)
    (s1 s2 s4 s5 : Server) (r : ResourceRow) :
  prisma_call (server w) = (s1, None) ->
  find_resource name (catalog w) = Some r ->
  prisma_call s1 = (s2, None) ->
  dropTable (r_tableName r) (mkWorld (without name (catalog w)) s2) = (w3, inr tt) ->
  prisma_call (server w3) = (s4, None) ->
  prisma_call s4 = (s5, None) ->
  deleteResource name w
  = (mkWorld (without name (catalog w)) s4,
     inr (mkResponse true None None
            (Some ("Resource '" ++ name ++ "' deleted successfully"))))
  /\ find_resource name (without name (catalog w)) = None
  /\ (forall other, other <> name ->
        find_resource other (without name (catalog w))
        = find_resource other (catalog w))
  /\ getData name options (fst (deleteResource name w))
     = (mkWorld (without name (catalog w)) s5, inr (not_found name))
  /\ getResource name (fst (deleteResource name w))
     = (mkWorld (without name (catalog w)) s5, inr (not_found name)).
Proof.
  intros Hlookup Hfound Hdelete Hdrop Hcommit Hask.
  assert (Hc : catalog w3 = without name (catalog w)).
  { pose proof (keeps_dropTable (r_tableName r)
                  (mkWorld (without name (catalog w)) s2)) as K.
    rewrite Hdrop in K. exact K. }
  assert (Hgone : find_resource name (without name (catalog w)) = None)
    by apply find_filtered_out.
  assert (Hrun : deleteResource name w
                 = (mkWorld (without name (catalog w)) s4,
                    inr (mkResponse true None None
                           (Some ("Resource '" ++ name ++ "' deleted successfully"))))).
  { unfold deleteResource. run_catalog.
    rewrite Hlookup. simpl. rewrite Hfound. simpl. rewrite Hdelete. simpl.
    unfold resource_delete. rewrite Hfound. simpl.
    fold (without name (catalog w)). rewrite Hdrop. simpl.
    rewrite Hcommit. simpl. rewrite Hc. reflexivity. }
  rewrite Hrun. simpl. repeat split.
  - exact Hgone.
  - intros other Hother. apply find_filtered_other. exact Hother.
  - unfold getData. run_service. rewrite Hask. simpl. rewrite Hgone. reflexivity.
  - unfold getResource. run_catalog. rewrite Hask. simpl. rewrite Hgone. reflexivity.
Qed.

End DefineFacts.

(* ------------------------------------------------------------------ *)
(** ** More on the schema synchronizer: what is sent, and when it stops *)

Section StatementFacts.
Import Js Types Store Text ResourceService DynamicDataService Vocabulary Further Steps.
Context {B : Builtins} {P : Postgres}.

Lemma run_statements_app (pre rest : list string) (w w1 : World) :
  run_statements pre w = (w1, inr tt) ->
  run_statements (pre ++ rest) w = run_statements rest w1.
Proof.
  revert w. induction pre as [| text pre IH]; intros w H; simpl in *.
  - injection H as <-. reflexivity.
  - unfold bind in *.
    destruct (query text [] w) as [w' [e | rows]]; [discriminate |].
    apply IH. exact H.
Qed.

(** X8. The statements of a schema change are sent one by one and the first
    one the server refuses is the last one sent: the run rejects with its
    error, in the state the server was left in by that statement, whatever
    statements were still to come.  [createTable] then releases its client
    and rejects with the same error. *)
Theorem statements_stop_at_first_failure (pre post : list string) (refused : string)
    (w w1 : World) (s2 : Server) (e : Thrown) :
  run_statements pre w = (w1, inr tt) ->
  client_query refused [] (server w1) = (s2, inl e) ->
  run_statements (pre ++ refused :: post) w = (mkWorld (catalog w1) s2, inl e)
  /\ (forall tableName fields w0 s0,
        pool_connect (server w0) = (s0, None) ->
        w = mkWorld (catalog w0) s0 ->
        createTable_statements tableName fields = (pre ++ refused :: post)%list ->
        createTable tableName fields w0
        = (mkWorld (catalog w1) (client_release s2), inl e)).
Proof.
  intros Hpre Hrefused.
  assert (Hrun : run_statements (pre ++ refused :: post) w
                 = (mkWorld (catalog w1) s2, inl e)).
  { rewrite (@run_statements_app pre (refused :: post) w w1 Hpre). simpl.
    unfold bind, query, on_server. rewrite Hrefused. reflexivity. }
  split; [exact Hrun |].
  intros tableName fields w0 s0 Hconnect Hw Hstatements.
  unfold createTable, bind, connect, gate, on_server, try_finally_release.
  rewrite Hconnect, Hstatements, <- Hw, Hrun. reflexivity.
Qed.

Lemma find_unique_key {A} (key : A -> string) (l : list A) (a : A) :
  NoDup (map key l) -> In a l ->
  find (fun x => String.eqb (key x) (key a)) l = Some a.
Proof.
  induction l as [| x l IH]; simpl; intros Hnd Hin; [destruct Hin |].
  inversion Hnd as [| ? ? Hx Hl]; subst.
  destruct Hin as [-> | Hin].
  - rewrite String.eqb_refl. reflexivity.
  - replace (String.eqb (key x) (key a)) with false.
    + apply IH; assumption.
    + symmetry. apply String.eqb_neq. intro E. apply Hx. rewrite E.
      apply in_map. exact Hin.
Qed.

Lemma map_get_unique {A} (key : A -> string) (l : list A) (a : A) :
  NoDup (map key l) -> In a l -> map_get key l (key a) = Some a.
Proof.
  intros Hnd Hin. unfold map_get. apply find_unique_key.
  - rewrite map_rev. apply NoDup_rev. exact Hnd.
  - apply in_rev in Hin. exact Hin.
Qed.

Lemma FieldType_eqb_refl (t : FieldType) : FieldType_eqb t t = true.
Proof. apply String.eqb_refl. Qed.

Lemma filter_none {A} (f : A -> bool) (l : list A) :
  (forall a, In a l -> f a = false) -> List.filter f l = [].
Proof.
  induction l as [| a l IH]; simpl; intro H; [reflexivity |].
  rewrite (H a) by (left; reflexivity).
  apply IH. intros b Hb. apply H. right. exact Hb.
Qed.

Lemma flat_map_none {A C} (f : A -> list C) (l : list A) :
  (forall a, In a l -> f a = []) -> flat_map f l = [].
Proof.
  induction l as [| a l IH]; simpl; intro H; [reflexivity |].
  rewrite (H a) by (left; reflexivity). simpl.
  apply IH. intros b Hb. apply H. right. exact Hb.
Qed.

(** X9. A declaration that asks for the columns the table has sends nothing.
    When every declared field has a stored field of the same name, type,
    nullability and uniqueness, and every stored field is declared, no
    statement is sent: not for another order of the fields, and not for
    another display name, default value or set of validation rules, so a
    changed default never reaches the table. *)
Theorem same_columns_send_nothing (tableName : string) (stored : list FieldRow)
    (declared : list FieldDefinition) :
  NoDup (map f_name stored) ->
  (forall d, In d declared -> exists f, In f stored /\ same_column f d) ->
  (forall f, In f stored -> map_has fd_name declared (f_name f) = true) ->
  updateTableSchema_statements tableName stored declared = [].
Proof.
  intros Hnd Hdeclared Hstored.
  unfold updateTableSchema_statements, drop_column_statements.
  rewrite filter_none.
  - simpl. apply flat_map_none. intros d Hd.
    destruct (Hdeclared d Hd) as (f & Hf & Hname & Htype & Hreq & Huniq).
    unfold schema_statements_for.
    rewrite Hname, (@map_get_unique _ f_name stored f Hnd Hf).
    rewrite Htype, Hreq, Huniq, FieldType_eqb_refl, !Bool.eqb_reflx. reflexivity.
  - intros f Hf. rewrite (Hstored f Hf). reflexivity.
Qed.

End StatementFacts.

Section ScriptedTrace.
Import Js Types Store Text ResourceService DynamicDataService Vocabulary Further Steps.
Import Examples.
Context {B : Builtins}.

(** On the recording server a run of statements logs the ones it sent, in
    order: all of them when it resolves, a beginning of them when it
    rejects. *)
Lemma scripted_run (statements : list string) :
  forall (c : Catalog) (s : Scripted),
  exists sent rest,
    statements = (sent ++ rest)%list
    /\ fst (run_statements (P := scriptedServer) statements (scriptedWorld c s))
       = scriptedWorld c (mkScripted (refused s) (received s ++ logged sent)%list)
    /\ (snd (run_statements (P := scriptedServer) statements (scriptedWorld c s))
        = inr tt -> rest = []).
Proof.
  induction statements as [| text statements IH]; intros c s.
  - exists [], []. simpl. rewrite app_nil_r. destruct s. repeat split.
  - simpl. unfold bind, query, on_server. simpl.
    destruct (refusal (refused s) text) as [msg |] eqn:R; simpl.
    + exists [text], statements. repeat split. discriminate.
    + destruct (IH c (mkScripted (refused s) (received s ++ [(text, [])])%list))
        as (sent & rest & -> & Hfst & Hsnd).
      exists (text :: sent), rest.
      unfold scriptedWorld in *. simpl in *.
      rewrite Hfst, <- app_assoc. repeat split. exact Hsnd.
Qed.

Lemma scripted_createTable (tableName : string) (fields : list FieldDefinition)
    (c : Catalog) (s : Scripted) :
  createTable (P := scriptedServer) tableName fields (scriptedWorld c s)
  = run_statements (P := scriptedServer) (createTable_statements tableName fields)
      (scriptedWorld c s).
Proof.
  unfold createTable.
  remember (createTable_statements tableName fields) as statements.
  unfold bind, connect, gate, on_server, try_finally_release. simpl.
  destruct (run_statements statements _) as [[c' s'] r]. reflexivity.
Qed.

(** X10. [createResource] sends the statements of its table and nothing else.
    Whatever the server refuses, what it has received after the call is what
    it had received before, followed by a beginning of the statements of
    [createTable] in their order: all of them when the call succeeds.  No
    statement is ever sent to undo a table that was created before a later
    statement failed; the catalog, for its part, is then unchanged. *)
Theorem createResource_sends_only_its_table
    (definition : ResourceDefinition) (c : Catalog) (s : Scripted) :
  let outcome :=
    createResource (P := scriptedServer) definition (scriptedWorld c s) in
  exists sent rest,
    createTable_statements (generateTableName (rd_name definition)) (rd_fields definition)
    = (sent ++ rest)%list
    /\ received (server (fst outcome)) = (received s ++ logged sent)%list
    /\ (forall response,
          snd outcome = inr response -> success response = true -> rest = [])
    /\ (rest <> [] -> catalog (fst outcome) = c).
Proof.
  cbv zeta.
  set (w := scriptedWorld c s).
  set (statements := createTable_statements _ _).
  assert (Hcall : forall x : Scripted, @prisma_call scriptedServer x = (x, None))
    by reflexivity.
  destruct (find_resource (rd_name definition) c) as [existing |] eqn:Hfind.
  { rewrite (@createResource_existing B scriptedServer definition w s existing
               (Hcall s) Hfind).
    exists [], statements. simpl. rewrite app_nil_r. repeat split.
    intros response [= <-]. discriminate. }
  destruct (metadata_write (P := scriptedServer) definition c) as [e | [c' row]]
    eqn:Hwrite.
  { rewrite (@createResource_refused B scriptedServer definition w s s e
               (Hcall s) (Hcall s) Hfind Hwrite).
    exists [], statements. simpl. rewrite app_nil_r. repeat split.
    intros response [= <-]. discriminate. }
  destruct (scripted_run statements c' s) as (sent & rest & Hsplit & Hfst & Hsnd).
  destruct (createTable (P := scriptedServer) (generateTableName (rd_name definition))
              (rd_fields definition) (scriptedWorld c' s)) as [w3 [e | []]] eqn:Htable;
    rewrite scripted_createTable in Htable; fold statements in Htable;
    rewrite Htable in Hfst, Hsnd; simpl in Hfst, Hsnd.
  - rewrite (@createResource_table_failed B scriptedServer definition w w3 s s c' row e
               (Hcall s) (Hcall s) Hwrite).
    + exists sent, rest. subst w3. simpl. repeat split; try assumption.
      intros response [= <-]. discriminate.
    + rewrite scripted_createTable. fold statements. exact Htable.
  - rewrite (@createResource_run B scriptedServer definition w w3 s s (server w3) c' row
               (Hcall s) (Hcall s) Hwrite).
    + exists sent, rest. subst w3. simpl. repeat split; try assumption.
      * intros _ _ _. apply Hsnd. reflexivity.
      * intro Hrest. exfalso. apply Hrest, Hsnd. reflexivity.
    + rewrite scripted_createTable. fold statements. exact Htable.
    + apply Hcall.
Qed.

(** X28. [deleteResource] drops the table of the resource and no other.
    On the recording server, what the server has received after the call is
    what it had received before, followed, when the catalog has the
    resource, by the one statement that drops the table the catalog records
    for it, and by nothing when it has not.  A success means the resource
    was there and is gone; and whatever the outcome, every other name
    resolves as before. *)
Theorem deleteResource_drops_its_own_table (name : string) (c : Catalog) (s : Scripted) :
  let outcome := deleteResource (P := scriptedServer) name (scriptedWorld c s) in
  received (server (fst outcome))
  = (received s
     ++ match find_resource name c with
        | Some r =>
            logged [("DROP TABLE IF EXISTS " ++ quoted (r_tableName r) ++ " CASCADE")%string]
        | None => []
        end)%list
  /\ (forall response,
        snd outcome = inr response -> success response = true ->
        find_resource name c <> None
        /\ find_resource name (catalog (fst outcome)) = None)
  /\ (forall other,
        other <> name ->
        find_resource other (catalog (fst outcome)) = find_resource other c).
Proof.
  cbv zeta.
  unfold deleteResource, try_catch, bind, findUnique, prisma_read, bind, gate, on_server.
  simpl.
  destruct (find_resource name c) as [r | ] eqn:Hfind; simpl.
  - unfold transaction, bind, prisma_write, bind, gate, on_server. simpl.
    unfold resource_delete. rewrite Hfind. simpl.
    unfold dropTable, bind, connect, gate, on_server, try_finally_release. simpl.
    unfold bind, query, on_server. simpl.
    destruct (refusal (refused s) _) as [msg | ]; simpl.
    + split; [reflexivity | split].
      * intros response [= <-]. discriminate.
      * reflexivity.
    + split; [reflexivity | split].
      * intros response _ _. split; [discriminate | apply find_filtered_out].
      * intros other Hother. apply find_filtered_other. exact Hother.
  - rewrite app_nil_r. split; [reflexivity | split].
    + intros response [= <-]. discriminate.
    + reflexivity.
Qed.

End ScriptedTrace.

(* ------------------------------------------------------------------ *)
(** ** More on the record validator *)

Section ValidatorMore.
Import Js Types Store Text ResourceService DynamicDataService Vocabulary Further Steps.
Import MoreSteps.
Context {B : Builtins}.
Local Open Scope Q_scope.

Lemma Qred_inject_Z (z : Z) : Qred (inject_Z z) = inject_Z z.
Proof.
  unfold Qred, inject_Z. simpl.
  pose proof (Z.ggcd_gcd z 1) as Hg.
  pose proof (Z.ggcd_correct_divisors z 1) as Hd.
  destruct (Z.ggcd z 1) as [g [a b]]. simpl in *.
  rewrite Z.gcd_1_r in Hg. subst g.
  destruct Hd as [Ha Hb].
  rewrite Z.mul_1_l in Ha, Hb. subst a. rewrite <- Hb. reflexivity.
Qed.

Lemma Number_isInteger_JInt (z : Z) : Number_isInteger (JInt z) = true.
Proof. unfold Number_isInteger, JInt. rewrite Qred_inject_Z. reflexivity. Qed.

(** X11. The type check never converts.  TEXT is checked as STRING and DATETIME
    as DATE; what passes as INTEGER passes as FLOAT; a type outside the enum
    accepts everything and JSON accepts everything that is not a string.  A
    string is never a number or a boolean (not even a string of digits), a
    number is never a string or a boolean, a boolean is never a string or a
    number; every whole number is an INTEGER. *)
Theorem type_check_does_not_convert (v : Json) :
  validateFieldType v "TEXT" = validateFieldType v "STRING"
  /\ validateFieldType v "DATETIME" = validateFieldType v "DATE"
  /\ (valid (validateFieldType v "INTEGER") = true ->
      valid (validateFieldType v "FLOAT") = true)
  /\ (forall type, FieldType_of_name type = None -> validateFieldType v type = is_valid)
  /\ (is_string v = false -> validateFieldType v "JSON" = is_valid)
  /\ (forall s type,
        In type ["INTEGER"; "FLOAT"; "BOOLEAN"]%string ->
        valid (validateFieldType (JStr s) type) = false)
  /\ (forall q type,
        In type ["STRING"; "TEXT"; "BOOLEAN"]%string ->
        valid (validateFieldType (JNum q) type) = false)
  /\ (forall b type,
        In type ["STRING"; "TEXT"; "INTEGER"; "FLOAT"]%string ->
        valid (validateFieldType (JBool b) type) = false)
  /\ (forall z, validateFieldType (JInt z) "INTEGER" = is_valid).
Proof.
  repeat split.
  - unfold validateFieldType. simpl. destruct v; simpl; intro H; try discriminate.
    reflexivity.
  - intros type Htype. unfold validateFieldType. rewrite Htype. reflexivity.
  - intro Hs. unfold validateFieldType. simpl. destruct v; try reflexivity.
    discriminate.
  - intros s type [<- | [<- | [<- | []]]]; reflexivity.
  - intros q type [<- | [<- | [<- | []]]]; reflexivity.
  - intros b type [<- | [<- | [<- | [<- | []]]]]; reflexivity.
  - intro z.
    change (validateFieldType (JInt z) "INTEGER")
      with (if negb (Number_isInteger (JInt z))
            then invalid "Must be an integer" else is_valid).
    rewrite Number_isInteger_JInt. reflexivity.
Qed.

(** X12. [min] and [max] are inclusive bounds of a number.  A number passes
    rules that set only [min] and [max] exactly when it lies between them,
    the bounds included; and under any rules a number that passes is not
    below the [min] nor above the [max] they set. *)
Theorem number_bounds_are_inclusive (q lo hi : Q) (name : string) :
  (valid (validateFieldRules (JNum q) (range_rules lo hi) name) = true
   <-> lo <= q /\ q <= hi)
  /\ (forall rules,
        valid (validateFieldRules (JNum q) rules name) = true ->
        (forall bound, v_min rules = Some bound -> bound <= q)
        /\ (forall bound, v_max rules = Some bound -> q <= bound)).
Proof.
  split.
  - unfold range_rules. open_rules.
    destruct (Qle_bool lo q) eqn:Hlo.
    + destruct (Qle_bool q hi) eqn:Hhi.
      * apply Qle_bool_iff in Hlo, Hhi. split; [intros _; split; assumption | reflexivity].
      * split; [discriminate |]. intros [_ H]. apply Qle_bool_iff in H. congruence.
    + split; [discriminate |]. intros [H _]. apply Qle_bool_iff in H. congruence.
  - intros rules. destruct rules as [mn mx mnl mxl pat en]. open_rules.
    intro Hvalid. split; intros bound [= ->].
    + destruct (Qle_bool bound q) eqn:E; [apply Qle_bool_iff; exact E | discriminate].
    + destruct mn as [m |].
      * destruct (Qle_bool m q); [| discriminate].
        destruct (Qle_bool q bound) eqn:E; [apply Qle_bool_iff; exact E | discriminate].
      * destruct (Qle_bool q bound) eqn:E; [apply Qle_bool_iff; exact E | discriminate].
Qed.

(** X13. [minLength] and [maxLength] are inclusive bounds of the length of a
    string, and of nothing else.  A string passes rules that set only the two
    lengths exactly when its length lies between them, the bounds included;
    for a number and for a boolean the two lengths are never looked at. *)
Theorem length_bounds_are_inclusive (s : string) (lo hi : Q) (name : string) :
  (valid (validateFieldRules (JStr s) (length_rules lo hi) name) = true
   <-> lo <= length_in_Q s /\ length_in_Q s <= hi)
  /\ (forall rules q,
        validateFieldRules (JNum q) rules name
        = validateFieldRules (JNum q) (without_lengths rules) name)
  /\ (forall rules b,
        validateFieldRules (JBool b) rules name
        = validateFieldRules (JBool b) (without_lengths rules) name).
Proof.
  split; [| split].
  - unfold length_rules. open_rules.
    change (inject_Z (Z.of_nat (String.length s))) with (length_in_Q s).
    change (JInt (Z.of_nat (String.length s))) with (JNum (length_in_Q s)).
    cbv beta iota.
    destruct (Qle_bool lo (length_in_Q s)) eqn:Hlo.
    + destruct (Qle_bool (length_in_Q s) hi) eqn:Hhi.
      * apply Qle_bool_iff in Hlo, Hhi. split; [intros _; split; assumption | reflexivity].
      * split; [discriminate |]. intros [_ H]. apply Qle_bool_iff in H. congruence.
    + split; [discriminate |]. intros [H _]. apply Qle_bool_iff in H. congruence.
  - intros rules q. destruct rules as [mn mx mnl mxl pat en].
    unfold without_lengths. open_rules.
    destruct mn, mx, mnl, mxl; reflexivity.
  - intros rules b. destruct rules as [mn mx mnl mxl pat en].
    unfold without_lengths. open_rules.
    destruct mn, mx, mnl, mxl; reflexivity.
Qed.

(** X14. [enum] is membership of a string.  A value passes rules that set only
    [enum] exactly when it is a string and one of the listed ones: the empty
    list rejects every value, and a number that is printed like a listed
    string is rejected. *)
Theorem enum_is_membership (v : Json) (allowed : list string) (name : string) :
  (valid (validateFieldRules v (enum_rules allowed) name) = true
   <-> exists s, v = JStr s /\ In s allowed)
  /\ (forall w, valid (validateFieldRules w (enum_rules []) name) = false)
  /\ (forall q, valid (validateFieldRules (JNum q) (enum_rules allowed) name) = false).
Proof.
  split; [split | split].
  - unfold enum_rules. open_rules.
    destruct v; try discriminate.
    destruct (existsb (String.eqb s) allowed) eqn:E; [| discriminate].
    intros _. apply existsb_exists in E as (x & Hx & Heq).
    apply String.eqb_eq in Heq. subst x. exists s. split; [reflexivity | exact Hx].
  - intros (s & -> & Hs).
    unfold enum_rules. open_rules.
    replace (existsb (String.eqb s) allowed) with true; [reflexivity |].
    symmetry. apply existsb_exists. exists s. split; [exact Hs | apply String.eqb_refl].
  - intro w. unfold enum_rules. open_rules. destruct w; reflexivity.
  - intro q. reflexivity.
Qed.

End ValidatorMore.

Section PayloadFacts.
Import Js Types Store Text ResourceService DynamicDataService Vocabulary Further Steps.
Context {B : Builtins}.

Lemma validate_field_reads_one_key (d d' : JsObject) (f : FieldRow) (u : bool) :
  get d' (f_name f) = get d (f_name f) ->
  validate_field d' f u = validate_field d f u.
Proof. intro H. unfold validate_field, read. rewrite H. reflexivity. Qed.

Lemma get_skips_other_key (pre post : JsObject) (k : string) (v : Json) (n : string) :
  k <> n -> get (pre ++ (k, v) :: post)%list n = get (pre ++ post)%list n.
Proof.
  intro Hk. induction pre as [| [k' v'] pre IH]; simpl.
  - replace (String.eqb k n) with false; [reflexivity |].
    symmetry. apply String.eqb_neq. exact Hk.
  - destruct (String.eqb k' n); [reflexivity | exact IH].
Qed.

(** X15. Validation looks at the declared fields and at nothing else.  The
    payload passes exactly when every declared field passes on its own; and
    a key that no field declares is never looked at: with it or without it
    the answer is the same, so such a key passes validation whatever its
    value. *)
Theorem validation_reads_declared_fields_only
    (data : JsObject) (fields : list FieldRow) (isUpdate : bool) :
  (success (validateData data fields isUpdate) = true
   <-> forall f, In f fields -> validate_field data f isUpdate = None)
  /\ (forall pre post key value,
        data = (pre ++ post)%list ->
        (forall f, In f fields -> f_name f <> key) ->
        validateData (pre ++ (key, value) :: post)%list fields isUpdate
        = validateData data fields isUpdate).
Proof.
  split; [split |].
  - induction fields as [| f fields IH]; simpl; intros Hok g Hg; [destruct Hg |].
    destruct (validate_field data f isUpdate) as [r |] eqn:E.
    + rewrite (validate_field_fails _ _ _ E) in Hok. discriminate.
    + destruct Hg as [<- | Hg]; [exact E | apply IH; assumption].
  - induction fields as [| f fields IH]; simpl; intro Hall; [reflexivity |].
    rewrite (Hall f) by (left; reflexivity).
    apply IH. intros g Hg. apply Hall. right. exact Hg.
  - intros pre post key value -> Hundeclared.
    induction fields as [| f fields IH]; simpl; [reflexivity |].
    rewrite (@validate_field_reads_one_key (pre ++ post)%list
               (pre ++ (key, value) :: post)%list f).
    + destruct (validate_field (pre ++ post)%list f isUpdate); [reflexivity |].
      apply IH. intros g Hg. apply Hundeclared. right. exact Hg.
    + apply get_skips_other_key. intro E. apply (Hundeclared f); [left; reflexivity |].
      symmetry. exact E.
Qed.

Lemma validate_field_update_of_create (data : JsObject) (f : FieldRow) :
  validate_field data f false = None -> validate_field data f true = None.
Proof.
  unfold validate_field. simpl.
  destruct (f_isRequired f && nullish (read data (f_name f))); [discriminate |].
  intro H. exact H.
Qed.

(** X16. The empty payload, and creation against update.  Every payload
    that passes creation passes an update.  Against fields whose names are
    their own, the empty payload passes creation exactly when no field is
    required, and always passes an update. *)
Theorem empty_payload_and_update (fields : list FieldRow) :
  (forall data,
      success (validateData data fields false) = true ->
      validateData data fields true = validation_passed)
  /\ ((forall f, In f fields -> own_named f = true) ->
      success (validateData [] fields false) = negb (existsb f_isRequired fields)
      /\ validateData [] fields true = validation_passed).
Proof.
  split.
  - intro data. induction fields as [| f fields IH]; simpl; intro H; [reflexivity |].
    destruct (validate_field data f false) as [r |] eqn:E.
    + rewrite (validate_field_fails _ _ _ E) in H. discriminate.
    + rewrite (validate_field_update_of_create _ _ E). apply IH. exact H.
  - intro Hown. split.
    + induction fields as [| f fields IH]; simpl; [reflexivity |].
      unfold validate_field. rewrite (read_own_named [] f (Hown f (or_introl eq_refl))).
      simpl. destruct (f_isRequired f); simpl; [reflexivity | ].
      apply IH. intros g Hg. apply Hown. right. exact Hg.
    + induction fields as [| f fields IH]; simpl; [reflexivity | ].
      unfold validate_field. rewrite (read_own_named [] f (Hown f (or_introl eq_refl))).
      simpl. apply IH. intros g Hg. apply Hown. right. exact Hg.
Qed.

End PayloadFacts.

Section RefusedPayloads.
Import Js Types Store Text ResourceService DynamicDataService Vocabulary Further Steps.
Context {B : Builtins} {P : Postgres}.

(** X17. A payload that fails validation never reaches the server, and a
    resource that does not exist is reported before the payload is looked at.
    After the catalog lookup, [createData] and [updateData] answer a failing
    payload with the response of the validator and stop: no client is taken
    from the pool and no statement is sent.  For a name the catalog does not
    have, every data operation answers [Resource not found], whatever the
    payload. *)
Theorem refused_payload_sends_nothing (name : string) (id : Z) (data : JsObject)
    (options : QueryOptions) (w : World) (s1 : Server) :
  prisma_call (server w) = (s1, None) ->
  (forall r,
      find_resource name (catalog w) = Some r ->
      (success (validateData data (r_fields r) false) = false ->
       createData name data w
       = (mkWorld (catalog w) s1, inr (validateData data (r_fields r) false)))
      /\ (success (validateData data (r_fields r) true) = false ->
          updateData name id data w
          = (mkWorld (catalog w) s1, inr (validateData data (r_fields r) true))))
  /\ (find_resource name (catalog w) = None ->
      Forall (fun call => call w = (mkWorld (catalog w) s1, inr (not_found name)))
        [createData name data; getData name options; getDataById name id;
         updateData name id data; deleteData name id]).
Proof.
  intro Hlookup. split.
  - intros r Hfound. split; intro Hinvalid.
    + unfold createData. run_service.
      rewrite Hlookup. simpl. rewrite Hfound. simpl. rewrite Hinvalid. reflexivity.
    + unfold updateData. run_service.
      rewrite Hlookup. simpl. rewrite Hfound. simpl. rewrite Hinvalid. reflexivity.
  - intro Habsent.
    repeat (apply Forall_cons; [| ]); try apply Forall_nil.
    + unfold createData. run_service. rewrite Hlookup. simpl. rewrite Habsent. reflexivity.
    + unfold getData. run_service. rewrite Hlookup. simpl. rewrite Habsent. reflexivity.
    + unfold getDataById. run_service. rewrite Hlookup. simpl. rewrite Habsent. reflexivity.
    + unfold updateData. run_service. rewrite Hlookup. simpl. rewrite Habsent. reflexivity.
    + unfold deleteData. run_service. rewrite Hlookup. simpl. rewrite Habsent. reflexivity.
Qed.

End RefusedPayloads.

(* ------------------------------------------------------------------ *)
(** ** More on list requests *)

Section ListOptions.
Import Js Types Store Text ResourceService DynamicDataService Vocabulary Further Steps.
Context {B : Builtins} {P : Postgres}.

(** X18. Empty options are absent options.  A sort column that is the empty
    string, and a filter with no entry, give the very call made without
    them; and without a sort column the direction is not looked at: the rows
    come by creation time, newest first, whatever direction was asked. *)
Theorem empty_options_are_absent (name : string) (options : QueryOptions) (w : World) :
  getData name (with_sort (Some EmptyString) options) w
  = getData name (with_sort None options) w
  /\ getData name (with_filter (Some []) options) w
     = getData name (with_filter None options) w
  /\ (forall direction,
        getData name (with_order direction (with_sort None options)) w
        = getData name (with_sort None options) w)
  /\ (forall tableName direction,
        text (getData_query tableName (with_order direction (with_sort None options)))
        = "SELECT * FROM " ++ quoted tableName ++ where_clause (filter options)
          ++ " ORDER BY created_at DESC"
          ++ " LIMIT " ++ placeholder (List.length (filter_values (filter options)) + 1)
          ++ " OFFSET " ++ placeholder (List.length (filter_values (filter options)) + 2)).
Proof.
  repeat split.
Qed.

End ListOptions.

Section PastTheEnd.
Import Js Types Store Text ResourceService DynamicDataService Vocabulary Further Steps.
Context {B : Builtins} {P : Postgres}.
Local Open Scope Z_scope.

Variables (w : World) (name : string) (r : ResourceRow) (base : QueryOptions).
Variables (rows : list Row) (countRow : Row) (countRest : list Row).

Hypothesis prisma_up : prisma_call (server w) = (server w, None).
Hypothesis resource_exists : find_resource name (catalog w) = Some r.
Hypothesis pool_up : pool_connect (server w) = (server w, None).
Hypothesis release_quiet : client_release (server w) = server w.
Hypothesis select_slices :
  forall p l,
    0 <= page_limit (paged base p l) -> 0 <= page_offset (paged base p l) ->
    client_query (text (getData_query (r_tableName r) (paged base p l)))
      (values (getData_query (r_tableName r) (paged base p l))) (server w)
    = (server w,
       inr (firstn (Z.to_nat (page_limit (paged base p l)))
              (skipn (Z.to_nat (page_offset (paged base p l))) rows))).
Hypothesis count_answers :
  client_query (text (getData_countQuery (r_tableName r) base))
    (values (getData_countQuery (r_tableName r) base)) (server w)
  = (server w, inr (countRow :: countRest)).
Hypothesis count_is_total :
  parseInt (get countRow "total") = Some (Z.of_nat (List.length rows)).

(** X19. A page past the last one is an empty page, not an error.  On a server
    that answers the two statements of [getData] as LIMIT, OFFSET and COUNT
    define them, a request for a page beyond totalPages succeeds with no
    items and with the same total and totalPages as any other page; with no
    rows at all, totalPages is 0 and already page 1 is such a page. *)
Theorem page_past_the_end_is_empty (L p : Z) :
  0 < L ->
  ceil_div (Z.of_nat (List.length rows)) L < p ->
  getData name (paged base (Some p) (Some L)) w
  = (w, inr (success_with
               (DataPage []
                  (mkPagination p L (Some (Z.of_nat (List.length rows)))
                     (Some (ceil_div (Z.of_nat (List.length rows)) L))))
               None))
  /\ (rows = [] -> ceil_div (Z.of_nat (List.length rows)) L = 0).
Proof.
  intros HL Hp.
  pose proof (ceil_div_bounds (Z.of_nat (List.length rows)) HL) as Hceil.
  assert (Hpos : 0 <= ceil_div (Z.of_nat (List.length rows)) L) by nia.
  assert (Hlimit : page_limit (paged base (Some p) (Some L)) = L).
  { unfold page_limit, paged. simpl. destruct (Z.eqb_spec L 0); [lia | reflexivity]. }
  assert (Hnumber : page_number (paged base (Some p) (Some L)) = p).
  { unfold page_number, paged. simpl. destruct (Z.eqb_spec p 0); [lia | reflexivity]. }
  assert (Hoffset : page_offset (paged base (Some p) (Some L)) = (p - 1) * L).
  { unfold page_offset. rewrite Hlimit, Hnumber. reflexivity. }
  split.
  - rewrite (@getData_run B P name (paged base (Some p) (Some L)) w r (server w) (server w)
               prisma_up resource_exists pool_up).
    cbv zeta.
    rewrite (select_slices (Some p) (Some L)) by (rewrite ?Hlimit, ?Hoffset; nia).
    change (getData_countQuery (r_tableName r) (paged base (Some p) (Some L)))
      with (getData_countQuery (r_tableName r) base).
    rewrite count_answers, count_is_total, release_quiet.
    rewrite Hlimit, Hnumber, Hoffset.
    rewrite skipn_all2 by (apply Nat2Z.inj_le; rewrite Z2Nat.id by nia; nia).
    rewrite firstn_nil. destruct w. reflexivity.
  - intro Hrows.
    remember (ceil_div (Z.of_nat (List.length rows)) L) as c eqn:Hc.
    clear Hc Hp. rewrite Hrows in Hceil. simpl in Hceil.
    assert (c < 1) by nia. lia.
Qed.

End PastTheEnd.

(* ------------------------------------------------------------------ *)
(** ** More on default values *)

Section LiteralFacts.
Import Js Types Store Text ResourceService DynamicDataService Vocabulary Further Steps.
Context {B : Builtins}.

Lemma read_doubled (s : string) :
  read_literal_body (double_single_quotes s ++ "'") = Some s.
Proof.
  induction s as [| c s IH]; simpl; [reflexivity |].
  destruct (Ascii.eqb c "'"%char) eqn:E; simpl.
  - rewrite IH. simpl. apply Ascii.eqb_eq in E. subst c. reflexivity.
  - rewrite E, IH. reflexivity.
Qed.

(** What is read back from a body that ends with its closing quote is no
    longer than the body, and shorter when the body has a quote in it. *)
Lemma read_shrinks (n : nat) :
  forall d x,
    String.length d <= n ->
    read_literal_body (d ++ "'") = Some x ->
    String.length x <= String.length d
    /\ (occurs "'"%char d = true -> String.length x < String.length d).
Proof.
  induction n as [| n IH]; intros d x Hn Hread.
  - destruct d; [| simpl in Hn; lia]. simpl in Hread. injection Hread as <-.
    split; [reflexivity | discriminate].
  - destruct d as [| c d]; simpl in Hread.
    + injection Hread as <-. split; [reflexivity | discriminate].
    + destruct (Ascii.eqb c "'"%char) eqn:E.
      * destruct d as [| c' d]; simpl in Hread; [discriminate |].
        destruct (Ascii.eqb c' "'"%char); [| discriminate].
        destruct (read_literal_body (d ++ "'")) as [y |] eqn:R; [| discriminate].
        injection Hread as <-.
        destruct (IH d y) as [Hle _]; [simpl in Hn; lia | exact R |].
        simpl String.length. split; [lia | intros _; lia].
      * destruct (read_literal_body (d ++ "'")) as [y |] eqn:R; [| discriminate].
        injection Hread as <-.
        destruct (IH d y) as [Hle Hlt]; [simpl in Hn; lia | exact R |].
        split; [simpl String.length; lia |].
        change (occurs "'"%char (String c d))
          with (Ascii.eqb "'"%char c || occurs "'"%char d).
        rewrite Ascii.eqb_sym, E. cbn [orb].
        intro H. specialize (Hlt H). simpl String.length. lia.
Qed.

(** X20. The literal of a STRING or TEXT default reads back as the value.  Read
    as SQL reads a quoted literal (a doubled quote is one quote), the literal
    of a default that is not null denotes exactly the text of the value.  The
    literal of a DATE or DATETIME default whose text has a quote in it never
    does: it is no literal at all, or the literal of another text. *)
Theorem text_default_reads_back (v : Json) :
  v <> JNull ->
  read_sql_literal (formatDefaultValue (Some v) "STRING") = Some (ToString v)
  /\ read_sql_literal (formatDefaultValue (Some v) "TEXT") = Some (ToString v)
  /\ (forall d type,
        In type ["DATE"; "DATETIME"] ->
        occurs "'"%char d = true ->
        read_sql_literal (formatDefaultValue (Some (JStr d)) type) <> Some d).
Proof.
  intro Hv.
  assert (Htext : forall t, In t ["STRING"; "TEXT"] ->
            read_sql_literal (formatDefaultValue (Some v) t) = Some (ToString v)).
  { intros t [<- | [<- | []]];
      (destruct v; try contradiction; simpl; apply read_doubled). }
  repeat split.
  - apply Htext. left. reflexivity.
  - apply Htext. right. left. reflexivity.
  - intros d type [<- | [<- | []]] Hquote Hread; simpl in Hread;
      destruct (@read_shrinks (String.length d) d d (le_n _) Hread) as [_ Hlt];
      specialize (Hlt Hquote); lia.
Qed.


End LiteralFacts.

(* ------------------------------------------------------------------ *)
(** ** A change of declaration, read back *)

Section SortedLists.
Import Js Types Store Text ResourceService CatalogShape.

Lemma insert_by_order_In (f x : FieldRow) (l : list FieldRow) :
  In x (insert_by_order f l) <-> x = f \/ In x l.
Proof.
  induction l as [| g l IH]; simpl.
  - intuition.
  - destruct (Nat.leb (f_order f) (f_order g)); simpl; [intuition | ].
    rewrite IH. intuition.
Qed.

Lemma order_fields_In (x : FieldRow) (l : list FieldRow) :
  In x (order_fields l) <-> In x l.
Proof.
  unfold order_fields. induction l as [| f l IH]; simpl; [reflexivity | ].
  rewrite insert_by_order_In, IH. intuition.
Qed.

Lemma insert_by_order_perm (f : FieldRow) (l : list FieldRow) :
  Permutation (f :: l) (insert_by_order f l).
Proof.
  induction l as [| g l IH]; simpl; [apply Permutation_refl | ].
  destruct (Nat.leb (f_order f) (f_order g)); [apply Permutation_refl | ].
  eapply Permutation_trans; [apply perm_swap | ].
  apply perm_skip, IH.
Qed.

Lemma order_fields_perm (l : list FieldRow) : Permutation l (order_fields l).
Proof.
  unfold order_fields. induction l as [| f l IH]; simpl; [apply perm_nil | ].
  eapply Permutation_trans; [apply perm_skip, IH | apply insert_by_order_perm].
Qed.

(** Strictly increasing by a key. *)
Lemma insert_by_order_sorted (f : FieldRow) (l : list FieldRow) :
  StronglySorted (fun a b => f_order a < f_order b) l ->
  ~ In (f_order f) (map f_order l) ->
  StronglySorted (fun a b => f_order a < f_order b) (insert_by_order f l).
Proof.
  induction l as [| g l IH]; simpl; intros Hsorted Hfresh.
  - constructor; constructor.
  - apply StronglySorted_inv in Hsorted as [Hl Hg].
    destruct (Nat.leb (f_order f) (f_order g)) eqn:E.
    + apply Nat.leb_le in E.
      assert (Hlt : f_order f < f_order g) by (assert (f_order g <> f_order f) by tauto; lia).
      constructor; [constructor; assumption | ].
      constructor; [exact Hlt | ].
      rewrite Forall_forall in *. intros x Hx. specialize (Hg x Hx). lia.
    + apply Nat.leb_gt in E.
      constructor.
      * apply IH; [exact Hl | tauto].
      * rewrite Forall_forall in *. intros x Hx.
        apply insert_by_order_In in Hx as [-> | Hx]; [exact E | apply Hg, Hx].
Qed.

Lemma order_fields_sorted (l : list FieldRow) :
  NoDup (map f_order l) ->
  StronglySorted (fun a b => f_order a < f_order b) (order_fields l).
Proof.
  unfold order_fields. induction l as [| f l IH]; simpl; intro Hnd.
  - constructor.
  - apply NoDup_cons_iff in Hnd as [Hfresh Hnd].
    apply insert_by_order_sorted; [apply IH, Hnd | ].
    intro Hin. apply Hfresh.
    apply in_map_iff in Hin as (x & Hx & Hin).
    apply in_map_iff. exists x. split; [exact Hx | ].
    apply (proj1 (order_fields_In x l)). exact Hin.
Qed.

(** Two lists strictly increasing by the same key, with the same members,
    are the same list. *)
Lemma sorted_unique {A} (key : A -> nat) (l : list A) :
  forall l',
    StronglySorted (fun a b => key a < key b) l ->
    StronglySorted (fun a b => key a < key b) l' ->
    (forall x, In x l <-> In x l') ->
    l = l'.
Proof.
  induction l as [| a l IH]; intros l' Hl Hl' Hsame.
  - destruct l' as [| b l']; [reflexivity | ].
    destruct (proj2 (Hsame b) (or_introl eq_refl)).
  - destruct l' as [| b l'].
    + destruct (proj1 (Hsame a) (or_introl eq_refl)).
    + apply StronglySorted_inv in Hl as [Hl Ha].
      apply StronglySorted_inv in Hl' as [Hl' Hb].
      rewrite Forall_forall in Ha, Hb.
      assert (Hab : a = b).
      { destruct (proj1 (Hsame a) (or_introl eq_refl)) as [E | Hin]; [symmetry; exact E | ].
        destruct (proj2 (Hsame b) (or_introl eq_refl)) as [E | Hin']; [exact E | ].
        specialize (Ha b Hin'). specialize (Hb a Hin). lia. }
      subst b. f_equal. apply IH; [exact Hl | exact Hl' | ].
      intro x. split; intro Hx.
      * destruct (proj1 (Hsame x) (or_intror Hx)) as [E | Hin]; [ | exact Hin].
        subst x. specialize (Ha a Hx). lia.
      * destruct (proj2 (Hsame x) (or_intror Hx)) as [E | Hin]; [ | exact Hin].
        subst x. specialize (Hb a Hx). lia.
Qed.

Lemma sorted_map {A C} (f : A -> C) (key : C -> nat) (l : list A) :
  StronglySorted (fun a b => key (f a) < key (f b)) l ->
  StronglySorted (fun a b => key a < key b) (map f l).
Proof.
  induction l as [| a l IH]; simpl; intro H; [constructor | ].
  apply StronglySorted_inv in H as [Hl Ha].
  constructor; [apply IH, Hl | ].
  rewrite Forall_forall in *. intros y Hy.
  apply in_map_iff in Hy as (x & <- & Hx). apply Ha, Hx.
Qed.

Lemma indexed_from_In {A} (l : list A) :
  forall k i a, In (i, a) (indexed_from k l) -> k <= i /\ nth_error l (i - k) = Some a.
Proof.
  induction l as [| b l IH]; simpl; intros k i a H; [destruct H | ].
  destruct H as [[= <- <-] | H].
  - rewrite Nat.sub_diag. split; [lia | reflexivity].
  - destruct (IH _ _ _ H) as [Hle Hnth]. split; [lia | ].
    replace (i - k) with (S (i - S k)) by lia. exact Hnth.
Qed.

Lemma indexed_from_snd {A} (l : list A) :
  forall k, map snd (indexed_from k l) = l.
Proof.
  induction l as [| b l IH]; simpl; intro k; [reflexivity | now rewrite IH].
Qed.

Lemma declared_data_sorted (fields : list FieldDefinition) :
  forall k,
    StronglySorted (fun a b => d_order a < d_order b)
      (map (fun '(i, field) => field_data i field) (indexed_from k fields)).
Proof.
  induction fields as [| d fields IH]; simpl; intro k; constructor; [apply IH | ].
  rewrite Forall_forall. intros x Hx.
  apply in_map_iff in Hx as ([i d'] & <- & Hin).
  apply indexed_from_In in Hin as [Hle _]. simpl. lia.
Qed.

Lemma NoDup_map_by {A K1 K2} (k1 : A -> K1) (k2 : A -> K2) (l : list A) :
  NoDup (map k1 l) ->
  (forall x y, In x l -> In y l -> k2 x = k2 y -> k1 x = k1 y) ->
  NoDup (map k2 l).
Proof.
  induction l as [| a l IH]; simpl; intros Hnd Hinj; [constructor | ].
  apply NoDup_cons_iff in Hnd as [Hfresh Hnd].
  constructor.
  - intro Hin. apply Hfresh.
    apply in_map_iff in Hin as (x & Hx & Hin).
    apply in_map_iff. exists x. split; [ | exact Hin].
    apply Hinj; [right; exact Hin | left; reflexivity | exact Hx].
  - apply IH; [exact Hnd | ]. intros x y Hx Hy. apply Hinj; right; assumption.
Qed.

Lemma NoDup_key_inj {A K} (key : A -> K) (l : list A) (x y : A) :
  NoDup (map key l) -> In x l -> In y l -> key x = key y -> x = y.
Proof.
  induction l as [| a l IH]; simpl; intros Hnd Hx Hy E; [destruct Hx | ].
  apply NoDup_cons_iff in Hnd as [Hfresh Hnd].
  destruct Hx as [<- | Hx], Hy as [<- | Hy].
  - reflexivity.
  - exfalso. apply Hfresh. rewrite E. apply in_map, Hy.
  - exfalso. apply Hfresh. rewrite <- E. apply in_map, Hx.
  - apply IH; assumption.
Qed.

End SortedLists.

Section UpdateSteps.
Import Js Types Store Text ResourceService CatalogShape.
Context {P : Postgres}.

Lemma find_middle {A} (p : A -> bool) (pre post : list A) (a : A) :
  (forall x, In x pre -> p x = false) -> p a = true ->
  find p (pre ++ a :: post) = Some a.
Proof.
  intros Hpre Ha. induction pre as [| x pre IH]; simpl.
  - rewrite Ha. reflexivity.
  - rewrite (Hpre x (or_introl eq_refl)). apply IH.
    intros y Hy. apply Hpre. right. exact Hy.
Qed.

Lemma sole_find (r : ResourceRow) (c : Catalog) :
  sole_row r c -> find_resource (r_name r) c = Some r.
Proof.
  intros (pre & post & Hres & Hothers). unfold find_resource. rewrite Hres.
  apply find_middle; [ | apply String.eqb_refl].
  intros x Hx. apply String.eqb_neq. apply Hothers, in_or_app. left. exact Hx.
Qed.

Lemma sole_find_id (r : ResourceRow) (c : Catalog) :
  sole_row r c -> find (fun x => Nat.eqb (r_id x) (r_id r)) (resources c) = Some r.
Proof.
  intros (pre & post & Hres & Hothers). rewrite Hres.
  apply find_middle; [ | apply Nat.eqb_refl].
  intros x Hx. apply Nat.eqb_neq. apply Hothers, in_or_app. left. exact Hx.
Qed.

Lemma sole_map (g : ResourceRow -> ResourceRow) (r : ResourceRow) (c : Catalog) (n : nat) :
  sole_row r c ->
  (forall x, r_name (g x) = r_name x /\ r_id (g x) = r_id x) ->
  sole_row (g r) (mkCatalog (map g (resources c)) n).
Proof.
  intros (pre & post & Hres & Hothers) Hg.
  exists (map g pre), (map g post). split.
  - simpl. rewrite Hres, map_app. reflexivity.
  - intros x Hx. rewrite <- map_app in Hx. apply in_map_iff in Hx as (y & <- & Hy).
    destruct (Hg y) as [-> ->], (Hg r) as [-> ->]. apply Hothers, Hy.
Qed.

Lemma sole_owns (r : ResourceRow) (c : Catalog) (id : nat) :
  sole_row r c -> In id (map f_id (r_fields r)) ->
  existsb (owns_field id) (resources c) = true.
Proof.
  intros (pre & post & Hres & _) Hin. apply existsb_exists. exists r. split.
  - rewrite Hres. apply in_or_app. right. left. reflexivity.
  - unfold owns_field. apply existsb_exists.
    apply in_map_iff in Hin as (f & <- & Hf). exists f. split; [exact Hf | apply Nat.eqb_refl].
Qed.

Lemma prisma_write_up {A} (f : Catalog -> Thrown + (Catalog * A)) (w : World)
    (c' : Catalog) (a : A) :
  engine_up -> f (catalog w) = inr (c', a) ->
  exists s', prisma_write f w = (mkWorld c' s', inr a).
Proof.
  intros Hup Hf. destruct (prisma_call (server w)) as [s' o] eqn:E.
  pose proof (Hup (server w)) as H. rewrite E in H. simpl in H. subst o.
  exists s'. eapply prisma_write_resolved; eassumption.
Qed.

Lemma filter_all {A} (p : A -> bool) (l : list A) :
  (forall x, In x l -> p x = true) -> List.filter p l = l.
Proof.
  induction l as [| a l IH]; simpl; intro H; [reflexivity | ].
  rewrite (H a (or_introl eq_refl)). f_equal. apply IH.
  intros x Hx. apply H. right. exact Hx.
Qed.

Lemma filter_twice {A} (p q : A -> bool) (l : list A) :
  List.filter p (List.filter q l) = List.filter (fun x => q x && p x) l.
Proof.
  induction l as [| a l IH]; simpl; [reflexivity | ].
  destruct (q a); simpl; [destruct (p a); rewrite IH; reflexivity | exact IH].
Qed.

(** The fields that stay: those with the id of no stored field whose name
    has left the declaration. *)
Lemma delete_phase (r : ResourceRow) (newFields : list FieldDefinition) :
  engine_up ->
  forall E G c s,
    sole_row (set_fields G r) c ->
    NoDup (map f_id E) ->
    (forall e, In e E -> map_has fd_name newFields (f_name e) = false ->
               In (f_id e) (map f_id G)) ->
    exists c' s',
      delete_missing_fields E newFields (mkWorld c s) = (mkWorld c' s', inr tt)
      /\ sole_row
           (set_fields
              (List.filter
                 (fun f =>
                    negb (existsb
                            (fun e => negb (map_has fd_name newFields (f_name e))
                                      && Nat.eqb (f_id f) (f_id e)) E))
                 G) r) c'
      /\ nextId c' = nextId c.
Proof.
  intro Hup. induction E as [| e0 E IH]; intros G c s Hsole Hnd Hpresent.
  - exists c, s. simpl. rewrite filter_all by reflexivity.
    repeat split. exact Hsole.
  - apply NoDup_cons_iff in Hnd as [Hfresh Hnd]. simpl delete_missing_fields.
    destruct (map_has fd_name newFields (f_name e0)) eqn:Hkept.
    + destruct (IH G c s Hsole Hnd) as (c' & s' & Hrun & Hsole' & Hnext).
      { intros e He. apply Hpresent. right. exact He. }
      exists c', s'. split; [ | split; [ | exact Hnext]].
      * unfold bind, ret. exact Hrun.
      * erewrite filter_ext; [exact Hsole' | ].
        intro f. simpl. rewrite Hkept. reflexivity.
    + assert (Hown : existsb (owns_field (f_id e0)) (resources c) = true).
      { eapply sole_owns; [exact Hsole | ]. apply Hpresent; [left; reflexivity | exact Hkept]. }
      destruct (@prisma_write_up unit (field_delete (f_id e0)) (mkWorld c s)
                  (mkCatalog
                     (map (fun x =>
                             set_fields
                               (List.filter (fun f => negb (Nat.eqb (f_id f) (f_id e0)))
                                  (r_fields x)) x)
                          (resources c))
                     (nextId c)) tt Hup) as (s1 & Hwrite).
      { unfold field_delete. simpl. rewrite Hown. reflexivity. }
      pose proof (@sole_map
                    (fun x =>
                       set_fields
                         (List.filter (fun f => negb (Nat.eqb (f_id f) (f_id e0)))
                            (r_fields x)) x)
                    _ c (nextId c) Hsole (fun x => conj eq_refl eq_refl)) as Hsole1.
      simpl in Hsole1.
      match type of Hsole1 with
      | sole_row _ ?c1 =>
          destruct (IH (List.filter (fun f => negb (Nat.eqb (f_id f) (f_id e0))) G) c1 s1
                      Hsole1 Hnd) as (c' & s' & Hrun & Hsole' & Hnext)
      end.
      { intros e He Hgone.
        pose proof (Hpresent e (or_intror He) Hgone) as Hin.
        apply in_map_iff in Hin as (f & Hid & Hf).
        apply in_map_iff. exists f. split; [exact Hid | ].
        apply filter_In. split; [exact Hf | ].
        apply Bool.negb_true_iff, Nat.eqb_neq. intro Heq. apply Hfresh.
        rewrite <- Heq, Hid. apply in_map, He. }
      exists c', s'. split; [ | split; [ | exact Hnext]].
      * unfold bind. rewrite Hwrite. exact Hrun.
      * rewrite filter_twice in Hsole'.
        erewrite filter_ext; [exact Hsole' | ].
        intro f. simpl. rewrite Hkept. simpl.
        rewrite Bool.negb_orb. reflexivity.
Qed.

End UpdateSteps.

Section UpsertPhase.
Import Js Types Store Text ResourceService CatalogShape.
Context {P : Postgres}.

Lemma map_get_found {A} (key : A -> string) (l : list A) (name : string) (a : A) :
  map_get key l name = Some a -> In a l /\ key a = name.
Proof.
  unfold map_get. intro H. apply find_some in H as [Hin Heq].
  split; [apply in_rev, Hin | apply String.eqb_eq, Heq].
Qed.

Lemma map_get_absent {A} (key : A -> string) (l : list A) (name : string) :
  map_get key l name = None -> ~ In name (map key l).
Proof.
  unfold map_get. intros H Hin. apply in_map_iff in Hin as (a & Hkey & Ha).
  apply in_rev in Ha. pose proof (find_none _ _ H a Ha) as Hno. simpl in Hno.
  rewrite Hkey, String.eqb_refl in Hno. discriminate.
Qed.

Lemma existsb_absent (name : string) (l : list FieldRow) :
  ~ In name (map f_name l) ->
  existsb (fun f => String.eqb (f_name f) name) l = false.
Proof.
  intro H. destruct (existsb _ l) eqn:E; [ | reflexivity].
  apply existsb_exists in E as (f & Hf & Heq). apply String.eqb_eq in Heq.
  exfalso. apply H. rewrite <- Heq. apply in_map, Hf.
Qed.

Lemma NoDup_snoc {A} (l : list A) (a : A) :
  NoDup l -> ~ In a l -> NoDup (l ++ [a]).
Proof.
  intros Hl Ha. apply (Permutation_NoDup (Permutation_cons_append l a)).
  constructor; assumption.
Qed.

(** The update of one stored field, as [field.update] maps it over the
    fields of a row. *)
Lemma update_keeps (id : nat) (d : FieldData) (f : FieldRow) :
  let f' := if Nat.eqb (f_id f) id
            then mkFieldRow id (f_name f) (d_displayName d) (d_type d) (d_isRequired d)
                   (d_isUnique d) (d_defaultValue d) (d_validation d) (d_order d)
            else f in
  f_name f' = f_name f /\ f_id f' = f_id f.
Proof.
  simpl. destruct (Nat.eqb_spec (f_id f) id) as [E | _]; simpl; auto.
Qed.

(** The loop over the new fields, from a row whose fields are [G]: it
    goes through; names are only added; each new field has its name in the
    row at the end; and a field of the row at the end either holds the data
    of the new field of its name, with its position, or was in [G] under a
    name that no new field has. *)
Lemma upsert_phase (r : ResourceRow) (E : list FieldRow) :
  engine_up ->
  forall rest G c s,
    sole_row (set_fields G r) c ->
    NoDup (map (fun p => fd_name (snd p)) rest) ->
    NoDup (map f_name G) ->
    (forall e, In e E -> f_id e < nextId c) ->
    (forall f e, In f G -> In e E -> (f_id f = f_id e <-> f_name f = f_name e)) ->
    (forall e p, In e E -> In p rest -> fd_name (snd p) = f_name e ->
                 In (f_id e) (map f_id G)) ->
    (forall p, In p rest -> ~ In (fd_name (snd p)) (map f_name E) ->
               ~ In (fd_name (snd p)) (map f_name G)) ->
    exists c' s' G',
      upsert_fields (r_id r) E rest (mkWorld c s) = (mkWorld c' s', inr tt)
      /\ sole_row (set_fields G' r) c'
      /\ NoDup (map f_name G')
      /\ (forall f, In f G -> In (f_name f) (map f_name G'))
      /\ (forall p, In p rest -> In (fd_name (snd p)) (map f_name G'))
      /\ (forall f', In f' G' ->
            (exists p, In p rest /\ fd_name (snd p) = f_name f'
                       /\ data_of f' = field_data (fst p) (snd p))
            \/ (In f' G /\ forall p, In p rest -> fd_name (snd p) <> f_name f')).
Proof.
  intro Hup. induction rest as [| [i d] rest IH];
    intros G c s Hsole Hnew Hnames Hold Hsame Hpresent Hfree.
  - exists c, s, G. simpl. repeat split; try assumption.
    + intros f Hf. apply in_map, Hf.
    + intros p [].
    + intros f' Hf'. right. split; [exact Hf' | intros p []].
  - simpl map in Hnew. apply NoDup_cons_iff in Hnew as [Hfresh Hnew].
    simpl upsert_fields.
    destruct (map_get f_name E (fd_name d)) as [e | ] eqn:Hget.
    + (* the field is stored: it is updated in place *)
      apply map_get_found in Hget as [He Hname].
      assert (Hin : In (f_id e) (map f_id G)).
      { apply (Hpresent e (i, d) He (or_introl eq_refl)). symmetry. exact Hname. }
      set (upd := fun f : FieldRow =>
                    if Nat.eqb (f_id f) (f_id e)
                    then mkFieldRow (f_id e) (f_name f) (d_displayName (field_data i d))
                           (d_type (field_data i d)) (d_isRequired (field_data i d))
                           (d_isUnique (field_data i d)) (d_defaultValue (field_data i d))
                           (d_validation (field_data i d)) (d_order (field_data i d))
                    else f).
      assert (Hupd : forall f, f_name (upd f) = f_name f /\ f_id (upd f) = f_id f).
      { intro f. apply (update_keeps (f_id e) (field_data i d) f). }
      destruct (@prisma_write_up _ unit (field_update (f_id e) (field_data i d))
                  (mkWorld c s)
                  (mkCatalog
                     (map (fun x => set_fields (map upd (r_fields x)) x) (resources c))
                     (nextId c)) tt Hup) as (s1 & Hwrite).
      { unfold field_update. simpl.
        rewrite (sole_owns (f_id e) Hsole Hin). reflexivity. }
      pose proof (@sole_map (fun x => set_fields (map upd (r_fields x)) x)
                    _ c (nextId c) Hsole (fun x => conj eq_refl eq_refl)) as Hsole1.
      simpl in Hsole1.
      assert (Hnames1 : map f_name (map upd G) = map f_name G).
      { rewrite map_map. apply map_ext. intro f. apply Hupd. }
      assert (Hids1 : map f_id (map upd G) = map f_id G).
      { rewrite map_map. apply map_ext. intro f. apply Hupd. }
      match type of Hsole1 with
      | sole_row _ ?c1 =>
          destruct (IH (map upd G) c1 s1 Hsole1 Hnew) as
            (c' & s' & G' & Hrun & Hsole' & Hnd' & Hkeep & Hcover & Hdata)
      end.
      * rewrite Hnames1. exact Hnames.
      * exact Hold.
      * intros f e' Hf He'. apply in_map_iff in Hf as (f0 & <- & Hf0).
        destruct (Hupd f0) as [-> ->]. apply Hsame; assumption.
      * intros e' p He' Hp Hpname. rewrite Hids1.
        apply (Hpresent e' p He' (or_intror Hp) Hpname).
      * intros p Hp Hout. rewrite Hnames1. apply Hfree; [right; exact Hp | exact Hout].
      * exists c', s', G'. split; [ | split; [exact Hsole' | split; [exact Hnd' | ]]].
        { unfold bind. rewrite Hwrite. exact Hrun. }
        assert (Hpersist : forall f, In f G -> In (f_name f) (map f_name G')).
        { intros f Hf. destruct (Hupd f) as [<- _]. apply Hkeep, in_map, Hf. }
        split; [exact Hpersist | split].
        { intros p [<- | Hp]; [ | apply Hcover, Hp]. simpl.
          apply in_map_iff in Hin as (f0 & Hid & Hf0).
          rewrite <- Hname.
          rewrite <- (proj1 (Hsame f0 e Hf0 He) Hid). apply Hpersist, Hf0. }
        { intros f' Hf'. destruct (Hdata f' Hf') as [(p & Hp & Hpn & Hpd) | [Hin1 Hnone]].
          - left. exists p. split; [right; exact Hp | split; assumption].
          - apply in_map_iff in Hin1 as (f0 & <- & Hf0).
            unfold upd in *. destruct (Nat.eqb_spec (f_id f0) (f_id e)) as [Hid | Hid].
            + left. exists (i, d). split; [left; reflexivity | ].
              pose proof (proj1 (Hsame f0 e Hf0 He) Hid) as Hn.
              simpl. rewrite Hn, Hname. split; reflexivity.
            + right. split; [exact Hf0 | ].
              intros p [<- | Hp]; [ | apply Hnone, Hp].
              simpl. intro Hn. apply Hid.
              apply (proj2 (Hsame f0 e Hf0 He)). rewrite <- Hn. symmetry. exact Hname. }
    + (* the field is new: it is created *)
      apply map_get_absent in Hget.
      assert (Hout : ~ In (fd_name d) (map f_name G))
        by (apply (Hfree (i, d) (or_introl eq_refl)); exact Hget).
      set (created := field_row (nextId c) (field_data i d)).
      set (g := fun x : ResourceRow =>
                  if Nat.eqb (r_id x) (r_id r)
                  then set_fields (r_fields x ++ [created])%list x
                  else x).
      destruct (@prisma_write_up _ unit (field_create (r_id r) (field_data i d))
                  (mkWorld c s)
                  (mkCatalog (map g (resources c)) (S (nextId c))) tt Hup)
        as (s1 & Hwrite).
      { pose proof (sole_find_id Hsole) as Hfind.
        change (r_id (set_fields G r)) with (r_id r) in Hfind.
        unfold field_create. simpl catalog. rewrite Hfind. simpl r_fields.
        change (d_name (field_data i d)) with (fd_name d).
        rewrite (existsb_absent _ _ Hout). reflexivity. }
      pose proof (@sole_map g _ c (S (nextId c)) Hsole) as Hsole1.
      assert (Hg : forall x, r_name (g x) = r_name x /\ r_id (g x) = r_id x).
      { intro x. unfold g. destruct (Nat.eqb (r_id x) (r_id r)); split; reflexivity. }
      specialize (Hsole1 Hg).
      assert (Hgr : g (set_fields G r) = set_fields (G ++ [created])%list r).
      { unfold g. simpl. rewrite Nat.eqb_refl. reflexivity. }
      rewrite Hgr in Hsole1.
      destruct (IH (G ++ [created])%list _ s1 Hsole1 Hnew) as
        (c' & s' & G' & Hrun & Hsole' & Hnd' & Hkeep & Hcover & Hdata).
      * rewrite map_app. simpl. apply NoDup_snoc; assumption.
      * intros e He. simpl. specialize (Hold e He). lia.
      * intros f e Hf He. apply in_app_iff in Hf as [Hf | [<- | []]];
          [apply Hsame; assumption | ].
        simpl. split; intro Heq.
        -- specialize (Hold e He). lia.
        -- exfalso. apply Hget. rewrite Heq. apply in_map, He.
      * intros e p He Hp Hpn. rewrite map_app. apply in_or_app. left.
        apply (Hpresent e p He (or_intror Hp) Hpn).
      * intros p Hp Hpout. rewrite map_app. intro Hin.
        apply in_app_iff in Hin as [Hin | [Hin | []]].
        -- apply (Hfree p (or_intror Hp) Hpout Hin).
        -- apply Hfresh. simpl in Hin. rewrite Hin.
           apply (in_map (fun q => fd_name (snd q))), Hp.
      * exists c', s', G'. split; [ | split; [exact Hsole' | split; [exact Hnd' | ]]].
        { unfold bind. rewrite Hwrite. exact Hrun. }
        split; [ | split].
        { intros f Hf. apply Hkeep, in_or_app. left. exact Hf. }
        { intros p [<- | Hp]; [ | apply Hcover, Hp].
          apply (Hkeep created). apply in_or_app. right. left. reflexivity. }
        { intros f' Hf'. destruct (Hdata f' Hf') as [(p & Hp & Hpn & Hpd) | [Hin1 Hnone]].
          - left. exists p. split; [right; exact Hp | split; assumption].
          - apply in_app_iff in Hin1 as [Hin1 | [<- | []]].
            + right. split; [exact Hin1 | ].
              intros p [<- | Hp]; [ | apply Hnone, Hp].
              simpl. intro Hn. apply Hout. rewrite Hn. apply in_map, Hin1.
            + left. exists (i, d). split; [left; reflexivity | split; reflexivity]. }
Qed.

End UpsertPhase.

Section UpdateRoundTrip.
Import Js Types Store Text ResourceService DynamicDataService Vocabulary Further.
Import CatalogShape.
Context {B : Builtins} {P : Postgres}.

Lemma NoDup_map_filter {A K} (key : A -> K) (p : A -> bool) (l : list A) :
  NoDup (map key l) -> NoDup (map key (List.filter p l)).
Proof.
  induction l as [| a l IH]; simpl; intro H; [constructor | ].
  apply NoDup_cons_iff in H as [Hfresh H].
  destruct (p a); simpl; [ | apply IH, H].
  constructor; [ | apply IH, H].
  intro Hin. apply Hfresh. apply in_map_iff in Hin as (x & Hx & Hin).
  apply filter_In in Hin as [Hin _]. rewrite <- Hx. apply in_map, Hin.
Qed.

Lemma run_statements_accepted (statements : list string) :
  accepts statements ->
  forall w, exists s', run_statements statements w = (mkWorld (catalog w) s', inr tt).
Proof.
  induction statements as [| text rest IH]; intros Hacc w.
  - exists (server w). destruct w. reflexivity.
  - destruct (Hacc text (server w) (or_introl eq_refl)) as (rows & Hrows).
    destruct (client_query text [] (server w)) as [s1 o] eqn:E. simpl in Hrows. subst o.
    destruct (IH (fun t s H => Hacc t s (or_intror H)) (mkWorld (catalog w) s1))
      as (s' & Hrun).
    exists s'. simpl run_statements. unfold bind.
    rewrite (query_outcome _ _ _ E). exact Hrun.
Qed.

Lemma updateTableSchema_accepted (existing : ResourceRow) (newFields : list FieldDefinition) :
  pool_up ->
  accepts (updateTableSchema_statements (r_tableName existing) (r_fields existing)
             newFields) ->
  forall w, exists s',
    updateTableSchema existing newFields w = (mkWorld (catalog w) s', inr tt).
Proof.
  intros Hpool Hacc w. unfold updateTableSchema, bind.
  destruct (pool_connect (server w)) as [s1 o] eqn:E.
  pose proof (Hpool (server w)) as H. rewrite E in H. simpl in H. subst o.
  rewrite (connect_resolved _ E).
  destruct (run_statements_accepted Hacc (mkWorld (catalog w) s1)) as (s2 & Hrun).
  unfold try_finally_release. rewrite Hrun. simpl.
  exists (client_release s2). reflexivity.
Qed.

Lemma findUnique_up (name : string) (inc : Include) (w : World) :
  engine_up ->
  exists s',
    findUnique name inc w
    = (mkWorld (catalog w) s', inr (option_map (included inc) (find_resource name (catalog w)))).
Proof.
  intro Hup. destruct (prisma_call (server w)) as [s' o] eqn:E.
  pose proof (Hup (server w)) as H. rewrite E in H. simpl in H. subst o.
  exists s'. apply findUnique_resolved. exact E.
Qed.

(** The fields a change of declaration leaves in the catalog: each holds
    the data of a declared field, and each declared name is there, once. *)
Lemma updateFields_outcome (r : ResourceRow) (c : Catalog) (s : Server)
    (newFields : list FieldDefinition) :
  engine_up ->
  sole_row r c ->
  sound_fields r c ->
  NoDup (map fd_name newFields) ->
  exists c' s' G',
    updateFields (with_ordered_fields r) newFields (mkWorld c s)
    = (mkWorld c' s', inr tt)
    /\ sole_row (set_fields G' r) c'
    /\ NoDup (map f_name G')
    /\ (forall p, In p (indexed_from 0 newFields) -> In (fd_name (snd p)) (map f_name G'))
    /\ (forall f', In f' G' ->
          exists p, In p (indexed_from 0 newFields) /\ fd_name (snd p) = f_name f'
                    /\ data_of f' = field_data (fst p) (snd p)).
Proof.
  intros Hup Hsole (Hids & Hnames & Hbelow) Hnew.
  set (old := r_fields r) in *.
  set (E := order_fields old).
  assert (Hperm : Permutation old E) by apply order_fields_perm.
  assert (HE : forall e, In e E <-> In e old) by (intro e; apply order_fields_In).
  assert (HidsE : NoDup (map f_id E))
    by (apply (Permutation_NoDup (Permutation_map f_id Hperm)), Hids).
  assert (Hsole0 : sole_row (set_fields old r) c).
  { replace (set_fields old r) with r; [exact Hsole | ]. destruct r. reflexivity. }
  destruct (@delete_phase P r newFields Hup E old c s Hsole0 HidsE)
    as (c1 & s1 & Hdelete & Hsole1 & Hnext1).
  { intros e He _. apply in_map, HE, He. }
  set (G0 := List.filter _ old) in Hsole1.
  assert (HG0 : forall f, In f G0 <-> In f old /\ map_has fd_name newFields (f_name f) = true).
  { intro f. unfold G0. rewrite filter_In. split; intros [Hf Hp]; split; try exact Hf.
    - destruct (map_has fd_name newFields (f_name f)) eqn:Hhas; [reflexivity | ].
      apply Bool.negb_true_iff in Hp.
      assert (Hyes : existsb
                (fun e => negb (map_has fd_name newFields (f_name e))
                          && Nat.eqb (f_id f) (f_id e)) E = true).
      { apply existsb_exists. exists f. split; [apply HE, Hf | ].
        rewrite Hhas, Nat.eqb_refl. reflexivity. }
      congruence.
    - apply Bool.negb_true_iff.
      destruct (existsb _ E) eqn:Hex; [ | reflexivity].
      apply existsb_exists in Hex as (e & He & Hboth).
      apply andb_prop in Hboth as [Hgone Hid].
      apply Nat.eqb_eq in Hid. apply HE in He.
      rewrite (NoDup_key_inj f_id old f e Hids Hf He Hid) in Hp.
      rewrite Hp in Hgone. discriminate. }
  assert (Hrest : map (fun p : nat * FieldDefinition => fd_name (snd p))
                    (indexed_from 0 newFields) = map fd_name newFields).
  { rewrite <- (map_map snd fd_name), indexed_from_snd. reflexivity. }
  destruct (@upsert_phase P r E Hup (indexed_from 0 newFields) G0 c1 s1 Hsole1)
    as (c2 & s2 & G' & Hupsert & Hsole2 & Hnd2 & _ & Hcover & Hdata).
  - rewrite Hrest. exact Hnew.
  - apply NoDup_map_filter, Hnames.
  - intros e He. rewrite Hnext1. apply Hbelow, HE, He.
  - intros f e Hf He. apply HG0 in Hf as [Hf _]. apply HE in He.
    split; intro Heq.
    + rewrite (NoDup_key_inj f_id old f e Hids Hf He Heq). reflexivity.
    + rewrite (NoDup_key_inj f_name old f e Hnames Hf He Heq). reflexivity.
  - intros e p He Hp Hpn. apply in_map, HG0. split; [apply HE, He | ].
    apply existsb_exists. exists (snd p). split.
    + rewrite <- (indexed_from_snd newFields 0). apply in_map, Hp.
    + apply String.eqb_eq. exact Hpn.
  - intros p Hp Hout Hin. apply Hout.
    apply in_map_iff in Hin as (f & Hf & Hin). apply HG0 in Hin as [Hin _].
    rewrite <- Hf. apply in_map, HE, Hin.
  - exists c2, s2, G'. split; [ | split; [exact Hsole2 | split; [exact Hnd2 | split]]].
    + unfold updateFields, bind.
      change (r_fields (with_ordered_fields r)) with E.
      change (r_id (with_ordered_fields r)) with (r_id r).
      rewrite Hdelete. exact Hupsert.
    + exact Hcover.
    + intros f' Hf'. destruct (Hdata f' Hf') as [Hleft | [Hin Hnone]]; [exact Hleft | ].
      exfalso. apply HG0 in Hin as [_ Hhas].
      apply existsb_exists in Hhas as (d & Hd & Heq). apply String.eqb_eq in Heq.
      rewrite <- (indexed_from_snd newFields 0) in Hd.
      apply in_map_iff in Hd as (p & <- & Hp).
      apply (Hnone p Hp). exact Heq.
Qed.

Lemma stored_fields_in_order (G' : list FieldRow) (newFields : list FieldDefinition) :
  NoDup (map fd_name newFields) ->
  NoDup (map f_name G') ->
  (forall p, In p (indexed_from 0 newFields) -> In (fd_name (snd p)) (map f_name G')) ->
  (forall f', In f' G' ->
     exists p, In p (indexed_from 0 newFields) /\ fd_name (snd p) = f_name f'
               /\ data_of f' = field_data (fst p) (snd p)) ->
  map data_of (order_fields G') = declared_data newFields.
Proof.
  intros Hnew Hnd Hcover Hdata.
  assert (Hrest : NoDup (map (fun p : nat * FieldDefinition => fd_name (snd p))
                           (indexed_from 0 newFields))).
  { rewrite <- (map_map snd fd_name), indexed_from_snd. exact Hnew. }
  assert (Horders : NoDup (map f_order G')).
  { apply (NoDup_map_by f_name f_order G' Hnd). intros x y Hx Hy Heq.
    destruct (Hdata x Hx) as ([i d] & Hp & Hpn & Hpd).
    destruct (Hdata y Hy) as ([j d'] & Hq & Hqn & Hqd).
    simpl in *.
    assert (Hi : f_order x = i) by (change (d_order (data_of x) = i); rewrite Hpd; reflexivity).
    assert (Hj : f_order y = j) by (change (d_order (data_of y) = j); rewrite Hqd; reflexivity).
    assert (Hij : j = i) by congruence.
    apply indexed_from_In in Hp as [_ Hp]. apply indexed_from_In in Hq as [_ Hq].
    rewrite Hij, Hp in Hq. injection Hq as <-. congruence. }
  apply (sorted_unique d_order).
  - apply sorted_map. apply (order_fields_sorted G' Horders).
  - apply declared_data_sorted.
  - intro x. unfold declared_data. rewrite !in_map_iff. split.
    + intros (f' & <- & Hf'). apply (proj1 (order_fields_In f' G')) in Hf'.
      destruct (Hdata f' Hf') as ([i d] & Hp & _ & Hpd).
      exists (i, d). split; [symmetry; exact Hpd | exact Hp].
    + intros ([i d] & <- & Hp).
      pose proof (Hcover (i, d) Hp) as Hin. simpl in Hin.
      apply in_map_iff in Hin as (f' & Hname & Hf').
      destruct (Hdata f' Hf') as (q & Hq & Hqn & Hqd).
      assert (Hsame : q = (i, d)).
      { apply (NoDup_key_inj (fun p : nat * FieldDefinition => fd_name (snd p))
                 (indexed_from 0 newFields) q (i, d) Hrest Hq Hp).
        simpl. congruence. }
      subst q. exists f'. split; [exact Hqd | apply (proj2 (order_fields_In f' G')), Hf'].
Qed.

(** X27. Change the declaration, then read it back.  Let the resource be
    in the catalog under a name and an id of its own, with fields of
    distinct ids and names; let the new declaration name no field twice; and
    let the engine, the pool and the server accept what the change sends
    them.  Then [updateResource] succeeds and returns the resource as a
    [getResource] then finds it: with the id, the name and the table name it
    had (the name in the new declaration is not looked at), with the display
    name and the description of the new declaration, and with exactly the
    declared fields, in the declared order, each with the declared data and
    its position as order. *)
Theorem update_then_get (definition : ResourceDefinition) (r : ResourceRow) (w : World) :
  engine_up -> pool_up ->
  accepts (updateTableSchema_statements (r_tableName r) (order_fields (r_fields r))
             (rd_fields definition)) ->
  sole_row r (catalog w) ->
  sound_fields r (catalog w) ->
  NoDup (map fd_name (rd_fields definition)) ->
  exists w' r',
    updateResource (r_name r) definition w
    = (w', inr (mkResponse true (Some (DataResource r')) None
                  (Some ("Resource '" ++ r_name r ++ "' updated successfully"))))
    /\ snd (getResource (r_name r) w') = inr (success_with (DataResource r') None)
    /\ r_id r' = r_id r
    /\ r_name r' = r_name r
    /\ r_tableName r' = r_tableName r
    /\ r_displayName r' = or_null (rd_displayName definition)
    /\ r_description r' = or_null (rd_description definition)
    /\ map data_of (r_fields r') = declared_data (rd_fields definition).
Proof.
  intros Hup Hpool Hacc Hsole Hsound Hnew.
  destruct w as [c s]. simpl in Hsole, Hsound.
  set (name := r_name r).
  set (labelled := set_labels (or_null (rd_displayName definition))
                     (or_null (rd_description definition)) r).
  (* the lookup *)
  destruct (findUnique_up name FieldsByOrder (mkWorld c s) Hup) as (s1 & Hlookup).
  simpl in Hlookup. unfold name in Hlookup. rewrite (sole_find Hsole) in Hlookup.
  simpl in Hlookup. fold name in Hlookup.
  (* the labels *)
  set (g := fun x : ResourceRow =>
              if String.eqb (r_name x) name
              then set_labels (or_null (rd_displayName definition))
                     (or_null (rd_description definition)) x
              else x).
  destruct (@prisma_write_up P ResourceRow
              (resource_update name (or_null (rd_displayName definition))
                 (or_null (rd_description definition)))
              (mkWorld c s1) (mkCatalog (map g (resources c)) (nextId c)) labelled Hup)
    as (s2 & Hlabels).
  { unfold resource_update. simpl catalog. unfold name. rewrite (sole_find Hsole).
    reflexivity. }
  assert (Hg : forall x, r_name (g x) = r_name x /\ r_id (g x) = r_id x).
  { intro x. unfold g. destruct (String.eqb (r_name x) name); split; reflexivity. }
  pose proof (@sole_map g r c (nextId c) Hsole Hg) as Hsole1.
  assert (Hgr : g r = labelled) by (unfold g, name; rewrite String.eqb_refl; reflexivity).
  rewrite Hgr in Hsole1.
  (* the fields *)
  destruct (@updateFields_outcome labelled (mkCatalog (map g (resources c)) (nextId c)) s2
              (rd_fields definition) Hup Hsole1 Hsound Hnew)
    as (c3 & s3 & G' & Hfields & Hsole3 & Hnd3 & Hcover & Hdata).
  (* the table *)
  destruct (@updateTableSchema_accepted (with_ordered_fields r) (rd_fields definition)
              Hpool Hacc (mkWorld c3 s3)) as (s4 & Htable).
  simpl catalog in Htable.
  (* the read inside the transaction, and the commit *)
  destruct (findUnique_up name FieldsByOrder (mkWorld c3 s4) Hup) as (s5 & Hread).
  simpl catalog in Hread.
  pose proof (sole_find Hsole3) as Hfound. simpl r_name in Hfound. fold name in Hfound.
  rewrite Hfound in Hread. simpl option_map in Hread.
  destruct (prisma_call s5) as [s6 o] eqn:Hcommit.
  pose proof (Hup s5) as Ho. rewrite Hcommit in Ho. simpl in Ho. subst o.
  set (r' := with_ordered_fields (set_fields G' labelled)) in *.
  exists (mkWorld c3 s6), r'. split; [ | split].
  - unfold updateResource, try_catch, bind at 1. fold name. rewrite Hlookup.
    unfold bind at 1. unfold transaction.
    unfold bind at 1. rewrite Hlabels.
    unfold bind at 1.
    change (updateFields (with_ordered_fields r) (rd_fields definition)
              (mkWorld (mkCatalog (map g (resources c)) (nextId c)) s2))
      with (updateFields (with_ordered_fields labelled) (rd_fields definition)
              (mkWorld (mkCatalog (map g (resources c)) (nextId c)) s2)).
    rewrite Hfields.
    unfold bind at 1. rewrite Htable. rewrite Hread. simpl server. rewrite Hcommit.
    reflexivity.
  - destruct (findUnique_up name FieldsByOrder (mkWorld c3 s6) Hup) as (s7 & Hget).
    simpl catalog in Hget. rewrite Hfound in Hget.
    unfold getResource, try_catch, bind. fold name. rewrite Hget. reflexivity.
  - repeat split.
    apply (stored_fields_in_order G' (rd_fields definition) Hnew Hnd3 Hcover Hdata).
Qed.

End UpdateRoundTrip.

(* ------------------------------------------------------------------ *)
(** ** The routes and the request schemas *)

Section RouteFacts.
Import Js Types Store Text ResourceService DynamicDataService Vocabulary Further.
Import Schemas Routes RouteVocabulary.
Context {B : Builtins} {P : Postgres} {I : IssueTexts}.

Lemma answer_after (call : M ApiResponse) (ok failed : nat) (w : World) :
  (forall w0, exists w' response, call w0 = (w', inr response)) ->
  exists w' http,
    bind call (fun result => ret (answer ok failed result)) w = (w', inr http)
    /\ (success (body http) = true /\ status http = ok
        \/ success (body http) = false /\ (status http = failed \/ status http = 400)).
Proof.
  intro Hresolves. destruct (Hresolves w) as (w' & response & E).
  exists w', (answer ok failed response). split.
  - unfold bind. rewrite E. reflexivity.
  - unfold answer. destruct (success response) eqn:S; simpl; rewrite S; auto.
Qed.

Lemma refusal_answers (err : string) (msg : option string) (w : World) (failed ok : nat) :
  exists w' http,
    ret (refuse err msg) w = (w', inr http)
    /\ (success (body http) = true /\ status http = ok
        \/ success (body http) = false /\ (status http = failed \/ status http = 400)).
Proof. exists w, (refuse err msg). split; [reflexivity | right; split; auto]. Qed.

(** X22. Every route answers, and the status tells the outcome.  None of
    the ten handlers rejects, so none reaches the error middleware; a
    response whose envelope says success has the success status of its
    route (201 for the two creations, 200 otherwise), and a response whose
    envelope says failure has the failure status of its route or 400. *)
Theorem routes_answer_with_a_status (resource idParam name : string) (query : JsObject)
    (data : option JsObject) (declaration : ResourceDefinition) :
  Forall
    (fun route =>
       forall w, exists w' http,
         fst route w = (w', inr http)
         /\ (success (body http) = true /\ status http = fst (snd route)
             \/ success (body http) = false
                /\ (status http = snd (snd route) \/ status http = 400)))
    (route_calls resource idParam name query data declaration).
Proof.
  unfold route_calls.
  repeat (apply Forall_cons; [ | ]); try apply Forall_nil; intro w; cbn [fst snd].
  - unfold list_route. destruct (queryOptionsSchema query); [ | apply refusal_answers].
    destruct (is_empty resource); [apply refusal_answers | ].
    apply answer_after. intro w0. apply try_catch_resolves.
  - unfold get_route, with_id.
    destruct (is_empty resource || is_empty idParam); [apply refusal_answers | ].
    destruct (parseInt _); [ | apply refusal_answers].
    apply answer_after. intro w0. apply try_catch_resolves.
  - unfold create_route.
    destruct (is_empty resource); [apply refusal_answers | ].
    destruct (no_data data); [apply refusal_answers | ].
    apply answer_after. intro w0. apply try_catch_resolves.
  - unfold update_route, with_id.
    destruct (is_empty resource || is_empty idParam); [apply refusal_answers | ].
    destruct (parseInt _); [ | apply refusal_answers].
    destruct (no_data data); [apply refusal_answers | ].
    apply answer_after. intro w0. apply try_catch_resolves.
  - unfold delete_route, with_id.
    destruct (is_empty resource || is_empty idParam); [apply refusal_answers | ].
    destruct (parseInt _); [ | apply refusal_answers].
    apply answer_after. intro w0. apply try_catch_resolves.
  - unfold define_route.
    destruct (resourceDefinitionSchema declaration); [ | apply refusal_answers].
    apply answer_after. intro w0. apply try_catch_resolves.
  - unfold resources_route.
    apply answer_after. intro w0. apply try_catch_resolves.
  - unfold resource_route.
    destruct (is_empty name); [apply refusal_answers | ].
    apply answer_after. intro w0. apply try_catch_resolves.
  - unfold redefine_route.
    destruct (resourceDefinitionSchema declaration); [ | apply refusal_answers].
    destruct (is_empty name); [apply refusal_answers | ].
    apply answer_after. intro w0. apply try_catch_resolves.
  - unfold remove_route.
    destruct (is_empty name); [apply refusal_answers | ].
    apply answer_after. intro w0. apply try_catch_resolves.
Qed.

Lemma refuse_unseen (err : string) (msg : option string) (w : World) :
  refused_unseen (ret (refuse err msg)) w.
Proof. exists (refuse err msg). repeat split. Qed.

(** X23. A request that fails the checks of its route is answered 400
    without a call to the store: the world, catalog and server, is the one
    before the request.  This holds for a query string the schema refuses,
    for an id that does not parse to a number, for a missing or empty body,
    and for a declaration the schema refuses. *)
Theorem malformed_requests_reach_no_store (resource idParam name : string)
    (query : JsObject) (data : option JsObject) (declaration : ResourceDefinition)
    (w : World) :
  (queryOptionsSchema query = None -> refused_unseen (list_route resource query) w)
  /\ (parseInt (Some (JStr idParam)) = None ->
      Forall (fun h => refused_unseen h w)
        [get_route resource idParam; update_route resource idParam data;
         delete_route resource idParam])
  /\ (no_data data = true ->
      Forall (fun h => refused_unseen h w)
        [create_route resource data; update_route resource idParam data])
  /\ (resourceDefinitionSchema declaration = None ->
      Forall (fun h => refused_unseen h w)
        [define_route declaration; redefine_route name declaration]).
Proof.
  repeat split.
  - intro H. unfold list_route. rewrite H. apply refuse_unseen.
  - intro H. repeat constructor;
      unfold get_route, update_route, delete_route, with_id; rewrite H;
      destruct (is_empty resource || is_empty idParam); apply refuse_unseen.
  - intro H. repeat constructor.
    + unfold create_route. rewrite H.
      destruct (is_empty resource); apply refuse_unseen.
    + unfold update_route, with_id. rewrite H.
      destruct (is_empty resource || is_empty idParam); [apply refuse_unseen | ].
      destruct (parseInt _); apply refuse_unseen.
  - intro H. repeat constructor;
      unfold define_route, redefine_route; rewrite H; apply refuse_unseen.
Qed.

End RouteFacts.

Section SchemaFacts.
Import Js Types Store Text ResourceService DynamicDataService Vocabulary Further.
Import Schemas Routes RouteVocabulary.
Local Open Scope Z_scope.

Lemma digits_number_nonneg (s : string) :
  forall acc, 0 <= acc -> 0 <= digits_number acc s.
Proof.
  induction s as [ | c rest IH]; intros acc Hacc; simpl; [exact Hacc | ].
  apply IH. lia.
Qed.

Lemma optional_digits_nonneg (v : option Json) (n : option Z) :
  optional_digits v = Some n -> forall z, n = Some z -> 0 <= z.
Proof.
  unfold optional_digits. intros H z ->.
  destruct v as [[ | | | s | | | ] | ]; try discriminate.
  destruct (digits_pattern s); [ | discriminate].
  injection H as <-. apply digits_number_nonneg. lia.
Qed.

Lemma or_default_positive (n : option Z) (fallback : Z) :
  (forall z, n = Some z -> 0 <= z) -> 1 <= fallback -> 1 <= or_default n fallback.
Proof.
  intros Hn Hf. unfold or_default. destruct n as [z | ]; [ | exact Hf].
  destruct (Z.eqb_spec z 0); [exact Hf | ]. specialize (Hn z eq_refl). lia.
Qed.

Lemma append_empty (s : string) : s ++ EmptyString = s.
Proof. induction s as [ | c rest IH]; simpl; [reflexivity | now rewrite IH]. Qed.

(** X24. What a list request can ask over HTTP.  The query schema reads
    four keys and drops the rest, so the options that reach the service
    never carry a filter: both statements go out without a WHERE clause,
    the page statement binds the limit and the offset only, and the count
    binds nothing.  The page and the limit are numbers written in digits,
    so the limit sent is at least 1 and the offset is never negative. *)
Theorem list_requests_carry_no_filter (query : JsObject) (options : QueryOptions) :
  queryOptionsSchema query = Some options ->
  filter options = None
  /\ 1 <= page_number options
  /\ 1 <= page_limit options
  /\ 0 <= page_offset options
  /\ forall tableName,
       text (getData_query tableName options)
       = "SELECT * FROM " ++ quoted tableName ++ order_clause options
         ++ " LIMIT $1 OFFSET $2"
       /\ values (getData_query tableName options)
          = [JInt (page_limit options); JInt (page_offset options)]
       /\ getData_countQuery tableName options
          = mkQuery ("SELECT COUNT(*) as total FROM " ++ quoted tableName) [].
Proof.
  unfold queryOptionsSchema.
  destruct (optional_digits (get query "page")) as [p | ] eqn:Hp; [ | discriminate].
  destruct (optional_digits (get query "limit")) as [l | ] eqn:Hl; [ | discriminate].
  destruct (optional_string (get query "sort")) as [s | ]; [ | discriminate].
  destruct (optional_order (get query "order")) as [o | ]; [ | discriminate].
  intros [= <-].
  assert (Hnumber : 1 <= page_number (mkOptions p l s o None))
    by (apply or_default_positive; [apply (optional_digits_nonneg _ Hp) | lia]).
  assert (Hlimit : 1 <= page_limit (mkOptions p l s o None))
    by (apply or_default_positive; [apply (optional_digits_nonneg _ Hl) | lia]).
  repeat split; try assumption.
  - unfold page_offset. nia.
  - unfold getData_countQuery. cbn [filter where_clause filter_values].
    rewrite append_empty. reflexivity.
Qed.

Lemma all_chars_impl (p q : ascii -> bool) (s : string) :
  (forall c, p c = true -> q c = true) -> all_chars p s = true -> all_chars q s = true.
Proof.
  intro Hpq. induction s as [ | c rest IH]; simpl; [reflexivity | ].
  intro H. apply andb_prop in H as [Hc Hrest].
  rewrite (Hpq c Hc), (IH Hrest). reflexivity.
Qed.

Lemma identifier_is_word (s : string) :
  identifier_pattern s = true -> all_chars is_word s = true.
Proof.
  destruct s as [ | c rest]; simpl; [discriminate | ].
  intro H. apply andb_prop in H as [Hc Hrest].
  rewrite Hrest. unfold is_word. rewrite Hc. reflexivity.
Qed.

Lemma word_is_not_quote (c : ascii) : is_word c = true -> Ascii.eqb quote_char c = false.
Proof.
  intro H. destruct (Ascii.eqb_spec quote_char c) as [<- | ]; [ | reflexivity].
  discriminate H.
Qed.

Lemma word_has_no_quote (s : string) :
  all_chars is_word s = true -> occurs quote_char s = false.
Proof.
  induction s as [ | c rest IH]; cbn [occurs all_chars]; [reflexivity | ].
  intro H. apply andb_prop in H as [Hc Hrest].
  rewrite (word_is_not_quote _ Hc), (IH Hrest). reflexivity.
Qed.

Lemma lower_of_word (c : ascii) : is_word c = true -> is_lower_word (lower_ascii c) = true.
Proof.
  destruct c as [[] [] [] [] [] [] [] []]; intro H; try discriminate H; reflexivity.
Qed.

Lemma toLowerCase_of_word (s : string) :
  all_chars is_word s = true -> all_chars is_lower_word (toLowerCase s) = true.
Proof.
  induction s as [ | c rest IH]; cbn [toLowerCase all_chars]; [reflexivity | ].
  intro H. apply andb_prop in H as [Hc Hrest].
  rewrite (lower_of_word _ Hc), (IH Hrest). reflexivity.
Qed.

Lemma toLowerCase_length (s : string) : String.length (toLowerCase s) = String.length s.
Proof. induction s as [ | c rest IH]; simpl; [reflexivity | now rewrite IH]. Qed.

Lemma name_schema_facts (s : string) :
  name_schema s = true ->
  all_chars is_word s = true /\ (1 <= String.length s <= 50)%nat.
Proof.
  unfold name_schema. intro H.
  apply andb_prop in H as [H Hid]. apply andb_prop in H as [Hlo Hhi].
  apply Nat.leb_le in Hlo, Hhi. split; [apply identifier_is_word, Hid | lia].
Qed.

(** X25. Names the declaration schema lets through.  A declaration the
    schema accepts keeps its name and the names of its fields; each of them
    is made of letters, digits and underscores, 1 to 50 of them, so none
    holds a double quote and the quoting of identifiers cannot be left from
    inside.  The table name made of the resource name is [dyn_] followed by
    lower-case letters, digits and underscores, at most 54 characters.  The
    declaration has at least one field and each field comes out with both
    flags set. *)
Theorem accepted_names_are_plain (declaration validated : ResourceDefinition) :
  resourceDefinitionSchema declaration = Some validated ->
  rd_name validated = rd_name declaration
  /\ map fd_name (rd_fields validated) = map fd_name (rd_fields declaration)
  /\ rd_fields validated <> []
  /\ occurs quote_char (rd_name validated) = false
  /\ (exists tail,
        generateTableName (rd_name validated) = "dyn_" ++ tail
        /\ all_chars is_lower_word tail = true
        /\ (String.length tail <= 50)%nat)
  /\ Forall
       (fun f =>
          all_chars is_word (fd_name f) = true
          /\ (1 <= String.length (fd_name f) <= 50)%nat
          /\ occurs quote_char (fd_name f) = false
          /\ fd_isRequired f <> None
          /\ fd_isUnique f <> None)
       (rd_fields validated).
Proof.
  unfold resourceDefinitionSchema.
  destruct (name_schema (rd_name declaration)) eqn:Hname; [ | discriminate].
  destruct (optional_text 100 (rd_displayName declaration)); [ | discriminate].
  destruct (optional_text 500 (rd_description declaration)); [ | discriminate].
  destruct (forallb field_schema (rd_fields declaration)) eqn:Hfields; [ | discriminate].
  destruct (Nat.leb 1 (List.length (rd_fields declaration))) eqn:Hsome; [ | discriminate].
  cbn [andb]. intros [= <-]. cbn [rd_name rd_fields].
  destruct (name_schema_facts _ Hname) as [Hword Hlength].
  repeat split.
  - rewrite map_map. apply map_ext. reflexivity.
  - destruct (rd_fields declaration); [discriminate Hsome | discriminate].
  - apply word_has_no_quote, Hword.
  - exists (toLowerCase (rd_name declaration)). repeat split.
    + apply toLowerCase_of_word, Hword.
    + rewrite toLowerCase_length. lia.
  - apply Forall_forall. intros f Hin.
    apply in_map_iff in Hin as (f0 & <- & Hin0).
    rewrite forallb_forall in Hfields. specialize (Hfields f0 Hin0).
    unfold field_schema in Hfields. apply andb_prop in Hfields as [Hf _].
    destruct (name_schema_facts _ Hf) as [Hfw Hfl].
    cbn [with_flag_defaults fd_name fd_isRequired fd_isUnique].
    repeat split; try assumption; try lia; try discriminate.
    apply word_has_no_quote, Hfw.
Qed.

(** X26. The declaration routes take the path [/resources].  Whatever the
    case of its letters, a first segment [resources] sends the request to
    the declaration routes wherever one of them matches: the list of that
    path is the list of declarations, and a read, an update or a delete
    below it acts on the declaration named by the second segment, not on a
    record.  Only the POST on the path itself falls through to the data
    route.  The name [resources] passes the name schema, so a resource of
    that name can be declared and filled, while these paths never list,
    read, change or remove its records.  Under any other first segment the
    data routes decide alone. *)
Theorem declaration_routes_take_resources (segment : string) :
  name_schema "resources" = true
  /\ (segment_is "resources" segment = true ->
      api_router GET [segment] = ListResources
      /\ api_router POST [segment] = CreateData segment
      /\ forall second,
           api_router GET [segment; second] = ReadResource second
           /\ api_router PUT [segment; second] = RedefineResource second
           /\ api_router DELETE [segment; second] = RemoveResource second)
  /\ (segment_is "resources" segment = false ->
      forall method rest,
        api_router method (segment :: rest)
        = match dynamic_routes method (segment :: rest) with
          | Some route => route
          | None => NoRoute
          end).
Proof.
  split; [reflexivity | split].
  - intro H. unfold api_router. rewrite H. cbn.
    repeat split.
  - intros H method rest. unfold api_router. rewrite H.
    destruct method; reflexivity.
Qed.

End SchemaFacts.

(* ------------------------------------------------------------------ *)
(** ** Worked examples of the later sections *)

Section MoreWitnesses.
Import Js Types Store Text ResourceService DynamicDataService Vocabulary Further.
Import Examples MoreExamples Schemas Routes RouteVocabulary CatalogShape.

(** A [deleteResource] whose DROP TABLE is refused leaves [book] in the
    catalog. *)
Lemma catalog_writes_are_atomic_witness :
  catalog (fst (deleteResource (P := scriptedServer) "book"
                  (scriptedWorld bookCatalog guarded)))
  = bookCatalog.
Proof.
  apply (@catalog_writes_are_atomic exampleBuiltins scriptedServer "book" bookDefinition
           (deleteResource "book") (or_intror (or_intror (or_introl eq_refl)))
           (scriptedWorld bookCatalog guarded) _
           (failure "Failed to delete resource" "must be owner of table dyn_book"));
    reflexivity.
Defined.

(** Declaring [book] on an empty catalog and reading it back. *)
Lemma define_then_get_witness :
  snd (getResource (P := scriptedServer) "book"
         (fst (createResource (B := exampleBuiltins) (P := scriptedServer)
                 bookDefinition (scriptedWorld empty_catalog quiet))))
  = inr (success_with (DataResource bookRow) None)
  /\ r_tableName bookRow = "dyn_book"
  /\ map f_name (r_fields bookRow) = ["title"; "pages"].
Proof.
  destruct (@define_then_get exampleBuiltins scriptedServer bookDefinition
              (scriptedWorld empty_catalog quiet)
              (fst (createTable (B := exampleBuiltins) (P := scriptedServer) "dyn_book"
                      (rd_fields bookDefinition) (scriptedWorld bookCatalog quiet)))
              quiet quiet _ _ bookCatalog bookRow
              eq_refl eq_refl eq_refl eq_refl eq_refl eq_refl)
    as (_ & Hget & Htable & Hnames).
  split; [exact (f_equal snd Hget) | split; [exact Htable | exact Hnames]].
Defined.

(** Declaring [book] again, with other fields. *)
Lemma define_twice_witness :
  snd (createResource (B := exampleBuiltins) (P := scriptedServer)
         (mkResourceDef "book" None None [pagesField])
         (fst (createResource (B := exampleBuiltins) (P := scriptedServer)
                 bookDefinition (scriptedWorld empty_catalog quiet))))
  = inr (failure "Resource already exists" "Resource 'book' already exists").
Proof.
  exact (f_equal snd
           (@define_twice exampleBuiltins scriptedServer bookDefinition
              (mkResourceDef "book" None None [pagesField])
              (scriptedWorld empty_catalog quiet)
              (fst (createTable (B := exampleBuiltins) (P := scriptedServer) "dyn_book"
                      (rd_fields bookDefinition) (scriptedWorld bookCatalog quiet)))
              quiet quiet _ _ bookCatalog bookRow
              eq_refl eq_refl eq_refl eq_refl eq_refl eq_refl eq_refl)).
Defined.

(** Declaring [Book] beside [book]. *)
Lemma case_variants_collide_witness :
  createResource (B := exampleBuiltins) (P := scriptedServer) upperBookDefinition
    (scriptedWorld bookCatalog quiet)
  = (scriptedWorld bookCatalog quiet,
     inr (failure "Failed to create resource"
            "Unique constraint failed on the fields: (tableName)")).
Proof.
  exact (proj2 (proj2
           (@case_variants_collide exampleBuiltins scriptedServer upperBookDefinition
              (scriptedWorld bookCatalog quiet) quiet quiet bookRow
              eq_refl eq_refl eq_refl (or_introl eq_refl) eq_refl eq_refl))).
Defined.

(** Declaring [note] with two fields [title]. *)
Lemma duplicate_field_names_witness :
  createResource (B := exampleBuiltins) (P := scriptedServer) twiceTitled
    (scriptedWorld bookCatalog quiet)
  = (scriptedWorld bookCatalog quiet,
     inr (failure "Failed to create resource"
            "Unique constraint failed on the fields: (resourceId,name)")).
Proof.
  exact (@duplicate_field_names_refused exampleBuiltins scriptedServer twiceTitled
           (scriptedWorld bookCatalog quiet) quiet quiet
           eq_refl eq_refl eq_refl eq_refl eq_refl).
Defined.

(** Deleting [book], then listing and reading it. *)
Lemma delete_then_ask_witness :
  snd (deleteResource (P := scriptedServer) "book" (scriptedWorld bookCatalog quiet))
  = inr (mkResponse true None None (Some "Resource 'book' deleted successfully"))
  /\ snd (getData (B := exampleBuiltins) (P := scriptedServer) "book" no_options
            (fst (deleteResource (P := scriptedServer) "book"
                    (scriptedWorld bookCatalog quiet))))
     = inr (not_found "book").
Proof.
  destruct (@delete_then_ask exampleBuiltins scriptedServer "book" no_options
              (scriptedWorld bookCatalog quiet)
              (fst (dropTable (P := scriptedServer) "dyn_book"
                      (scriptedWorld (without "book" bookCatalog) quiet)))
              quiet quiet _ _ bookRow
              eq_refl eq_refl eq_refl eq_refl eq_refl eq_refl)
    as (Hdelete & _ & _ & Hlist & _).
  split; [exact (f_equal snd Hdelete) | exact (f_equal snd Hlist)].
Defined.

(** A table, an index the server refuses, and a trigger that is never
    sent. *)
Lemma statements_stop_witness :
  received (server (fst (run_statements (P := scriptedServer)
                           ["CREATE TABLE t"; "CREATE UNIQUE INDEX i"; "CREATE TRIGGER g"]
                           (scriptedWorld empty_catalog indexless))))
  = logged ["CREATE TABLE t"; "CREATE UNIQUE INDEX i"]
  /\ snd (run_statements (P := scriptedServer)
            ["CREATE TABLE t"; "CREATE UNIQUE INDEX i"; "CREATE TRIGGER g"]
            (scriptedWorld empty_catalog indexless))
     = inl (JsError "could not create unique index").
Proof.
  destruct (@statements_stop_at_first_failure exampleBuiltins scriptedServer
              ["CREATE TABLE t"] ["CREATE TRIGGER g"] "CREATE UNIQUE INDEX i"
              (scriptedWorld empty_catalog indexless)
              (scriptedWorld empty_catalog
                 (mkScripted (refused indexless) (logged ["CREATE TABLE t"])))
              (mkScripted (refused indexless)
                 (logged ["CREATE TABLE t"; "CREATE UNIQUE INDEX i"]))
              (JsError "could not create unique index") eq_refl eq_refl)
    as [Hrun _].
  cbn [app] in Hrun.
  split; [rewrite Hrun; reflexivity | exact (f_equal snd Hrun)].
Defined.

(** The fields of [book] declared again in the other order, the title with
    a display name and a default. *)
Lemma same_columns_witness :
  updateTableSchema_statements (B := exampleBuiltins) "dyn_book" (r_fields bookRow)
    relabelledFields
  = [].
Proof.
  apply same_columns_send_nothing.
  - repeat constructor; simpl; intuition discriminate.
  - intros d [<- | [<- | []]].
    + exists (mkFieldRow 2 "pages" None INTEGER false false None None 1).
      split; [right; left; reflexivity | repeat split].
    + exists (mkFieldRow 1 "title" None STRING true false None None 0).
      split; [left; reflexivity | repeat split].
  - intros f [<- | [<- | []]]; reflexivity.
Defined.

(** A payload for [book] without the required title. *)
(** A payload for [book] without the required title. *)
Lemma refused_payload_witness :
  createData (B := exampleBuiltins) (P := scriptedServer) "book" [("pages", JInt 3)]
    (scriptedWorld bookCatalog quiet)
  = (scriptedWorld bookCatalog quiet,
     inr (failure "Validation error" "Field 'title' is required")).
Proof.
  exact (proj1
           (proj1 (@refused_payload_sends_nothing exampleBuiltins scriptedServer "book"
                     0%Z [("pages", JInt 3)] no_options
                     (scriptedWorld bookCatalog quiet) quiet eq_refl)
              bookRow eq_refl)
           eq_refl).
Defined.

(** Page 3 of three books in pages of two. *)
Lemma page_past_the_end_witness :
  snd (getData (B := exampleBuiltins) (P := tableServer) "book"
         (paged no_options (Some 3%Z) (Some 2%Z)) (tableWorld bookCatalog threeBooks))
  = inr (success_with (DataPage [] (mkPagination 3 2 (Some 3%Z) (Some 2%Z))) None).
Proof.
  exact (f_equal snd
           (proj1
              (@page_past_the_end_is_empty exampleBuiltins tableServer
                 (tableWorld bookCatalog threeBooks) "book" bookRow no_options
                 threeBooks [("total", JStr "3")] []
                 eq_refl eq_refl eq_refl eq_refl (fun p l _ _ => eq_refl)
                 eq_refl eq_refl 2%Z 3%Z eq_refl eq_refl))).
Defined.

(** The default [it's] of a STRING column. *)
Lemma text_default_witness :
  read_sql_literal (formatDefaultValue (B := exampleBuiltins) (Some (JStr "it's")) "STRING")
  = Some "it's".
Proof.
  apply (@text_default_reads_back exampleBuiltins (JStr "it's")). discriminate.
Defined.


(** Page 2 in pages of ten, with a filter in the query string. *)
Lemma list_requests_witness :
  queryOptionsSchema filteredQuery = Some (mkOptions (Some 2%Z) (Some 10%Z) None None None)
  /\ values (getData_query "dyn_book" (mkOptions (Some 2%Z) (Some 10%Z) None None None))
     = [JInt 10; JInt 10].
Proof.
  destruct (@list_requests_carry_no_filter filteredQuery
              (mkOptions (Some 2%Z) (Some 10%Z) None None None) eq_refl)
    as (_ & _ & _ & _ & Hqueries).
  split; [reflexivity | exact (proj1 (proj2 (Hqueries "dyn_book")))].
Defined.

(** The declaration of [book] passes the schema as it is. *)
Lemma accepted_names_witness :
  occurs quote_char (rd_name bookDefinition) = false
  /\ map fd_name (rd_fields bookDefinition) = ["title"; "pages"].
Proof.
  destruct (@accepted_names_are_plain bookDefinition bookDefinition eq_refl)
    as (_ & Hfields & _ & Hquote & _).
  split; [exact Hquote | exact Hfields].
Defined.

(** [book] declared anew, on a server that accepts every statement. *)
Lemma update_then_get_witness :
  exists r',
    snd (updateResource (B := exampleBuiltins) (P := tableServer) "book" revisedBook
           (tableWorld bookCatalog threeBooks))
    = inr (mkResponse true (Some (DataResource r')) None
             (Some "Resource 'book' updated successfully"))
    /\ r_name r' = "book"
    /\ r_displayName r' = Some "Books"
    /\ map data_of (r_fields r') = [field_data 0 isbnField; field_data 1 titleField].
Proof.
  destruct (@update_then_get exampleBuiltins tableServer revisedBook bookRow
              (tableWorld bookCatalog threeBooks))
    as (w' & r' & Hrun & _ & _ & Hname & _ & Hlabel & _ & Hfields).
  - intro s. reflexivity.
  - intro s. reflexivity.
  - intros text s _. simpl.
    destruct (String.prefix "SELECT COUNT(*)" text); [eexists; reflexivity | ].
    destruct (String.prefix "SELECT * FROM" text); eexists; reflexivity.
  - exists [], []. split; [reflexivity | intros x []].
  - repeat split.
    + repeat constructor; simpl; intuition discriminate.
    + repeat constructor; simpl; intuition discriminate.
    + intros f [<- | [<- | []]]; simpl; lia.
  - repeat constructor; simpl; intuition discriminate.
  - exists r'. split; [exact (f_equal snd Hrun) | ].
    split; [exact Hname | split; [exact Hlabel | exact Hfields]].
Defined.

End MoreWitnesses.
